(** * The theme quality checker, [_tools/check_theme_quality.py]

    A shallow embedding of the check engine ([_run_check],
    [verify_theme_quality], the [__main__] block) and of the thirteen checks
    of the program, followed by their properties.

    Conventions of the embedding:
    - a Python [str] or [bytes] value is a [string]; the helpers that look at
      characters ([strip], [lower] and the like) follow Python on ASCII
      text, and a statement that depends on what they do to a text takes
      the text to be in ASCII ([ascii_text]);
    - every [Path] the checks handle is built from [_base_dir()], so a path is
      kept as its location below the base directory;
    - what a run reads from outside the program (directory listings, file
      contents, what lxml, Pillow and imagehash return, the iteration order
      of a [set]) is a field of [World]; writing a file gives a new [World],
      or raises and leaves the file as [write_error] says;
    - the floating point arithmetic of [check_vector_image_dimensions] is a
      field of [World] as well;
    - [rich.markup.escape] is not interpreted: console markup is a list of
      fragments, literal ones and escaped ones;
    - a generator function is a computation in the monad [Gen], which
      collects the yielded results, threads the [World] and stops at the
      first exception. *)

From Stdlib Require Import Ascii String List Bool Arith Lia.
From stdpp Require Import base option list gmap sets strings pretty sorting.

#[local] Set Warnings "-register-all".
#[local] Open Scope string_scope.
#[local] Open Scope nat_scope.
#[local] Open Scope list_scope.
#[local] Set Warnings "-clear-no-such-hyp".

(** ** Python strings *)

Module Py.

(** [str.isspace] on one ASCII character: TAB, LF, VT, FF, CR, the four
    separators FS, GS, RS, US and the blank. *)
Definition isspace (c : ascii) : bool :=
  let n := nat_of_ascii c in
  ((9 <=? n) && (n <=? 13)) || ((28 <=? n) && (n <=? 32)).

Fixpoint drop_while (p : ascii -> bool) (l : list ascii) : list ascii :=
  match l with
  | [] => []
  | c :: rest => if p c then drop_while p rest else l
  end.

Fixpoint take_while (p : ascii -> bool) (l : list ascii) : list ascii :=
  match l with
  | [] => []
  | c :: rest => if p c then c :: take_while p rest else []
  end.

Definition on_chars (f : list ascii -> list ascii) (s : string) : string :=
  string_of_list_ascii (f (list_ascii_of_string s)).

Definition lstrip_chars (p : ascii -> bool) : list ascii -> list ascii :=
  drop_while p.

Definition rstrip_chars (p : ascii -> bool) (l : list ascii) : list ascii :=
  rev (drop_while p (rev l)).

(** [s.strip()] *)
Definition strip : string -> string :=
  on_chars (fun l => rstrip_chars isspace (lstrip_chars isspace l)).

(** [s.rstrip(chars)] for a one-character [chars] *)
Definition rstrip (c : ascii) : string -> string :=
  on_chars (rstrip_chars (Ascii.eqb c)).

(** [s.lstrip(chars)] for a one-character [chars] *)
Definition lstrip (c : ascii) : string -> string :=
  on_chars (lstrip_chars (Ascii.eqb c)).

Definition lower_char (c : ascii) : ascii :=
  let n := nat_of_ascii c in
  if (65 <=? n) && (n <=? 90) then ascii_of_nat (n + 32) else c.

(** [s.lower()] *)
Definition lower : string -> string := on_chars (map lower_char).

(** [s.startswith(p)] *)
Definition startswith (s p : string) : bool := String.prefix p s.

(** [p in s] for strings *)
Fixpoint contains (p s : string) : bool :=
  String.prefix p s
  || match s with
     | EmptyString => false
     | String _ rest => contains p rest
     end.

(** [sep.join(parts)] *)
Fixpoint join (sep : string) (parts : list string) : string :=
  match parts with
  | [] => ""
  | [p] => p
  | p :: rest => p +:+ sep +:+ join sep rest
  end.

(** [s.rfind(c)] for a character [c]; [None] stands for [-1]. *)
Fixpoint rfind (c : ascii) (s : string) : option nat :=
  match s with
  | EmptyString => None
  | String a rest =>
      match rfind c rest with
      | Some i => Some (S i)
      | None => if Ascii.eqb a c then Some 0 else None
      end
  end.

(** A line feed and a double quote, as strings. *)
Definition nl : string := String "010" "".
Definition dq : string := String "034" "".

Definition hex_digit (n : nat) : ascii :=
  nth n (list_ascii_of_string "0123456789abcdef") "0"%char.

(** [repr] of one character of a string that is quoted with [quote]. *)
Definition repr_char (quote c : ascii) : list ascii :=
  let n := nat_of_ascii c in
  if Ascii.eqb c quote || Ascii.eqb c "\" then ["\"%char; c]
  else if n =? 9 then ["\"%char; "t"%char]
  else if n =? 10 then ["\"%char; "n"%char]
  else if n =? 13 then ["\"%char; "r"%char]
  else if (n <? 32) || (n =? 127) then
    ["\"%char; "x"%char; hex_digit (n / 16); hex_digit (n mod 16)]
  else [c].

(** [repr(s)] of a string: in single quotes, unless it has a single quote
    and no double quote. *)
Definition repr (s : string) : string :=
  let l := list_ascii_of_string s in
  let quote :=
    if existsb (Ascii.eqb "'") l && negb (existsb (Ascii.eqb "034") l)
    then "034"%char else "'"%char in
  string_of_list_ascii (quote :: flat_map (repr_char quote) l ++ [quote]).

(** [not v] for a string or [None] *)
Definition falsy (v : option string) : bool :=
  match v with
  | None => true
  | Some EmptyString => true
  | Some _ => false
  end.

(** [sorted(l)] for strings *)
Definition sorted (l : list string) : list string :=
  merge_sort (fun a b => Is_true (String.leb a b)) l.

(** [bool(x)] of a string and of a list: empty is falsy. *)
Definition truthy_str (s : string) : bool :=
  match s with EmptyString => false | _ => true end.

Definition truthy_list {A} (l : list A) : bool :=
  match l with [] => false | _ => true end.

End Py.

(** ** Paths, results, exceptions *)

(** A path below [_base_dir()]: the directories that lead from the base
    directory to the entry, and the entry's name. *)
Record Path := mkPath { parents : list string; name : string }.

#[global] Instance Path_eq_dec : EqDecision Path.
Proof. solve_decision. Defined.

(** [path.stem], as [pathlib] computes it from [path.name] (up to Python
    3.13; later versions differ on a name that ends in a dot). *)
Definition stem (p : Path) : string :=
  let n := name p in
  match Py.rfind "." n with
  | Some i => if (0 <? i) && (i <? String.length n - 1) then substring 0 i n else n
  | None => n
  end.

(** [path.suffix] *)
Definition suffix (p : Path) : string :=
  let n := name p in
  match Py.rfind "." n with
  | Some i =>
      if (0 <? i) && (i <? String.length n - 1)
      then substring i (String.length n - i) n else ""
  | None => ""
  end.

(** [str(path.parent.relative_to(_base_dir()))] *)
Definition relative_parent (p : Path) : string :=
  match parents p with
  | [] => "."
  | ds => Py.join "/" ds
  end.

Record Success := mkSuccess { success_file : Path }.
Record Failure := mkFailure { failure_file : Path; failure_reason : string }.
Record Fix := mkFix { fix_file : Path; fix_reason : string }.

(** [Result = Success | Failure | Fix] *)
Inductive Result :=
| ResSuccess (s : Success)
| ResFailure (f : Failure)
| ResFix (f : Fix).

Coercion ResSuccess : Success >-> Result.
Coercion ResFailure : Failure >-> Result.
Coercion ResFix : Fix >-> Result.

#[global] Instance Success_eq_dec : EqDecision Success.
Proof. solve_decision. Defined.
#[global] Instance Failure_eq_dec : EqDecision Failure.
Proof. solve_decision. Defined.
#[global] Instance Fix_eq_dec : EqDecision Fix.
Proof. solve_decision. Defined.
#[global] Instance Result_eq_dec : EqDecision Result.
Proof. solve_decision. Defined.

(** The subject of a result: its [file]. *)
Definition subject (r : Result) : Path :=
  match r with
  | ResSuccess s => success_file s
  | ResFailure f => failure_file f
  | ResFix f => fix_file f
  end.

Definition is_success (r : Result) : bool :=
  match r with ResSuccess _ => true | _ => false end.
Definition is_failure (r : Result) : bool :=
  match r with ResFailure _ => true | _ => false end.
Definition is_fix (r : Result) : bool :=
  match r with ResFix _ => true | _ => false end.

(** An instance of a subclass of [Exception]: its class and [str(e)].
    Such an object is truthy. *)
Record Exception := mkException { exc_class : string; exc_str : string }.

#[global] Instance Exception_eq_dec : EqDecision Exception.
Proof. solve_decision. Defined.

Definition ValueError (msg : string) : Exception := mkException "ValueError" msg.
Definition AttributeError (msg : string) : Exception := mkException "AttributeError" msg.

(** What an iteration hands to the loop body: one of the three result
    classes, or an object of any other type. *)
Inductive PyObject :=
| Obj (r : Result)
| Foreign.

(** ** XML trees *)

(** An lxml element: [tag] as [el.tag] gives it (with the namespace in
    braces), [qname] as XPath's [name()] gives it (with the prefix), the
    attributes in document order under the keys of [el.attrib], [el.text],
    and the child elements. Comments and processing instructions, which no
    check looks at, are left out. *)
Inductive Element :=
| mkElement (tag qname : string) (attrib : list (string * string))
            (text : option string) (children : list Element).

Definition tag (e : Element) : string :=
  match e with mkElement t _ _ _ _ => t end.
Definition qname (e : Element) : string :=
  match e with mkElement _ q _ _ _ => q end.
Definition attrib (e : Element) : list (string * string) :=
  match e with mkElement _ _ a _ _ => a end.
Definition text (e : Element) : option string :=
  match e with mkElement _ _ _ t _ => t end.
Definition children (e : Element) : list Element :=
  match e with mkElement _ _ _ _ c => c end.

(** [el.get(key)] *)
Definition get (key : string) (e : Element) : option string :=
  snd <$> List.find (fun kv => String.eqb (fst kv) key) (attrib e).

(** [el.find(t)] for a plain tag [t]: the first child with that tag. *)
Definition find (t : string) (e : Element) : option Element :=
  List.find (fun c => String.eqb (tag c) t) (children e).

(** [el.findall(t)] for a plain tag [t]: the children with that tag. *)
Definition findall (t : string) (e : Element) : list Element :=
  List.filter (fun c => String.eqb (tag c) t) (children e).

(** The elements below [e], in document order. *)
Fixpoint descendants (e : Element) : list Element :=
  match e with
  | mkElement _ _ _ _ cs => flat_map (fun c => c :: descendants c) cs
  end.

(** [el.findall(".//" + t)]: the elements below [e] with tag [t]. *)
Definition findall_below (t : string) (e : Element) : list Element :=
  List.filter (fun c => String.eqb (tag c) t) (descendants e).

(** ** The world a run observes *)

(** An entry of a directory, as [iterdir] lists it. *)
Record Node := mkNode { node_name : string; is_file : bool }.

Record World := mkWorld {
  (** [str(_base_dir())] *)
  base_dir : string;
  (** the entries of [_base_dir() / "_inc" / folder], in the order [iterdir]
      gives them; [None] when the directory does not exist *)
  iterdir : string -> option (list Node);
  (** [(_base_dir() / "_inc").glob("**/*." + ext)] *)
  glob : string -> list Path;
  (** [path.exists()] *)
  path_exists : Path -> bool;
  (** [open(path, "rb").read()], or the exception [open] raises *)
  content : Path -> Exception + string;
  (** [open(path, "wb")] followed by [file.write(data)]: [None] when the
      file is written; otherwise the exception raised and what reading the
      file gives from then on ([open] truncates the file before anything is
      written to it) *)
  write_error : Path -> string -> option (Exception * (Exception + string));
  (** the lines of [open(path, "r", encoding="utf-8")], or the exception
      raised on the way *)
  text_lines : Path -> Exception + list string;
  (** [Image.open(path).size], or the exception [Image.open] raises *)
  image_size : Path -> Exception + (nat * nat);
  (** [imagehash.phash(Image.open(path))], the hash as a number *)
  phash : Path -> Exception + N;
  (** the list [block_distances] that [check_overlays_match_their_backgrounds]
      computes from an overlay and its background, or the exception raised on
      the way *)
  block_distances : Path -> Path -> Exception + list nat;
  (** [lxml.etree.fromstring(data, parser)] and the tree that
      [lxml.etree.parse] builds from the same bytes *)
  fromstring : string -> Exception + Element;
  (** [lxml.etree.cleanup_namespaces(root)] *)
  cleanup_namespaces : Element -> Element;
  (** [lxml.etree.indent(root, space)] *)
  indent : string -> Element -> Element;
  (** [lxml.etree.tostring(root, encoding="utf-8", xml_declaration=d,
      pretty_print=True)] for the element [root] *)
  tostring : bool -> Element -> string;
  (** the same for [lxml.etree.ElementTree(root)] *)
  tostring_tree : bool -> Element -> string;
  (** the floating point part of [check_vector_image_dimensions]: the root
      once [viewBox], [width] and [height] are set as the target size asks,
      and the flag [fixed]; or the exception met while the sizes are read *)
  rescale : Element -> Exception + (Element * bool);
  (** the order in which iterating a [set] of strings gives its members *)
  set_iter : gset string -> list string;
}.

(** The world in which reading the file [p] gives [c], all else as in [w]. *)
Definition set_content (p : Path) (c : Exception + string) (w : World) : World :=
  {| base_dir := base_dir w;
     iterdir := iterdir w;
     glob := glob w;
     path_exists := path_exists w;
     content := fun q => if decide (q = p) then c else content w q;
     write_error := write_error w;
     text_lines := text_lines w;
     image_size := image_size w;
     phash := phash w;
     block_distances := block_distances w;
     fromstring := fromstring w;
     cleanup_namespaces := cleanup_namespaces w;
     indent := indent w;
     tostring := tostring w;
     tostring_tree := tostring_tree w;
     rescale := rescale w;
     set_iter := set_iter w |}.

(** [open(path, "wb").write(data)] on a file that exists, when it is done:
    only the content of that file changes. *)
Definition write_file (p : Path) (data : string) (w : World) : World :=
  set_content p (inr data) w.

(** [lxml.etree.parse(path)] followed by [getroot()] *)
Definition etree_parse (w : World) (p : Path) : Exception + Element :=
  match content w p with
  | inl e => inl e
  | inr data => fromstring w data
  end.

(** ** Generator functions *)

(** The state of a generator run: what it has yielded so far, the world it
    leaves, and how it went on: an exception, or a value. *)
Record GenState (A : Type) := mkGenState {
  yielded : list Result;
  world_after : World;
  value : Exception + A;
}.
Arguments mkGenState {A} _ _ _.
Arguments yielded {A} _.
Arguments world_after {A} _.
Arguments value {A} _.

Definition Gen (A : Type) : Type := World -> GenState A.

#[global] Instance Gen_ret : MRet Gen :=
  fun A a w => mkGenState [] w (inr a).

#[global] Instance Gen_bind : MBind Gen :=
  fun A B f m w =>
    let r := m w in
    match value r with
    | inl e => mkGenState (yielded r) (world_after r) (inl e)
    | inr a =>
        let r' := f a (world_after r) in
        mkGenState (yielded r ++ yielded r') (world_after r') (value r')
    end.

(** [yield result] *)
Definition yield_ (r : Result) : Gen unit :=
  fun w => mkGenState [r] w (inr tt).

(** [raise e] *)
Definition raise {A} (e : Exception) : Gen A :=
  fun w => mkGenState [] w (inl e).

(** A call that reads the world and may raise. *)
Definition call {A} (f : World -> Exception + A) : Gen A :=
  fun w => mkGenState [] w (f w).

(** A call that reads the world. *)
Definition ask {A} (f : World -> A) : Gen A :=
  fun w => mkGenState [] w (inr (f w)).

(** [with open(path, "wb") as file: file.write(data)]: the file is written,
    or an exception is raised and the file is left as [write_error] says. *)
Definition write (p : Path) (data : string) : Gen unit :=
  fun w =>
    match write_error w p data with
    | None => mkGenState [] (write_file p data w) (inr tt)
    | Some (e, c) => mkGenState [] (set_content p c w) (inl e)
    end.

(** [for x in l: body(x)] over a list *)
Fixpoint for_each {X} (l : list X) (body : X -> Gen unit) : Gen unit :=
  match l with
  | [] => mret tt
  | x :: rest => body x ;; for_each rest body
  end.

(** [for x in it: acc = body(acc, x)] over a list *)
Fixpoint fold_each {X S} (l : list X) (acc : S) (body : S -> X -> Gen S) : Gen S :=
  match l with
  | [] => mret acc
  | x :: rest => acc' ← body acc x; fold_each rest acc' body
  end.

(** An iterator that was drained: the items it gave, and the exception that
    ended it if one did. *)
Definition Drained (X : Type) : Type := (list X * option Exception)%type.

Definition stop_of {A} (stop : option Exception) (a : A) : Gen A :=
  match stop with
  | Some e => raise e
  | None => mret a
  end.

(** [for x in it: body(x)] over an iterator that may raise *)
Definition for_in {X} (it : World -> Drained X) (body : X -> Gen unit) : Gen unit :=
  d ← ask it; for_each d.1 body ;; stop_of d.2 tt.

(** [for x in it: acc = body(acc, x)] over an iterator that may raise *)
Definition fold_in {X S} (it : World -> Drained X) (acc : S)
           (body : S -> X -> Gen S) : Gen S :=
  d ← ask it; acc' ← fold_each d.1 acc body; stop_of d.2 acc'.

(** ** Files of the theme *)

Definition inc (folder_type : string) (n : string) : Path :=
  mkPath ["_inc"; folder_type] n.

(** [str(path)] of a path below the base directory *)
Definition str_path (w : World) (p : Path) : string :=
  base_dir w +:+ "/" +:+ Py.join "/" (parents p ++ [name p]).

Fixpoint iter_nodes (w : World) (folder_type : string) (nodes : list Node)
  : Drained Path :=
  match nodes with
  | [] => ([], None)
  | node :: rest =>
      if negb (is_file node) then
        ([], Some (ValueError ("Found unexpected non-file: "
                               +:+ str_path w (inc folder_type (node_name node)))))
      else if Py.startswith (node_name node) "_" then
        iter_nodes w folder_type rest
      else
        let d := iter_nodes w folder_type rest in
        (inc folder_type (node_name node) :: d.1, d.2)
  end.

Definition _iter_files (folder_type : string) (w : World) : Drained Path :=
  match iterdir w folder_type with
  | None => ([], Some (ValueError ("Invalid folder: " +:+ folder_type)))
  | Some nodes => iter_nodes w folder_type nodes
  end.

Definition _find_files (ext : string) (w : World) : Drained Path :=
  (glob w (Py.lstrip "." ext), None).

(** ** The console *)

(** A piece of console markup: literal text, or [escape(s)] of rich. *)
Inductive Fragment :=
| Lit (s : string)
| Esc (s : string).

Definition Markup : Type := list Fragment.

Inductive Renderable :=
| Text (m : Markup)
| Spinner (kind style : string) (label : Markup)
| Padding (r : Renderable) (pad : nat * nat)
| Traceback (e : Exception).

(** What [_run_check] and [verify_theme_quality] do to the terminal. *)
Inductive ConsoleOp :=
| LiveStart (r : Renderable)
| LiveUpdate (r : Renderable)
| LiveStop
| ConsolePrint (r : Renderable).

(** ** The check runner *)

(** The value a call of a check returns: a falsy one ([None], an empty
    list), for which [check() or []] is the empty list, or a truthy one,
    which the loop iterates: [items] are handed over, then the iteration
    ends, by an exception when [stop] holds one (a truthy value that is not
    iterable is the case of no item and a [TypeError]). *)
Inductive ReturnValue :=
| Falsy
| Iterable (items : list PyObject) (stop : option Exception).

Inductive Invocation :=
| Raises (e : Exception)
| Returns (v : ReturnValue).

(** A check: its docstring, and what calling it does. *)
Record CheckFunction := mkCheck {
  __doc__ : string;
  __call__ : World -> Invocation * World;
}.

(** A generator function as a check: the call returns a generator, which the
    runner drains. *)
Definition generator (doc : string) (body : Gen unit) : CheckFunction :=
  {| __doc__ := doc;
     __call__ := fun w =>
       let r := body w in
       (Returns (Iterable (Obj <$> yielded r)
                          (match value r with inl e => Some e | inr _ => None end)),
        world_after r) |}.

Record Tally := mkTally {
  successes : list Success;
  fixes : list Fix;
  failures : list Failure;
}.

Definition no_results : Tally := mkTally [] [] [].

(** The body of the loop over the results. *)
Definition tally_one (t : Tally) (result : PyObject) : Tally :=
  match result with
  | Obj (ResSuccess s) => mkTally (successes t ++ [s]) (fixes t) (failures t)
  | Obj (ResFix f) => mkTally (successes t) (fixes t ++ [f]) (failures t)
  | Obj (ResFailure f) => mkTally (successes t) (fixes t) (failures t ++ [f])
  | Foreign => t
  end.

(** The [try] block: the three lists when it is left, and the exception
    caught if there was one. *)
Definition consume (inv : Invocation) : Tally * option Exception :=
  match inv with
  | Raises e => (no_results, Some e)
  | Returns Falsy => (no_results, None)
  | Returns (Iterable items stop) => (fold_left tally_one items no_results, stop)
  end.

Definition total (t : Tally) : nat :=
  length (successes t) + length (fixes t) + length (failures t).

Inductive Outcome := Error | Pass | Fixed | Failed.

(** The branch the first [if] chain takes. *)
Definition classify (raised_exception : option Exception) (t : Tally) : Outcome :=
  if bool_decide (is_Some raised_exception) || (total t =? 0) then Error
  else if negb (Py.truthy_list (fixes t)) && negb (Py.truthy_list (failures t)) then Pass
  else if negb (Py.truthy_list (failures t)) then Fixed
  else Failed.

(** The text [live.update] is given in each branch. *)
Definition status_line (o : Outcome) (description : Fragment) : Markup :=
  match o with
  | Error => [Lit "[red][b]✘[/b] "; description; Lit " [red bold]ERROR.[/]"]
  | Pass => [Lit "[green][b]✔[/b] "; description; Lit " [green bold]PASS.[/]"]
  | Fixed => [Lit "[yellow][b]𝐢[/b] "; description; Lit " [yellow bold]FIX.[/]"]
  | Failed => [Lit "[red][b]✘[/b] "; description; Lit " [red bold]FAIL.[/]"]
  end.

Definition inform (message : Markup) : ConsoleOp :=
  ConsolePrint (Padding (Text (Lit "➔ " :: message)) (0, 4)).

Definition ppath (path : Path) : Markup :=
  [Lit "[dim]"; Lit (relative_parent path); Lit "/[/dim][b]"; Lit (name path);
   Lit "[/b]"].

Definition fix_message (f : Fix) : Markup :=
  ppath (fix_file f) ++ [Lit ": "; Esc (fix_reason f)].

Definition fixed_message (f : Fix) : Markup :=
  ppath (fix_file f) ++ [Lit " (fixed): "; Esc (fix_reason f)].

Definition failure_message (f : Failure) : Markup :=
  ppath (failure_file f) ++ [Lit ": "; Esc (failure_reason f)].

(** The second [if] chain, after the live region is closed: what is printed
    and what is returned. *)
Definition report (raised_exception : option Exception) (t : Tally)
  : list ConsoleOp * bool :=
  match raised_exception with
  | Some e => ([ConsolePrint (Padding (Traceback e) (0, 4))], false)
  | None =>
      if (total t =? 0) then
        ([inform [Lit "No files was checked, this must be an error."]], false)
      else if negb (Py.truthy_list (fixes t)) && negb (Py.truthy_list (failures t)) then
        ([], true)
      else if negb (Py.truthy_list (failures t)) then
        (inform ∘ fix_message <$> fixes t, true)
      else
        ((inform ∘ fixed_message <$> fixes t)
           ++ (inform ∘ failure_message <$> failures t), false)
  end.

Definition _run_check (check : CheckFunction) (w : World)
  : list ConsoleOp * bool * World :=
  let description := Esc (__doc__ check) in
  let spinner := Spinner "dots" "blue" [Lit "[blue]"; description; Lit "[/]"] in
  let '(inv, w') := __call__ check w in
  let '(t, raised_exception) := consume inv in
  let live := [LiveStart spinner;
               LiveUpdate (Text (status_line (classify raised_exception t) description));
               LiveStop] in
  let '(printed, returned) := report raised_exception t in
  (live ++ printed, returned, w').

(** ** The suite *)

(** The loop of [verify_theme_quality]. *)
Fixpoint run_checks (checks : list CheckFunction) (succeeded_count : nat) (w : World)
  : list ConsoleOp * nat * World :=
  match checks with
  | [] => ([], succeeded_count, w)
  | check :: rest =>
      let '(ops, returned, w') := _run_check check w in
      let '(ops', n, w'') := run_checks rest (succeeded_count + Nat.b2n returned) w' in
      (ops ++ ops', n, w'')
  end.

Definition final_result (verdict : string) (succeeded_count n_checks : nat) : Markup :=
  [Lit "[bold]Final result:[/] "; Lit verdict; Lit " (";
   Lit (pretty succeeded_count); Lit " out of "; Lit (pretty n_checks);
   Lit " checks passed)."].

(** [verify_theme_quality], with the list [checks] it builds as an argument. *)
Definition verify_theme_quality (checks : list CheckFunction) (w : World)
  : list ConsoleOp * bool * World :=
  let '(ops, succeeded_count, w') := run_checks checks 0 w in
  if negb (succeeded_count =? length checks) then
    (ops ++ [ConsolePrint (Text (final_result "[red bold]FAILURE[/]"
                                              succeeded_count (length checks)))],
     false, w')
  else
    (ops ++ [ConsolePrint (Text (final_result "[green bold]SUCCESS[/]"
                                              succeeded_count (length checks)))],
     true, w').

(** The [__main__] block: the exit status of the process. *)
Definition main (checks : list CheckFunction) (w : World)
  : list ConsoleOp * nat * World :=
  let '(ops, ok, w') := verify_theme_quality checks w in
  if negb ok then (ops, 1, w') else (ops, 0, w').

(** ** [check_svg_formatting] *)

Definition editor_element (el : Element) : bool :=
  Py.startswith (qname el) "sodipodi:" || Py.startswith (qname el) "inkscape:".

(** The first loop: every element below the root that XPath selects is taken
    out of its parent, with all that is below it. *)
Fixpoint remove_editor_elements (el : Element) : Element :=
  match el with
  | mkElement t q a x cs =>
      mkElement t q a x
        (flat_map (fun c => if editor_element c then [] else [remove_editor_elements c]) cs)
  end.

Definition editor_attribute (a : string) : bool :=
  Py.contains "inkscape" a || Py.contains "sodipodi" a.

(** The second loop: [del el.attrib[attr]] for the attributes of the editors,
    on every element. *)
Fixpoint remove_editor_attributes (el : Element) : Element :=
  match el with
  | mkElement t q a x cs =>
      mkElement t q (List.filter (fun kv => negb (editor_attribute kv.1)) a) x
        (List.map remove_editor_attributes cs)
  end.

Fixpoint strip_prefix (p l : list ascii) : option (list ascii) :=
  match p, l with
  | [], _ => Some l
  | _ :: _, [] => None
  | a :: p', b :: l' => if Ascii.eqb a b then strip_prefix p' l' else None
  end.

Definition not_semicolon (c : ascii) : bool := negb (Ascii.eqb c ";").

(** A match of [-inkscape-[^;]+;?\s*] at the head of [l]: what follows it.
    Each quantifier takes all it can, and what comes after it may match
    nothing, so the first attempt is the match. *)
Definition match_inkscape_css (l : list ascii) : option (list ascii) :=
  match strip_prefix (list_ascii_of_string "-inkscape-") l with
  | None => None
  | Some r =>
      match Py.take_while not_semicolon r with
      | [] => None
      | _ :: _ =>
          let r1 := Py.drop_while not_semicolon r in
          let r2 := match r1 with
                    | c :: t => if Ascii.eqb c ";" then t else r1
                    | [] => r1
                    end in
          Some (Py.drop_while Py.isspace r2)
      end
  end.

(** [inkscape_css_re.sub("", l)]: the matches are looked for from left to
    right and dropped. A step consumes at least one character, so [fuel] as
    long as the text is enough. *)
Fixpoint sub_inkscape_css (fuel : nat) (l : list ascii) : list ascii :=
  match fuel with
  | 0 => l
  | S fuel' =>
      match l with
      | [] => []
      | c :: rest =>
          match match_inkscape_css l with
          | Some after => sub_inkscape_css fuel' after
          | None => c :: sub_inkscape_css fuel' rest
          end
      end
  end.

Definition inkscape_css_re_sub (style_text : string) : string :=
  Py.on_chars (fun l => sub_inkscape_css (length l) l) style_text.

(** [new_style], from [style_text] *)
Definition new_style (style_text : string) : string :=
  Py.rstrip ";" (Py.strip (inkscape_css_re_sub style_text)).

(** [el.set("style", v)] on an element that has the attribute, and
    [del el.attrib["style"]] *)
Fixpoint restyle_attrib (a : list (string * string)) : list (string * string) :=
  match a with
  | [] => []
  | (k, v) :: rest =>
      if String.eqb k "style" then
        if Py.truthy_str (new_style v) then (k, new_style v) :: rest else rest
      else (k, v) :: restyle_attrib rest
  end.

(** The third loop, over the elements with a [style] attribute. *)
Fixpoint restyle (el : Element) : Element :=
  match el with
  | mkElement t q a x cs => mkElement t q (restyle_attrib a) x (List.map restyle cs)
  end.

(** The tree as it is when [tostring] is called. *)
Definition svg_cleaned (w : World) (tree : Element) : Exception + Element :=
  if editor_element tree then
    inl (AttributeError "'NoneType' object has no attribute 'remove'")
  else
    inr (indent w "    "
           (restyle (cleanup_namespaces w
                       (remove_editor_attributes (remove_editor_elements tree))))).

(** [formatted] *)
Definition svg_formatted (w : World) (tree : Element) : Exception + string :=
  match svg_cleaned w tree with
  | inl e => inl e
  | inr root => inr (Py.rstrip "010" (tostring w true root) +:+ Py.nl)
  end.

Definition check_svg_file (filepath : Path) : Gen unit :=
  svg_content ← call (fun w => content w filepath);
  parsed ← ask (fun w => fromstring w svg_content);
  match parsed with
  | inl e => yield_ (mkFailure filepath ("Could not parse SVG file: " +:+ exc_str e))
  | inr tree =>
      formatted ← call (fun w => svg_formatted w tree);
      if decide (formatted = svg_content) then yield_ (mkSuccess filepath)
      else
        write filepath formatted ;;
        yield_ (mkFix filepath "Formatted SVG file")
  end.

Definition check_svg_formatting_body : Gen unit :=
  for_in (_find_files ".svg") check_svg_file.

Definition check_svg_formatting : CheckFunction :=
  generator "Check that SVG files are properly formatted." check_svg_formatting_body.

(** ** [check_metadata_is_complete] *)

Definition tags : list string :=
  ["systemName"; "systemDescription"; "systemManufacturer"; "systemReleaseYear";
   "systemHardwareType"; "systemCoverSize"; "systemCartSize"].

(** [data.text is None or not data.text.strip()] *)
Definition blank_text (data : Element) : bool :=
  match text data with
  | None => true
  | Some t => negb (Py.truthy_str (Py.strip t))
  end.

(** The body of the loop over [tags]. *)
Definition check_tag (filepath : Path) (variables : Element) (t : string) : Gen unit :=
  match find t variables with
  | None => yield_ (mkFailure filepath ("Missing <" +:+ t +:+ "> tag in primary variables"))
  | Some data =>
      if blank_text data then
        yield_ (mkFailure filepath ("Empty <" +:+ t +:+ "> tag in primary variables"))
      else mret tt
  end.

(** The body of the loop over the files. The loop over [tags] has no
    [break], so its [else] clause runs whenever the loop ends. *)
Definition check_metadata_file (filepath : Path) : Gen unit :=
  tree ← call (fun w => etree_parse w filepath);
  match find "variables" tree with
  | None => yield_ (mkFailure filepath "Missing primary <variables> tag")
  | Some variables =>
      for_each tags (check_tag filepath variables) ;;
      yield_ (mkSuccess filepath)
  end.

Definition check_metadata_is_complete_body : Gen unit :=
  for_in (_iter_files "metadata") check_metadata_file.

Definition check_metadata_is_complete : CheckFunction :=
  generator "Check that all required variables in systems metadata are present."
            check_metadata_is_complete_body.

(** ** [check_all_variables_fully_translated] *)

Definition theme_lang : Path := mkPath ["_inc"; "ui-components"] "theme-lang.xml".

Definition get_child_tags (tree : Element) : gset string :=
  list_to_set (tag <$> children tree).

(** [lang_tags.remove(tag)], and the [except KeyError] clause *)
Definition remove_tag (lang : string) (lang_tags : gset string) (t : string)
  : Gen (gset string) :=
  if decide (t ∈ lang_tags) then mret (lang_tags ∖ {[t]})
  else
    yield_ (mkFailure theme_lang ("Missing <" +:+ t +:+ "> in language: " +:+ lang)) ;;
    mret lang_tags.

(** The body of the loop over the [variables] elements. *)
Definition check_language (required_tags : gset string) (var : Element) : Gen unit :=
  match get "lang" var with
  | None => mret tt
  | Some l =>
      let lang := Py.lower (Py.strip l) in
      order ← ask (fun w => set_iter w required_tags);
      lang_tags ← fold_each order (get_child_tags var) (remove_tag lang);
      if decide (lang_tags = ∅) then mret tt
      else
        unexpected ← ask (fun w => Py.join ", " (set_iter w lang_tags));
        yield_ (mkFailure theme_lang
                  ("Unexpected tags in language " +:+ lang +:+ ": " +:+ unexpected))
  end.

Definition check_all_variables_fully_translated_body : Gen unit :=
  tree ← call (fun w => etree_parse w theme_lang);
  match find "variables" tree with
  | None => raise (AttributeError "'NoneType' object has no attribute 'findall'")
  | Some variables =>
      let required_tags := get_child_tags variables in
      for_each (findall_below "variables" tree) (check_language required_tags) ;;
      yield_ (mkSuccess theme_lang)
  end.

Definition check_all_variables_fully_translated : CheckFunction :=
  generator "Check that all theme variables are translated."
            check_all_variables_fully_translated_body.

(** ** [check_no_missing_collections] *)

Definition collection_types : list string :=
  ["${i18n.custom-collection}"; "${i18n.auto-collection}"].

(** The body of the first loop. *)
Definition add_collection (system_collections : list Path) (filepath : Path)
  : Gen (list Path) :=
  tree ← call (fun w => etree_parse w filepath);
  match find "variables" tree with
  | None => raise (AttributeError "'NoneType' object has no attribute 'find'")
  | Some variables =>
      match find "systemHardwareType" variables with
      | None => raise (AttributeError "'NoneType' object has no attribute 'text'")
      | Some hardware =>
          match text hardware with
          | Some t =>
              if bool_decide (t ∈ collection_types)
              then mret (system_collections ++ [filepath])
              else mret system_collections
          | None => mret system_collections
          end
      end
  end.

Definition collections_file : Path := mkPath [] "collections.info".

(** The loop over the lines of the collections file. *)
Definition read_collections (lines : list string) : gset string :=
  fold_left
    (fun theme_collections line =>
       if Py.startswith line "#" || negb (Py.truthy_str (Py.strip line))
       then theme_collections
       else theme_collections ∪ {[Py.strip line]})
    lines ∅.

(** [theme_collections.remove(system.stem)], with its [except] and [else]
    clauses *)
Definition match_system (theme_collections : gset string) (system : Path)
  : Gen (gset string) :=
  if decide (stem system ∈ theme_collections) then
    yield_ (mkSuccess system) ;; mret (theme_collections ∖ {[stem system]})
  else
    yield_ (mkFailure system "Collection not referenced") ;; mret theme_collections.

Definition check_no_missing_collections_body : Gen unit :=
  system_collections ← fold_in (_iter_files "metadata") [] add_collection;
  lines ← call (fun w => text_lines w collections_file);
  theme_collections ← fold_each system_collections (read_collections lines) match_system;
  if decide (theme_collections = ∅) then mret tt
  else
    unexpected ← ask (fun w => Py.join ", " (set_iter w theme_collections));
    yield_ (mkFailure collections_file
              ("Collections file has extra entries: " +:+ unexpected)).

Definition check_no_missing_collections : CheckFunction :=
  generator "Check that no collections are missing from the collections metadata file."
            check_no_missing_collections_body.

(** ** [check_xml_formatting] *)

Definition check_xml_file (filepath : Path) : Gen unit :=
  xml_content ← call (fun w => content w filepath);
  parsed ← ask (fun w => fromstring w xml_content);
  match parsed with
  | inl e => yield_ (mkFailure filepath ("Could not parse XML file: " +:+ exc_str e))
  | inr tree =>
      formatted ← ask (fun w =>
        Py.rstrip "010" (tostring_tree w false (indent w "  " tree)) +:+ Py.nl);
      if decide (formatted = xml_content) then yield_ (mkSuccess filepath)
      else
        write filepath formatted ;;
        yield_ (mkFix filepath "Formatted XML file")
  end.

Definition check_xml_formatting_body : Gen unit :=
  for_in (_find_files ".xml") check_xml_file.

Definition check_xml_formatting : CheckFunction :=
  generator "Check that XML files are properly formatted." check_xml_formatting_body.

(** ** [check_vector_image_dimensions] *)

Definition check_vector_file (filepath : Path) : Gen unit :=
  svg_content ← call (fun w => content w filepath);
  parsed ← ask (fun w => fromstring w svg_content);
  match parsed with
  | inl e => yield_ (mkFailure filepath ("Could not parse SVG file: " +:+ exc_str e))
  | inr root =>
      let view_box := get "viewBox" root in
      let width := get "width" root in
      let height := get "height" root in
      if Py.falsy view_box && (Py.falsy width || Py.falsy height) then
        yield_ (mkFailure filepath "SVG must have a viewBox or both width and height")
      else
        scaled ← call (fun w => rescale w root);
        if negb scaled.2 then yield_ (mkSuccess filepath)
        else
          formatted ← ask (fun w =>
            Py.rstrip "010" (tostring w true (indent w "    " scaled.1)) +:+ Py.nl);
          if decide (formatted = svg_content) then yield_ (mkSuccess filepath)
          else
            write filepath formatted ;;
            yield_ (mkFix filepath "Rescaled SVG")
  end.

Definition check_vector_image_dimensions_body : Gen unit :=
  for_in (_iter_files "logos-svg") check_vector_file.

Definition check_vector_image_dimensions : CheckFunction :=
  generator "Check that all SVG logos have correct dimensions."
            check_vector_image_dimensions_body.

(** ** [check_raster_image_dimensions] *)

(** [str(size)] of a pair of integers *)
Definition str_size (size : nat * nat) : string :=
  "(" +:+ pretty size.1 +:+ ", " +:+ pretty size.2 +:+ ")".

Definition check_raster_file (f : Path) : Gen unit :=
  size ← call (fun w => image_size w f);
  if decide (size = (1920, 1080)) then yield_ (mkSuccess f)
  else yield_ (mkFailure f ("Invalid dimensions: " +:+ str_size size)).

Definition check_raster_image_dimensions_body : Gen unit :=
  for_each ["backgrounds"; "overlays"]
           (fun dir => for_in (_iter_files dir) check_raster_file).

Definition check_raster_image_dimensions : CheckFunction :=
  generator "Check that all background and overlays have correct dimensions."
            check_raster_image_dimensions_body.

(** ** [check_systems_are_complete] *)

(** [{file.stem for file in _iter_files(folder_type)}] *)
Definition stems (folder_type : string) : Gen (gset string) :=
  fold_in (_iter_files folder_type) ∅ (fun acc file => mret (acc ∪ {[stem file]})).

Definition check_system (backgrounds controllers logos : gset string) (system : Path)
  : Gen unit :=
  if decide (stem system ∉ backgrounds) then
    yield_ (mkFailure system "Missing background")
  else if decide (stem system ∉ controllers) then
    yield_ (mkFailure system "Missing controller")
  else if decide (stem system ∉ logos) then
    yield_ (mkFailure system "Missing logo")
  else yield_ (mkSuccess system).

Definition check_systems_are_complete_body : Gen unit :=
  backgrounds ← stems "backgrounds";
  controllers ← stems "controllers";
  logos ← stems "logos";
  for_in (_iter_files "metadata") (check_system backgrounds controllers logos).

Definition check_systems_are_complete : CheckFunction :=
  generator "Check that each system with metadata also has all required images."
            check_systems_are_complete_body.

(** ** [check_all_images_have_system] *)

Definition check_image (systems : gset string) (f : Path) : Gen unit :=
  if decide (stem f ∉ systems) then
    yield_ (mkFailure f "No associated system metadata")
  else yield_ (mkSuccess f).

Definition check_all_images_have_system_body : Gen unit :=
  systems ← stems "metadata";
  for_each ["backgrounds"; "overlays"; "logos"; "controllers"; "logos-svg"]
           (fun dir => for_in (_iter_files dir) (check_image systems)).

Definition check_all_images_have_system : CheckFunction :=
  generator "Check that all images also have an associated system metadata."
            check_all_images_have_system_body.

(** ** [check_file_extensions] *)

Definition expected_extensions : list (string * string) :=
  [("backgrounds", ".webp"); ("controllers", ".webp"); ("logos", ".webp");
   ("overlays", ".webp"); ("logos-svg", ".svg"); ("metadata", ".xml")].

Definition check_extension (ext : string) (file : Path) : Gen unit :=
  if decide (suffix file = ext) then yield_ (mkSuccess file)
  else
    yield_ (mkFailure file
              ("Expected a " +:+ ext +:+ " file but got: " +:+ suffix file)).

Definition check_file_extensions_body : Gen unit :=
  for_each expected_extensions
           (fun item => for_in (_iter_files item.1) (check_extension item.2)).

Definition check_file_extensions : CheckFunction :=
  generator "Check that all files have the appropriate extension."
            check_file_extensions_body.

(** ** [check_all_systems_fully_translated] *)

(** The first loop: the languages of the theme. *)
Definition required_languages (tree : Element) : gset string :=
  fold_left
    (fun required_langs var =>
       match get "lang" var with
       | None => required_langs
       | Some lang => required_langs ∪ {[Py.lower (Py.strip lang)]}
       end)
    (findall_below "variables" tree) ∅.

(** [expected_langs.remove(lang)], and the [except KeyError] clause *)
Definition remove_language (filepath : Path) (expected_langs : gset string)
           (var : Element) : Gen (gset string) :=
  match get "lang" var with
  | None => mret expected_langs
  | Some l =>
      let lang := Py.lower (Py.strip l) in
      if decide (lang ∈ expected_langs) then mret (expected_langs ∖ {[lang]})
      else
        yield_ (mkFailure filepath ("Unexpected language: " +:+ lang)) ;;
        mret expected_langs
  end.

(** The body of the loop over the metadata files. *)
Definition check_translations (required_langs : gset string) (filepath : Path)
  : Gen unit :=
  tree ← call (fun w => etree_parse w filepath);
  expected_langs ← fold_each (findall "variables" tree) required_langs
                             (remove_language filepath);
  if decide (expected_langs = ∅) then yield_ (mkSuccess filepath)
  else
    missing ← ask (fun w => Py.join ", " (Py.sorted (set_iter w expected_langs)));
    yield_ (mkFailure filepath ("Missing translations: " +:+ missing)).

Definition check_all_systems_fully_translated_body : Gen unit :=
  tree ← call (fun w => etree_parse w theme_lang);
  let required_langs := required_languages tree in
  if decide (required_langs = ∅) then
    yield_ (mkFailure theme_lang "No languages found")
  else
    for_in (_iter_files "metadata") (check_translations required_langs).

Definition check_all_systems_fully_translated : CheckFunction :=
  generator "Check that all metadata files have translations for all required languages."
            check_all_systems_fully_translated_body.

(** ** [check_duplicated_backgrounds] *)

(** The body of the loop, with [hash_dict] as it is before and after. *)
Definition check_background (hash_dict : gmap N Path) (filepath : Path)
  : Gen (gmap N Path) :=
  img_hash ← call (fun w => phash w filepath);
  match hash_dict !! img_hash with
  | Some other_file =>
      yield_ (mkFailure filepath
                ("Visually identical to " +:+ Py.repr (name other_file))) ;;
      mret hash_dict
  | None =>
      yield_ (mkSuccess filepath) ;;
      mret (<[img_hash := filepath]> hash_dict)
  end.

Definition check_duplicated_backgrounds_body : Gen unit :=
  fold_in (_iter_files "backgrounds") ∅ check_background ;; mret tt.

Definition check_duplicated_backgrounds : CheckFunction :=
  generator "Check that no two background images are visually the same."
            check_duplicated_backgrounds_body.

(** ** [check_overlays_match_their_backgrounds] *)

Definition check_overlay (overlay_file : Path) : Gen unit :=
  let background_file := inc "backgrounds" (name overlay_file) in
  present ← ask (fun w => path_exists w background_file);
  if negb present then yield_ (mkFailure overlay_file "Missing background")
  else
    distances ← call (fun w => block_distances w overlay_file background_file);
    match distances with
    | [] => raise (ValueError "max() iterable argument is empty")
    | _ :: _ =>
        if 5 <? list_max distances then
          yield_ (mkFailure overlay_file "Overlay does not match background visually")
        else yield_ (mkSuccess overlay_file)
    end.

Definition check_overlays_match_their_backgrounds_body : Gen unit :=
  for_in (_iter_files "overlays") check_overlay.

Definition check_overlays_match_their_backgrounds : CheckFunction :=
  generator "Check that overlay images match their corresponding background images."
            check_overlays_match_their_backgrounds_body.

(** ** The checks of the program *)

(** The list [checks] of [verify_theme_quality]. *)
Definition checks : list CheckFunction :=
  [check_vector_image_dimensions; check_raster_image_dimensions;
   check_svg_formatting; check_xml_formatting; check_systems_are_complete;
   check_all_images_have_system; check_file_extensions;
   check_metadata_is_complete; check_all_variables_fully_translated;
   check_all_systems_fully_translated; check_no_missing_collections;
   check_duplicated_backgrounds; check_overlays_match_their_backgrounds].

(** The generator functions behind them, in the same order. *)
Definition check_bodies : list (Gen unit) :=
  [check_vector_image_dimensions_body; check_raster_image_dimensions_body;
   check_svg_formatting_body; check_xml_formatting_body;
   check_systems_are_complete_body; check_all_images_have_system_body;
   check_file_extensions_body; check_metadata_is_complete_body;
   check_all_variables_fully_translated_body;
   check_all_systems_fully_translated_body; check_no_missing_collections_body;
   check_duplicated_backgrounds_body; check_overlays_match_their_backgrounds_body].

(** ** Reading a run *)

(** The results of each class among the items of an iteration, in the order
    in which they were handed over. *)
Definition successes_of (items : list PyObject) : list Success :=
  omap (fun o => match o with Obj (ResSuccess s) => Some s | _ => None end) items.

Definition fixes_of (items : list PyObject) : list Fix :=
  omap (fun o => match o with Obj (ResFix f) => Some f | _ => None end) items.

Definition failures_of (items : list PyObject) : list Failure :=
  omap (fun o => match o with Obj (ResFailure f) => Some f | _ => None end) items.

(** The live region of a check whose outcome is [o]. *)
Definition live_region (check : CheckFunction) (o : Outcome) : list ConsoleOp :=
  [LiveStart (Spinner "dots" "blue" [Lit "[blue]"; Esc (__doc__ check); Lit "[/]"]);
   LiveUpdate (Text (status_line o (Esc (__doc__ check))));
   LiveStop].

(** What the runner returned for each check of a suite, the checks being
    run one after the other. *)
Fixpoint returns (checks : list CheckFunction) (w : World) : list bool :=
  match checks with
  | [] => []
  | check :: rest =>
      let r := _run_check check w in
      r.1.2 :: returns rest r.2
  end.

(** The world in which the checks that follow [checks] start. *)
Fixpoint world_past (checks : list CheckFunction) (w : World) : World :=
  match checks with
  | [] => w
  | check :: rest => world_past rest (_run_check check w).2
  end.

(** The console operations of a suite, check by check. *)
Fixpoint console_of (checks : list CheckFunction) (w : World) : list ConsoleOp :=
  match checks with
  | [] => []
  | check :: rest =>
      let r := _run_check check w in
      r.1.1 ++ console_of rest r.2
  end.

(** A fault of a check: the exception is raised by the call, or while the
    results are handed over. *)
Definition faults (inv : Invocation) (e : Exception) : Prop :=
  inv = Raises e \/ exists items, inv = Returns (Iterable items (Some e)).

Definition count_true (l : list bool) : nat := length (filter (fun b => b = true) l).

(** The results about [p]. *)
Definition results_on (p : Path) (rs : list Result) : list Result :=
  filter (fun r => subject r = p) rs.

(** At most one result, and about [f]. *)
Definition single (f : Path) (rs : list Result) : Prop :=
  length rs <= 1 /\ Forall (fun r => subject r = f) rs.

(** The checks whose loop has one [yield] for a file on every path through
    its body, and [check_no_missing_collections]. *)
Definition single_result_bodies : list (Gen unit) :=
  [check_vector_image_dimensions_body; check_raster_image_dimensions_body;
   check_svg_formatting_body; check_xml_formatting_body;
   check_systems_are_complete_body; check_all_images_have_system_body;
   check_file_extensions_body; check_no_missing_collections_body;
   check_duplicated_backgrounds_body; check_overlays_match_their_backgrounds_body].

(** The checks that may yield several times for one file. *)
Definition several_results_bodies : list (Gen unit) :=
  [check_metadata_is_complete_body; check_all_variables_fully_translated_body;
   check_all_systems_fully_translated_body].

(** Directory listings name every entry once. *)
Definition listings_ok (w : World) : Prop :=
  (forall folder nodes, iterdir w folder = Some nodes -> NoDup (node_name <$> nodes))
  /\ (forall ext, NoDup (glob w ext)).

(** The list [system_collections] that the first loop of
    [check_no_missing_collections] builds. *)
Definition system_collections (w : World) : Exception + list Path :=
  value (fold_in (_iter_files "metadata") [] add_collection w).

(** A computation that yields nothing and leaves the world as it is. *)
Definition silent {A} (m : Gen A) : Prop :=
  forall w, yielded (m w) = [] /\ world_after (m w) = w.

(** The result [check_no_missing_collections] has for a collection system,
    given the entries of the collections file. *)
Definition system_result (listed : gset string) (system : Path) : Result :=
  if decide (stem system ∈ listed) then ResSuccess (mkSuccess system)
  else ResFailure (mkFailure system "Collection not referenced").

(** Failures about [p], followed by at most one more result about [p]. *)
Definition failures_then_one (p : Path) (l : list Result) : Prop :=
  exists fs tl,
    l = fs ++ tl
    /\ Forall (fun r => subject r = p /\ is_failure r = true) fs
    /\ length tl <= 1
    /\ Forall (fun r => subject r = p) tl.

(** A computation that leaves the world as it is. *)
Definition steady {A} (m : Gen A) : Prop := forall w, world_after (m w) = w.

(** ** Sample inputs *)

Definition no_file : Exception :=
  mkException "FileNotFoundError" "[Errno 2] No such file or directory".

(** A theme given by its directories, the files a glob finds, the contents
    of its files, the lines of its text files, and how lxml parses and
    writes; it has no images. *)
Definition theme_of (dirs : string -> option (list Node)) (globbed : string -> list Path)
           (files : Path -> Exception + string)
           (lines : Path -> Exception + list string)
           (parser : string -> Exception + Element)
           (writer : bool -> Element -> string) : World :=
  {| base_dir := "/theme";
     iterdir := dirs;
     glob := globbed;
     path_exists := fun p => match files p with inl _ => false | inr _ => true end;
     content := files;
     write_error := fun _ _ => None;
     text_lines := lines;
     image_size := fun _ => inl no_file;
     phash := fun _ => inl no_file;
     block_distances := fun _ _ => inl no_file;
     fromstring := parser;
     cleanup_namespaces := fun el => el;
     indent := fun _ el => el;
     tostring := writer;
     tostring_tree := writer;
     rescale := fun el => inr (el, false);
     set_iter := elements |}.

Definition no_document : Exception := mkException "XMLSyntaxError" "Document is empty".

(** A base directory with nothing below it. *)
Definition bare_world : World :=
  theme_of (fun _ => None) (fun _ => []) (fun _ => inl no_file) (fun _ => inl no_file)
           (fun _ => inl no_document) (fun _ _ => "").

(** A check that hands over the given items and then ends as [stop] says. *)
Definition yielding (doc : string) (items : list PyObject) (stop : option Exception)
  : CheckFunction :=
  {| __doc__ := doc; __call__ := fun w => (Returns (Iterable items stop), w) |}.

(** A function that returns [None]. *)
Definition returning_none (doc : string) : CheckFunction :=
  {| __doc__ := doc; __call__ := fun w => (Returns Falsy, w) |}.

Definition logo : Path := inc "logos-svg" "snes.svg".
Definition cover : Path := inc "backgrounds" "snes.webp".


(** An element without namespace and attributes. *)
Definition plain (t : string) (x : option string) (cs : list Element) : Element :=
  mkElement t t [] x cs.

(** A theme whose Spanish translation lacks [systemName]. *)
Definition theme_tree : Element :=
  plain "theme" None
    [plain "variables" None [plain "systemName" (Some "System") []];
     mkElement "variables" "variables" [("lang", "es")] None []].

Definition theme_world : World :=
  theme_of (fun _ => None) (fun _ => [])
           (fun p => if decide (p = theme_lang) then inr "theme-lang" else inl no_file)
           (fun _ => inl no_file)
           (fun data => if decide (data = "theme-lang") then inr theme_tree
                        else inl no_document)
           (fun _ _ => "").

(** The metadata of a system translated into one language. *)
Definition translated_tree (lang : string) : Element :=
  plain "theme" None [mkElement "variables" "variables" [("lang", lang)] None []].

(** The theme of [theme_tree], in Spanish, with one system, translated into
    French only. *)
Definition translations_world : World :=
  theme_of
    (fun folder =>
       if decide (folder = "metadata") then Some [mkNode "snes.xml" true] else None)
    (fun _ => [])
    (fun p =>
       if decide (p = theme_lang) then inr "theme-lang"
       else if decide (p = inc "metadata" "snes.xml") then inr "snes"
       else inl no_file)
    (fun _ => inl no_file)
    (fun data =>
       if decide (data = "theme-lang") then inr theme_tree
       else if decide (data = "snes") then inr (translated_tree "fr")
       else inl no_document)
    (fun _ _ => "").

(** The metadata of a system of the given hardware type. *)
Definition system_tree (hardware : string) : Element :=
  plain "theme" None
    [plain "variables" None [plain "systemHardwareType" (Some hardware) []]].

Definition collections_lines : list string :=
  ["# collections" +:+ Py.nl; "arcade" +:+ Py.nl; Py.nl; "favorites" +:+ Py.nl;
   "recent" +:+ Py.nl].

(** The collection systems [arcade] and [mine], the console [snes], and a
    collections file that lists [arcade], [favorites] and [recent]. *)
Definition collections_world : World :=
  theme_of
    (fun folder =>
       if decide (folder = "metadata")
       then Some [mkNode "arcade.xml" true; mkNode "mine.xml" true;
                  mkNode "snes.xml" true]
       else None)
    (fun _ => [])
    (fun p =>
       if decide (p = inc "metadata" "arcade.xml") then inr "arcade"
       else if decide (p = inc "metadata" "mine.xml") then inr "mine"
       else if decide (p = inc "metadata" "snes.xml") then inr "snes"
       else inl no_file)
    (fun p => if decide (p = collections_file) then inr collections_lines else inl no_file)
    (fun data =>
       if decide (data = "arcade") then inr (system_tree "${i18n.custom-collection}")
       else if decide (data = "mine") then inr (system_tree "${i18n.auto-collection}")
       else if decide (data = "snes") then inr (system_tree "${i18n.console}")
       else inl no_document)
    (fun _ _ => "").

(** An SVG document that is a lone [svg] element with a [style] attribute,
    as lxml writes it, and its tree. *)
Definition svg_head : string :=
  "<?xml version='1.0' encoding='utf-8'?>" +:+ Py.nl
  +:+ "<svg xmlns=" +:+ Py.dq +:+ "http://www.w3.org/2000/svg" +:+ Py.dq
  +:+ " style=" +:+ Py.dq.

Definition svg_tail : string := Py.dq +:+ "/>" +:+ Py.nl.

Definition svg_document (style : string) : string := svg_head +:+ style +:+ svg_tail.

Definition svg_tree (style : string) : Element :=
  mkElement "{http://www.w3.org/2000/svg}svg" "svg" [("style", style)] None [].

Definition not_quote (c : ascii) : bool := negb (Ascii.eqb c "034").

(** The parser on the documents of that shape. *)
Definition parse_svg_document (data : string) : Exception + Element :=
  match strip_prefix (list_ascii_of_string svg_head) (list_ascii_of_string data) with
  | Some r =>
      if decide (string_of_list_ascii (Py.drop_while not_quote r) = svg_tail)
      then inr (svg_tree (string_of_list_ascii (Py.take_while not_quote r)))
      else inl (mkException "XMLSyntaxError" "not well-formed")
  | None => inl (mkException "XMLSyntaxError" "not well-formed")
  end.

(** A theme with one SVG file, whose [style] ends in a blank and a
    semicolon, and lxml as it behaves on such documents. *)
Definition svg_world : World :=
  theme_of (fun _ => None)
           (fun ext => if decide (ext = "svg") then [logo] else [])
           (fun p => if decide (p = logo) then inr (svg_document "fill:red ;") else inl no_file)
           (fun _ => inl no_file)
           parse_svg_document
           (fun _ el => match get "style" el with
                        | Some style => svg_document style
                        | None => ""
                        end).

Definition no_space : Exception :=
  mkException "OSError" "[Errno 28] No space left on device".

(** The theme of [svg_world] on a full disk: a write raises and leaves the
    file empty. *)
Definition full_disk_world : World :=
  {| base_dir := base_dir svg_world;
     iterdir := iterdir svg_world;
     glob := glob svg_world;
     path_exists := path_exists svg_world;
     content := content svg_world;
     write_error := fun _ _ => Some (no_space, inr "");
     text_lines := text_lines svg_world;
     image_size := image_size svg_world;
     phash := phash svg_world;
     block_distances := block_distances svg_world;
     fromstring := fromstring svg_world;
     cleanup_namespaces := cleanup_namespaces svg_world;
     indent := indent svg_world;
     tostring := tostring svg_world;
     tostring_tree := tostring_tree svg_world;
     rescale := rescale svg_world;
     set_iter := set_iter svg_world |}.

(** ** Reading a run, continued *)

(** The results among the items of an iteration, the objects of other types
    left out. *)
Definition results_of (items : list PyObject) : list Result :=
  omap (fun o => match o with Obj r => Some r | Foreign => None end) items.

(** The docstrings that the live regions of a console show, in order. *)
Definition started (ops : list ConsoleOp) : list string :=
  omap (fun op => match op with
                  | LiveStart (Spinner _ _ [_; Esc doc; _]) => Some doc
                  | _ => None
                  end) ops.

Definition is_print (op : ConsoleOp) : bool :=
  match op with ConsolePrint _ => true | _ => false end.

(** An entry that [_iter_files] does not pass over: its name does not start
    with an underscore. *)
Definition visible (node : Node) : bool := negb (Py.startswith (node_name node) "_").

(** The entries of a listing that come before its first entry that is not a
    file. *)
Fixpoint leading_files (nodes : list Node) : list Node :=
  match nodes with
  | [] => []
  | node :: rest => if is_file node then node :: leading_files rest else []
  end.

(** The elements of a tree: its root and what is below it ([//*]). *)
Definition elements_of (el : Element) : list Element := el :: descendants el.

(** Induction on a tree: a property holds of every element when it holds of
    an element whose children have it. *)
Definition Element_children_ind (P : Element -> Prop)
    (step : forall t q a x cs, Forall P cs -> P (mkElement t q a x cs))
  : forall el, P el :=
  fix go (el : Element) : P el :=
    match el with
    | mkElement t q a x cs =>
        step t q a x cs
          ((fix go_list (l : list Element) : Forall P l :=
              match l with
              | [] => @List.Forall_nil _ P
              | c :: l' => @List.Forall_cons _ P c l' (go c) (go_list l')
              end) cs)
    end.

(** The checks that only read: all but the three that format or rescale. *)
Definition reading_bodies : list (Gen unit) :=
  [check_raster_image_dimensions_body; check_systems_are_complete_body;
   check_all_images_have_system_body; check_file_extensions_body;
   check_metadata_is_complete_body; check_all_variables_fully_translated_body;
   check_all_systems_fully_translated_body; check_no_missing_collections_body;
   check_duplicated_backgrounds_body; check_overlays_match_their_backgrounds_body].

(** A computation that changes no file without a [Fix] for it among its
    results, unless the write to the file raises: then it ends in that
    exception. *)
Definition fixes_what_it_writes {A} (m : Gen A) : Prop :=
  forall w p,
    content (world_after (m w)) p = content w p
    \/ (exists reason, ResFix (mkFix p reason) ∈ yielded (m w))
    \/ (exists e data c, write_error w p data = Some (e, c) /\ value (m w) = inl e).

(** The same, for a computation that leaves to every write the outcome it
    had. *)
Definition writes_well {A} (m : Gen A) : Prop :=
  (forall w, write_error (world_after (m w)) = write_error w)
  /\ fixes_what_it_writes m.

(** A loop body that, at the item [x], either raises and yields nothing or
    ends and yields one result, about [x]. *)
Definition one_result_each (body : Path -> Gen unit) : Prop :=
  forall x w,
    (yielded (body x w) = [] /\ exists e, value (body x w) = inl e)
    \/ (exists r, yielded (body x w) = [r] /\ subject r = x /\ value (body x w) = inr tt).

(** The checks that are one loop over files with such a body, each with the
    files it goes through. *)
Definition file_loops : list ((World -> Drained Path) * Gen unit) :=
  [(_iter_files "logos-svg", check_vector_image_dimensions_body);
   (_find_files ".svg", check_svg_formatting_body);
   (_find_files ".xml", check_xml_formatting_body);
   (_iter_files "overlays", check_overlays_match_their_backgrounds_body)].

(** A run that ends without exception and without a [Failure]. *)
Definition clean (m : Gen unit) (w : World) : Prop :=
  value (m w) = inr tt /\ Forall (fun r => is_failure r = false) (yielded (m w)).

(** A metadata tree that has the primary [variables] element and, in it,
    each of the required tags with a text that is not blank. *)
Definition complete (tree : Element) : Prop :=
  exists variables,
    find "variables" tree = Some variables
    /\ Forall (fun t => exists data, find t variables = Some data /\ blank_text data = false)
              tags.

(** The language of a [variables] element: its [lang] attribute, stripped
    and in lower case. *)
Definition language (var : Element) : option string :=
  (fun lang => Py.lower (Py.strip lang)) <$> get "lang" var.

(** The languages of the elements [vars], in their order. *)
Definition languages (vars : list Element) : list string := omap language vars.

(** Text in ASCII: every character is below 128. On such text [Py.strip] and
    [Py.lower] are [str.strip] and [str.lower], and the white space of a
    regular expression is that of [Py.isspace]. *)
Definition ascii_text (s : string) : bool :=
  forallb (fun c => nat_of_ascii c <? 128) (list_ascii_of_string s).

(** An element whose text and attribute values are in ASCII. *)
Definition ascii_element (el : Element) : bool :=
  match text el with Some t => ascii_text t | None => true end
  && forallb (fun kv => ascii_text kv.2) (attrib el).

(** The documents that are parsed have their texts and their attribute
    values in ASCII. *)
Definition ascii_documents (w : World) : Prop :=
  forall p tree,
    etree_parse w p = inr tree -> forallb ascii_element (elements_of tree) = true.

(** Iterating a set gives each of its members once. *)
Definition sets_ok (w : World) : Prop :=
  forall s : gset string, NoDup (set_iter w s) /\ forall x, x ∈ set_iter w s <-> x ∈ s.

(** ** Sample inputs, continued *)

(** A theme with three backgrounds, the first and the last of the same
    hash, and two overlays, the second with no opaque block. *)
Definition gallery_world : World :=
  {| base_dir := "/theme";
     iterdir := fun folder =>
       if decide (folder = "backgrounds")
       then Some [mkNode "a.webp" true; mkNode "b.webp" true; mkNode "c.webp" true]
       else if decide (folder = "overlays")
       then Some [mkNode "a.webp" true; mkNode "b.webp" true]
       else None;
     glob := fun _ => [];
     path_exists := fun p =>
       bool_decide (p ∈ [inc "backgrounds" "a.webp"; inc "backgrounds" "b.webp";
                         inc "backgrounds" "c.webp"; inc "overlays" "a.webp";
                         inc "overlays" "b.webp"]);
     content := fun _ => inl no_file;
     write_error := fun _ _ => None;
     text_lines := fun _ => inl no_file;
     image_size := fun _ => inr (1920, 1080);
     phash := fun p =>
       if decide (p = inc "backgrounds" "b.webp") then inr 9%N else inr 7%N;
     block_distances := fun overlay _ =>
       if decide (overlay = inc "overlays" "a.webp") then inr [0; 2; 5] else inr [];
     fromstring := fun _ => inl no_document;
     cleanup_namespaces := fun el => el;
     indent := fun _ el => el;
     tostring := fun _ _ => "";
     tostring_tree := fun _ _ => "";
     rescale := fun el => inr (el, false);
     set_iter := elements |}.


(** * Properties *)

(** ** The three lists of the runner *)

Lemma tally_one_successes t o :
  successes (tally_one t o) = successes t ++ successes_of [o].
Proof. destruct o as [[s|f|f]|]; simpl; by rewrite ?app_nil_r. Qed.

Lemma tally_one_fixes t o :
  fixes (tally_one t o) = fixes t ++ fixes_of [o].
Proof. destruct o as [[s|f|f]|]; simpl; by rewrite ?app_nil_r. Qed.

Lemma tally_one_failures t o :
  failures (tally_one t o) = failures t ++ failures_of [o].
Proof. destruct o as [[s|f|f]|]; simpl; by rewrite ?app_nil_r. Qed.

Lemma tally_fold items : forall t,
  fold_left tally_one items t
  = mkTally (successes t ++ successes_of items)
            (fixes t ++ fixes_of items)
            (failures t ++ failures_of items).
Proof.
  induction items as [|o items IH]; intros t; simpl.
  - destruct t; simpl. by rewrite !app_nil_r.
  - rewrite IH, tally_one_successes, tally_one_fixes, tally_one_failures.
    rewrite <- !app_assoc. f_equal.
    + f_equal. unfold successes_of. by destruct o as [[?|?|?]|].
    + f_equal. unfold fixes_of. by destruct o as [[?|?|?]|].
    + f_equal. unfold failures_of. by destruct o as [[?|?|?]|].
Qed.

Lemma consume_iterable items stop :
  consume (Returns (Iterable items stop))
  = (mkTally (successes_of items) (fixes_of items) (failures_of items), stop).
Proof. unfold consume. by rewrite tally_fold. Qed.

Lemma fixes_of_elem items f : f ∈ fixes_of items <-> Obj (ResFix f) ∈ items.
Proof.
  unfold fixes_of. rewrite list_elem_of_omap. split.
  - intros (o & Ho & Heq). destruct o as [[?|?|?]|]; simplify_eq. done.
  - intros H. exists (Obj (ResFix f)). done.
Qed.

Lemma failures_of_elem items f : f ∈ failures_of items <-> Obj (ResFailure f) ∈ items.
Proof.
  unfold failures_of. rewrite list_elem_of_omap. split.
  - intros (o & Ho & Heq). destruct o as [[?|?|?]|]; simplify_eq. done.
  - intros H. exists (Obj (ResFailure f)). done.
Qed.

Lemma successes_of_elem items s : s ∈ successes_of items <-> Obj (ResSuccess s) ∈ items.
Proof.
  unfold successes_of. rewrite list_elem_of_omap. split.
  - intros (o & Ho & Heq). destruct o as [[?|?|?]|]; simplify_eq. done.
  - intros H. exists (Obj (ResSuccess s)). done.
Qed.

Lemma run_check_unfold check w inv w' :
  __call__ check w = (inv, w') ->
  _run_check check w
  = (live_region check (classify (consume inv).2 (consume inv).1)
       ++ (report (consume inv).2 (consume inv).1).1,
     (report (consume inv).2 (consume inv).1).2, w').
Proof.
  intros Hcall. unfold _run_check. rewrite Hcall.
  destruct (consume inv) as [t raised]. simpl.
  by destruct (report raised t).
Qed.

(** ** The runner, outcome by outcome *)

(** C2 (as amended): a check that hands over no result and raises nothing is
    classified ERROR; the runner prints the message "No files was checked,
    this must be an error." and returns [False]. *)
Theorem run_check_no_results check w w' :
  __call__ check w = (Returns (Iterable [] None), w') ->
  _run_check check w
  = (live_region check Error
       ++ [inform [Lit "No files was checked, this must be an error."]],
     false, w').
Proof. intros Hcall. by rewrite (run_check_unfold _ _ _ _ Hcall). Qed.

Lemma run_check_no_results_witness :
  __call__ (yielding "Check nothing." [] None) bare_world
  = (Returns (Iterable [] None), bare_world)
  /\ _run_check (yielding "Check nothing." [] None) bare_world
     = (live_region (yielding "Check nothing." [] None) Error
          ++ [inform [Lit "No files was checked, this must be an error."]],
        false, bare_world).
Proof.
  split; [reflexivity|].
  apply (run_check_no_results (yielding "Check nothing." [] None) bare_world bare_world).
  reflexivity.
Defined.

(** C2, as the specification words the message: no such line is printed. *)
Lemma run_check_no_results_not_were :
  inform [Lit "No files were checked, this must be an error."]
  ∉ (_run_check (yielding "Check nothing." [] None) bare_world).1.1.
Proof.
  cbn. rewrite !elem_of_cons, elem_of_nil. unfold inform.
  intros [H|[H|[H|[H|[]]]]]; discriminate H.
Qed.

(** C10: when the call of a check returns a falsy value, the runner takes it
    for an empty list of results: the outcome is ERROR by the rule of the
    empty run, with its message and no traceback, and the runner returns
    [False]. *)
Theorem run_check_falsy_return check w w' :
  __call__ check w = (Returns Falsy, w') ->
  consume (Returns Falsy) = (no_results, None)
  /\ _run_check check w
     = (live_region check Error
          ++ [inform [Lit "No files was checked, this must be an error."]],
        false, w').
Proof.
  intros Hcall. split; [reflexivity|].
  by rewrite (run_check_unfold _ _ _ _ Hcall).
Qed.

Lemma run_check_falsy_return_witness :
  __call__ (returning_none "Check nothing.") bare_world = (Returns Falsy, bare_world)
  /\ consume (Returns Falsy) = (no_results, None)
  /\ _run_check (returning_none "Check nothing.") bare_world
     = (live_region (returning_none "Check nothing.") Error
          ++ [inform [Lit "No files was checked, this must be an error."]],
        false, bare_world).
Proof.
  split; [reflexivity|].
  apply (run_check_falsy_return (returning_none "Check nothing.") bare_world bare_world).
  reflexivity.
Defined.


Lemma run_check_fault check w w' inv e :
  __call__ check w = (inv, w') ->
  faults inv e ->
  _run_check check w
  = (live_region check Error ++ [ConsolePrint (Padding (Traceback e) (0, 4))],
     false, w').
Proof.
  intros Hcall [->|[items ->]]; rewrite (run_check_unfold _ _ _ _ Hcall).
  - reflexivity.
  - by rewrite consume_iterable.
Qed.

(** C4: a check that hands over at least one result, all of them [Success],
    is classified PASS; nothing is printed below the status line and the
    runner returns [True]. *)
Theorem run_check_pass check w w' items :
  __call__ check w = (Returns (Iterable items None), w') ->
  items ≠ [] ->
  Forall (fun o => exists s, o = Obj (ResSuccess s)) items ->
  _run_check check w = (live_region check Pass, true, w').
Proof.
  intros Hcall Hne Hall.
  rewrite (run_check_unfold _ _ _ _ Hcall), consume_iterable. simpl.
  assert (Hfix : fixes_of items = []).
  { apply elem_of_nil_inv. intros f Hf%fixes_of_elem.
    rewrite Forall_forall in Hall. by destruct (Hall _ Hf) as [s ?]. }
  assert (Hfail : failures_of items = []).
  { apply elem_of_nil_inv. intros f Hf%failures_of_elem.
    rewrite Forall_forall in Hall. by destruct (Hall _ Hf) as [s ?]. }
  assert (Hsucc : successes_of items ≠ []).
  { destruct items as [|o items]; [done|].
    apply Forall_cons_1 in Hall as [[s ->] _]. done. }
  unfold classify, report, total. simpl. rewrite Hfix, Hfail. simpl.
  destruct (successes_of items); [done|]. reflexivity.
Qed.

Lemma run_check_pass_witness :
  __call__ (yielding "Check the logos." [Obj (mkSuccess logo); Obj (mkSuccess cover)] None)
           bare_world
  = (Returns (Iterable [Obj (mkSuccess logo); Obj (mkSuccess cover)] None), bare_world)
  /\ _run_check (yielding "Check the logos." [Obj (mkSuccess logo); Obj (mkSuccess cover)] None)
                bare_world
     = (live_region (yielding "Check the logos."
                              [Obj (mkSuccess logo); Obj (mkSuccess cover)] None) Pass,
        true, bare_world).
Proof.
  split; [reflexivity|].
  apply (run_check_pass _ bare_world bare_world
                        [Obj (mkSuccess logo); Obj (mkSuccess cover)]).
  - reflexivity.
  - discriminate.
  - repeat constructor; eexists; reflexivity.
Defined.

(** C5: a check that hands over at least one [Fix] and no [Failure] is
    classified FIX; the runner returns [True] and prints, for each [Fix] in
    the order in which they were handed over, the line "<path>: <reason>":
    an arrow, the parent of the file relative to the base directory, dimmed,
    the name of the file, in bold, a colon and the reason, escaped. *)
Theorem run_check_fixed check w w' items :
  __call__ check w = (Returns (Iterable items None), w') ->
  (exists f, Obj (ResFix f) ∈ items) ->
  (forall f, Obj (ResFailure f) ∉ items) ->
  _run_check check w
  = ([LiveStart (Spinner "dots" "blue" [Lit "[blue]"; Esc (__doc__ check); Lit "[/]"]);
      LiveUpdate (Text [Lit "[yellow][b]𝐢[/b] "; Esc (__doc__ check);
                        Lit " [yellow bold]FIX.[/]"]);
      LiveStop]
       ++ ((fun f =>
              ConsolePrint
                (Padding
                   (Text [Lit "➔ "; Lit "[dim]"; Lit (relative_parent (fix_file f));
                          Lit "/[/dim][b]"; Lit (name (fix_file f)); Lit "[/b]";
                          Lit ": "; Esc (fix_reason f)])
                   (0, 4)))
             <$> fixes_of items),
     true, w').
Proof.
  intros Hcall [f Hf] Hnofail.
  rewrite (run_check_unfold _ _ _ _ Hcall), consume_iterable. simpl.
  assert (Hfail : failures_of items = []).
  { apply elem_of_nil_inv. intros f' Hf'%failures_of_elem. by apply (Hnofail f'). }
  apply fixes_of_elem in Hf.
  unfold classify, report, total. simpl. rewrite Hfail.
  destruct (fixes_of items) as [|f0 fs] eqn:Hfixes; [by apply elem_of_nil in Hf|].
  simpl. rewrite Nat.add_0_r.
  replace (length (successes_of items) + S (length fs) =? 0) with false
    by (symmetry; apply Nat.eqb_neq; lia).
  reflexivity.
Qed.

Lemma run_check_fixed_witness :
  let items := [Obj (mkFix logo "Rescaled SVG"); Obj (mkSuccess cover);
                Obj (mkFix cover "Formatted SVG file")] in
  let check := yielding "Check the logos." items None in
  __call__ check bare_world = (Returns (Iterable items None), bare_world)
  /\ _run_check check bare_world
     = ([LiveStart (Spinner "dots" "blue" [Lit "[blue]"; Esc "Check the logos."; Lit "[/]"]);
         LiveUpdate (Text [Lit "[yellow][b]𝐢[/b] "; Esc "Check the logos.";
                           Lit " [yellow bold]FIX.[/]"]);
         LiveStop;
         ConsolePrint
           (Padding
              (Text [Lit "➔ "; Lit "[dim]"; Lit "_inc/logos-svg"; Lit "/[/dim][b]";
                     Lit "snes.svg"; Lit "[/b]"; Lit ": "; Esc "Rescaled SVG"])
              (0, 4));
         ConsolePrint
           (Padding
              (Text [Lit "➔ "; Lit "[dim]"; Lit "_inc/backgrounds"; Lit "/[/dim][b]";
                     Lit "snes.webp"; Lit "[/b]"; Lit ": "; Esc "Formatted SVG file"])
              (0, 4))],
        true, bare_world).
Proof.
  split; [reflexivity|].
  apply (run_check_fixed
           (yielding "Check the logos."
                     [Obj (mkFix logo "Rescaled SVG"); Obj (mkSuccess cover);
                      Obj (mkFix cover "Formatted SVG file")] None)
           bare_world bare_world
           [Obj (mkFix logo "Rescaled SVG"); Obj (mkSuccess cover);
            Obj (mkFix cover "Formatted SVG file")]).
  - reflexivity.
  - exists (mkFix logo "Rescaled SVG"). apply list_elem_of_here.
  - intros f Hf. rewrite !elem_of_cons, elem_of_nil in Hf.
    destruct Hf as [H|[H|[H|[]]]]; discriminate H.
Defined.

(** C6: a check that hands over at least one [Failure] is classified FAIL;
    the runner returns [False] and prints first, for each [Fix], the line
    "<path> (fixed): <reason>" and then, for each [Failure], the line
    "<path>: <reason>", so that every line of a fix is above every line of a
    failure. In a line, the path is the parent of the file relative to the
    base directory, dimmed, and the name of the file, in bold; the reason is
    escaped. *)
Theorem run_check_failed check w w' items :
  __call__ check w = (Returns (Iterable items None), w') ->
  (exists f, Obj (ResFailure f) ∈ items) ->
  _run_check check w
  = ([LiveStart (Spinner "dots" "blue" [Lit "[blue]"; Esc (__doc__ check); Lit "[/]"]);
      LiveUpdate (Text [Lit "[red][b]✘[/b] "; Esc (__doc__ check);
                        Lit " [red bold]FAIL.[/]"]);
      LiveStop]
       ++ ((fun f =>
              ConsolePrint
                (Padding
                   (Text [Lit "➔ "; Lit "[dim]"; Lit (relative_parent (fix_file f));
                          Lit "/[/dim][b]"; Lit (name (fix_file f)); Lit "[/b]";
                          Lit " (fixed): "; Esc (fix_reason f)])
                   (0, 4)))
             <$> fixes_of items)
       ++ ((fun f =>
              ConsolePrint
                (Padding
                   (Text [Lit "➔ "; Lit "[dim]"; Lit (relative_parent (failure_file f));
                          Lit "/[/dim][b]"; Lit (name (failure_file f)); Lit "[/b]";
                          Lit ": "; Esc (failure_reason f)])
                   (0, 4)))
             <$> failures_of items),
     false, w').
Proof.
  intros Hcall [f Hf].
  rewrite (run_check_unfold _ _ _ _ Hcall), consume_iterable. simpl.
  apply failures_of_elem in Hf.
  unfold classify, report, total. simpl.
  destruct (failures_of items) as [|f0 fs] eqn:Hfails; [by apply elem_of_nil in Hf|].
  simpl.
  replace (length (successes_of items) + length (fixes_of items) + S (length fs) =? 0)
    with false by (symmetry; apply Nat.eqb_neq; lia).
  rewrite andb_false_r. reflexivity.
Qed.

Lemma run_check_failed_witness :
  let items := [Obj (mkFailure cover "Invalid dimensions: (640, 480)");
                Obj (mkFix logo "Rescaled SVG"); Obj (mkSuccess cover)] in
  let check := yielding "Check the images." items None in
  __call__ check bare_world = (Returns (Iterable items None), bare_world)
  /\ _run_check check bare_world
     = ([LiveStart (Spinner "dots" "blue" [Lit "[blue]"; Esc "Check the images."; Lit "[/]"]);
         LiveUpdate (Text [Lit "[red][b]✘[/b] "; Esc "Check the images.";
                           Lit " [red bold]FAIL.[/]"]);
         LiveStop;
         ConsolePrint
           (Padding
              (Text [Lit "➔ "; Lit "[dim]"; Lit "_inc/logos-svg"; Lit "/[/dim][b]";
                     Lit "snes.svg"; Lit "[/b]"; Lit " (fixed): "; Esc "Rescaled SVG"])
              (0, 4));
         ConsolePrint
           (Padding
              (Text [Lit "➔ "; Lit "[dim]"; Lit "_inc/backgrounds"; Lit "/[/dim][b]";
                     Lit "snes.webp"; Lit "[/b]"; Lit ": ";
                     Esc "Invalid dimensions: (640, 480)"])
              (0, 4))],
        false, bare_world).
Proof.
  split; [reflexivity|].
  apply (run_check_failed
           (yielding "Check the images."
                     [Obj (mkFailure cover "Invalid dimensions: (640, 480)");
                      Obj (mkFix logo "Rescaled SVG"); Obj (mkSuccess cover)] None)
           bare_world bare_world
           [Obj (mkFailure cover "Invalid dimensions: (640, 480)");
            Obj (mkFix logo "Rescaled SVG"); Obj (mkSuccess cover)]).
  - reflexivity.
  - exists (mkFailure cover "Invalid dimensions: (640, 480)"). apply list_elem_of_here.
Defined.

(** ** The suite *)


Lemma count_true_cons b l : count_true (b :: l) = Nat.b2n b + count_true l.
Proof. unfold count_true. rewrite filter_cons. by destruct b. Qed.

Lemma count_true_le l : count_true l <= length l.
Proof. unfold count_true. apply length_filter. Qed.

Lemma count_true_all l :
  count_true l = length l <-> Forall (fun b => b = true) l.
Proof.
  induction l as [|b l IH].
  - split; [constructor|reflexivity].
  - rewrite count_true_cons, Forall_cons. simpl.
    pose proof (count_true_le l). destruct b; simpl.
    + rewrite <- IH. split; [intros; split; [done|lia]|intros [_ ?]; lia].
    + split; [lia|intros [? _]; done].
Qed.

Lemma run_checks_spec checks : forall n w,
  run_checks checks n w
  = (console_of checks w, n + count_true (returns checks w), world_past checks w).
Proof.
  induction checks as [|check rest IH]; intros n w; simpl.
  - by rewrite Nat.add_0_r.
  - destruct (_run_check check w) as [[ops ok] w1] eqn:Hrun. simpl.
    rewrite IH, count_true_cons. do 2 f_equal. lia.
Qed.

Lemma returns_length checks : forall w, length (returns checks w) = length checks.
Proof. induction checks as [|c rest IH]; intros w; simpl; [done|]. by rewrite IH. Qed.

Lemma console_of_app pre post : forall w,
  console_of (pre ++ post) w = console_of pre w ++ console_of post (world_past pre w).
Proof.
  induction pre as [|c pre IH]; intros w; simpl; [done|].
  by rewrite IH, app_assoc.
Qed.

Lemma returns_app pre post : forall w,
  returns (pre ++ post) w = returns pre w ++ returns post (world_past pre w).
Proof.
  induction pre as [|c pre IH]; intros w; simpl; [done|]. by rewrite IH.
Qed.

Lemma world_past_app pre post : forall w,
  world_past (pre ++ post) w = world_past post (world_past pre w).
Proof. induction pre as [|c pre IH]; intros w; simpl; [done|]. by rewrite IH. Qed.

Lemma run_check_starts_live check w :
  LiveStart (Spinner "dots" "blue" [Lit "[blue]"; Esc (__doc__ check); Lit "[/]"])
  ∈ (_run_check check w).1.1.
Proof.
  destruct (__call__ check w) as [inv w'] eqn:Hcall.
  rewrite (run_check_unfold _ _ _ _ Hcall). simpl. apply list_elem_of_here.
Qed.

Lemma console_of_starts_live checks : forall w check,
  check ∈ checks ->
  LiveStart (Spinner "dots" "blue" [Lit "[blue]"; Esc (__doc__ check); Lit "[/]"])
  ∈ console_of checks w.
Proof.
  induction checks as [|c rest IH]; intros w check Hin; [by apply elem_of_nil in Hin|].
  simpl. apply elem_of_app. apply elem_of_cons in Hin as [->|Hin].
  - left. apply run_check_starts_live.
  - right. by apply IH.
Qed.

Lemma verify_theme_quality_unfold checks w :
  verify_theme_quality checks w
  = (console_of checks w
       ++ [ConsolePrint
             (Text (final_result
                      (if bool_decide (Forall (fun b => b = true) (returns checks w))
                       then "[green bold]SUCCESS[/]" else "[red bold]FAILURE[/]")
                      (count_true (returns checks w)) (length checks)))],
     bool_decide (Forall (fun b => b = true) (returns checks w)),
     world_past checks w).
Proof.
  unfold verify_theme_quality. rewrite run_checks_spec. simpl.
  destruct (count_true (returns checks w) =? length checks) eqn:Hcount; simpl.
  - apply Nat.eqb_eq in Hcount. rewrite <- (returns_length checks w) in Hcount.
    apply count_true_all in Hcount. by rewrite bool_decide_eq_true_2.
  - apply Nat.eqb_neq in Hcount. rewrite <- (returns_length checks w) in Hcount.
    rewrite bool_decide_eq_false_2; [done|]. by rewrite <- count_true_all.
Qed.

(** C1: for every list of checks, [verify_theme_quality] returns [True]
    exactly when the runner returned [True] for every check; the last thing
    it prints is the line "Final result: SUCCESS (n out of m checks
    passed)." in that case and "Final result: FAILURE (n out of m checks
    passed)." otherwise, with its markup, [n] being the number of checks for
    which the runner returned [True] and [m] the number of checks; and the
    process exits with status 0 exactly when [verify_theme_quality] returned
    [True]. *)
Theorem verify_theme_quality_verdict checks w :
  let r := verify_theme_quality checks w in
  (r.1.2 = true <-> Forall (fun b => b = true) (returns checks w))
  /\ r.1.1
     = console_of checks w
         ++ [ConsolePrint
               (Text [Lit "[bold]Final result:[/] ";
                      Lit (if r.1.2 then "[green bold]SUCCESS[/]"
                           else "[red bold]FAILURE[/]");
                      Lit " (";
                      Lit (pretty (count_true (returns checks w)));
                      Lit " out of ";
                      Lit (pretty (length checks));
                      Lit " checks passed)."])]
  /\ ((main checks w).1.2 = 0 <-> r.1.2 = true).
Proof.
  unfold main. rewrite verify_theme_quality_unfold. simpl.
  split; [apply bool_decide_eq_true|]. split; [done|].
  destruct (bool_decide _); simpl; split; done.
Qed.

(** C3: whenever a check raises, in its call or after any number of results,
    the runner classifies it ERROR, prints the traceback and none of the
    results, and returns [False]; the checks after it in the suite are run
    all the same, and the suite ends with the FAILURE line. *)
Theorem fault_is_error_and_suite_goes_on pre check post w w' inv e :
  __call__ check (world_past pre w) = (inv, w') ->
  faults inv e ->
  _run_check check (world_past pre w)
  = (live_region check Error ++ [ConsolePrint (Padding (Traceback e) (0, 4))],
     false, w')
  /\ verify_theme_quality (pre ++ check :: post) w
     = (console_of pre w
          ++ (live_region check Error ++ [ConsolePrint (Padding (Traceback e) (0, 4))])
          ++ console_of post w'
          ++ [ConsolePrint
                (Text (final_result "[red bold]FAILURE[/]"
                         (count_true (returns pre w) + count_true (returns post w'))
                         (length (pre ++ check :: post))))],
        false, world_past post w')
  /\ Forall (fun c =>
               LiveStart (Spinner "dots" "blue" [Lit "[blue]"; Esc (__doc__ c); Lit "[/]"])
               ∈ console_of post w') post.
Proof.
  intros Hcall Hfault.
  pose proof (run_check_fault _ _ _ _ _ Hcall Hfault) as Hrun.
  split; [exact Hrun|]. split.
  - rewrite verify_theme_quality_unfold.
    rewrite console_of_app, returns_app, world_past_app. simpl. rewrite Hrun. simpl.
    rewrite bool_decide_eq_false_2.
    + unfold count_true. rewrite filter_app, length_app, filter_cons. simpl.
      rewrite <- !app_assoc. simpl. reflexivity.
    + intros Hall. apply Forall_app in Hall as [_ Hall].
      by apply Forall_cons_1 in Hall as [? _].
  - apply Forall_forall. intros c Hc. by apply console_of_starts_live.
Qed.

Lemma fault_is_error_and_suite_goes_on_witness :
  let boom := mkException "ZeroDivisionError" "float division by zero" in
  let first := yielding "Check the logos." [Obj (mkSuccess logo)] None in
  let second := yielding "Check the images." [Obj (mkSuccess cover)] (Some boom) in
  let third := yielding "Check the covers." [Obj (mkSuccess cover)] None in
  __call__ second (world_past [first] bare_world)
  = (Returns (Iterable [Obj (mkSuccess cover)] (Some boom)), bare_world)
  /\ faults (Returns (Iterable [Obj (mkSuccess cover)] (Some boom))) boom
  /\ _run_check second (world_past [first] bare_world)
     = (live_region second Error ++ [ConsolePrint (Padding (Traceback boom) (0, 4))],
        false, bare_world)
  /\ verify_theme_quality ([first] ++ second :: [third]) bare_world
     = (console_of [first] bare_world
          ++ (live_region second Error ++ [ConsolePrint (Padding (Traceback boom) (0, 4))])
          ++ console_of [third] bare_world
          ++ [ConsolePrint
                (Text (final_result "[red bold]FAILURE[/]"
                         (count_true (returns [first] bare_world)
                          + count_true (returns [third] bare_world))
                         (length ([first] ++ second :: [third]))))],
        false, world_past [third] bare_world)
  /\ Forall (fun c =>
               LiveStart (Spinner "dots" "blue" [Lit "[blue]"; Esc (__doc__ c); Lit "[/]"])
               ∈ console_of [third] bare_world) [third].
Proof.
  assert (Hfault : faults (Returns (Iterable [Obj (mkSuccess cover)]
            (Some (mkException "ZeroDivisionError" "float division by zero"))))
            (mkException "ZeroDivisionError" "float division by zero")).
  { right. eexists. reflexivity. }
  split; [reflexivity|]. split; [exact Hfault|].
  apply (fault_is_error_and_suite_goes_on
           [yielding "Check the logos." [Obj (mkSuccess logo)] None]
           (yielding "Check the images." [Obj (mkSuccess cover)]
                     (Some (mkException "ZeroDivisionError" "float division by zero")))
           [yielding "Check the covers." [Obj (mkSuccess cover)] None]
           bare_world bare_world _ _ eq_refl Hfault).
Defined.

(** ** Generator computations *)

Lemma bind_yielded {A B} (m : Gen A) (f : A -> Gen B) w :
  yielded ((m ≫= f) w)
  = yielded (m w)
      ++ match value (m w) with
         | inl _ => []
         | inr a => yielded (f a (world_after (m w)))
         end.
Proof.
  unfold mbind, Gen_bind. destruct (value (m w)); simpl; by rewrite ?app_nil_r.
Qed.

Lemma bind_value {A B} (m : Gen A) (f : A -> Gen B) w :
  value ((m ≫= f) w)
  = match value (m w) with
    | inl e => inl e
    | inr a => value (f a (world_after (m w)))
    end.
Proof. unfold mbind, Gen_bind. by destruct (value (m w)). Qed.

Lemma bind_world_after {A B} (m : Gen A) (f : A -> Gen B) w :
  world_after ((m ≫= f) w)
  = match value (m w) with
    | inl e => world_after (m w)
    | inr a => world_after (f a (world_after (m w)))
    end.
Proof. unfold mbind, Gen_bind. by destruct (value (m w)). Qed.


Lemma silent_ret {A} (a : A) : silent (mret a).
Proof. by intros w. Qed.

Lemma silent_raise {A} e : silent (@raise A e).
Proof. by intros w. Qed.

Lemma silent_call {A} (f : World -> Exception + A) : silent (call f).
Proof. by intros w. Qed.

Lemma silent_ask {A} (f : World -> A) : silent (ask f).
Proof. by intros w. Qed.

Lemma silent_stop_of {A} stop (a : A) : silent (stop_of stop a).
Proof. destruct stop; simpl; [apply silent_raise|apply silent_ret]. Qed.

Lemma silent_bind {A B} (m : Gen A) (f : A -> Gen B) :
  silent m -> (forall a, silent (f a)) -> silent (m ≫= f).
Proof.
  intros Hm Hf w. destruct (Hm w) as [Hy Hw].
  rewrite bind_yielded, bind_world_after, Hy, Hw.
  destruct (value (m w)) as [e|a]; [done|]. apply Hf.
Qed.

Lemma silent_fold_each {X S} (body : S -> X -> Gen S) l :
  (forall acc x, silent (body acc x)) -> forall acc, silent (fold_each l acc body).
Proof.
  intros Hbody. induction l as [|x l IH]; intros acc; simpl.
  - apply silent_ret.
  - apply silent_bind; [apply Hbody|]. intros a. apply IH.
Qed.

Lemma silent_fold_in {X S} (it : World -> Drained X) (body : S -> X -> Gen S) acc :
  (forall acc x, silent (body acc x)) -> silent (fold_in it acc body).
Proof.
  intros Hbody. unfold fold_in.
  apply silent_bind; [apply silent_ask|]. intros d.
  apply silent_bind; [by apply silent_fold_each|]. intros a. apply silent_stop_of.
Qed.

Lemma silent_then {A B} (m : Gen A) (f : A -> Gen B) w :
  silent m ->
  yielded ((m ≫= f) w)
  = match value (m w) with inl _ => [] | inr a => yielded (f a w) end.
Proof.
  intros Hm. destruct (Hm w) as [Hy Hw]. by rewrite bind_yielded, Hy, Hw.
Qed.

Lemma for_each_cons_yielded {X} (x : X) l body w :
  yielded (for_each (x :: l) body w)
  = yielded (body x w)
      ++ match value (body x w) with
         | inl _ => []
         | inr _ => yielded (for_each l body (world_after (body x w)))
         end.
Proof. simpl. by rewrite bind_yielded. Qed.

Lemma for_in_yielded {X} (it : World -> Drained X) body w :
  yielded (for_in it body w) = yielded (for_each (it w).1 body w).
Proof.
  unfold for_in. rewrite (silent_then _ _ _ (silent_ask it)). simpl.
  rewrite bind_yielded.
  destruct (value (for_each (it w).1 body w)); simpl; [by rewrite app_nil_r|].
  destruct (silent_stop_of (it w).2 tt (world_after (for_each (it w).1 body w))) as [-> _].
  by rewrite app_nil_r.
Qed.

Lemma call_then {A B} (f : World -> Exception + A) (k : A -> Gen B) w :
  yielded ((call f ≫= k) w)
  = match f w with inl _ => [] | inr a => yielded (k a w) end.
Proof. by rewrite (silent_then _ _ _ (silent_call f)). Qed.

Lemma ask_then {A B} (f : World -> A) (k : A -> Gen B) w :
  yielded ((ask f ≫= k) w) = yielded (k (f w) w).
Proof. by rewrite (silent_then _ _ _ (silent_ask f)). Qed.

(** ** [check_no_missing_collections] *)

Lemma silent_add_collection acc filepath : silent (add_collection acc filepath).
Proof.
  unfold add_collection. apply silent_bind; [apply silent_call|]. intros tree.
  destruct (find "variables" tree) as [variables|]; [|apply silent_raise].
  destruct (find "systemHardwareType" variables) as [hardware|]; [|apply silent_raise].
  destruct (text hardware) as [t|]; [|apply silent_ret].
  case_bool_decide; apply silent_ret.
Qed.

Lemma match_system_listed (listed : gset string) system w :
  stem system ∈ listed ->
  match_system listed system w
  = mkGenState [ResSuccess (mkSuccess system)] w (inr (listed ∖ {[stem system]})).
Proof. intros Hin. unfold match_system. by rewrite decide_True. Qed.

Lemma match_system_unlisted (listed : gset string) system w :
  stem system ∉ listed ->
  match_system listed system w
  = mkGenState [ResFailure (mkFailure system "Collection not referenced")] w (inr listed).
Proof. intros Hin. unfold match_system. by rewrite decide_False. Qed.


Lemma match_system_fold systems : forall (listed : gset string) w,
  NoDup (stem <$> systems) ->
  yielded (fold_each systems listed match_system w) = system_result listed <$> systems
  /\ value (fold_each systems listed match_system w)
     = inr (listed ∖ list_to_set (stem <$> systems))
  /\ world_after (fold_each systems listed match_system w) = w.
Proof.
  induction systems as [|s systems IH]; intros listed w Hnodup.
  - simpl. repeat split. f_equal. set_solver.
  - rewrite fmap_cons in Hnodup. apply NoDup_cons in Hnodup as [Hs Hnodup].
    assert (Hrest : forall listed',
              (forall x, x ≠ stem s -> x ∈ listed' <-> x ∈ listed) ->
              system_result listed' <$> systems = system_result listed <$> systems).
    { intros listed' Hsame. apply list_fmap_ext. intros i s' Hs'.
      unfold system_result.
      assert (stem s' ≠ stem s).
      { intros Heq. apply Hs. rewrite <- Heq. apply list_elem_of_fmap.
        exists s'. split; [done|]. by eapply list_elem_of_lookup_2. }
      destruct (decide (stem s' ∈ listed')) as [Hin|Hin],
               (decide (stem s' ∈ listed)) as [Hin'|Hin']; try done.
      - by apply Hsame in Hin.
      - by apply Hsame in Hin'. }
    change (fold_each (s :: systems) listed match_system)
      with (match_system listed s ≫= fun acc => fold_each systems acc match_system).
    rewrite bind_yielded, bind_value, bind_world_after.
    destruct (decide (stem s ∈ listed)) as [Hin|Hin].
    + rewrite (match_system_listed _ _ _ Hin). simpl.
      destruct (IH (listed ∖ {[stem s]}) w Hnodup) as (Hy & Hv & Hw).
      rewrite Hy, Hv, Hw. unfold system_result at 2. rewrite decide_True by done.
      repeat split.
      * f_equal. apply Hrest. set_solver.
      * f_equal. set_solver.
    + rewrite (match_system_unlisted _ _ _ Hin). simpl.
      destruct (IH listed w Hnodup) as (Hy & Hv & Hw).
      rewrite Hy, Hv, Hw. unfold system_result at 2. rewrite decide_False by done.
      repeat split. f_equal. set_solver.
Qed.

(** C8 (as amended): when the first loop of [check_no_missing_collections]
    or the reading of the collections file raises, the check has emitted
    nothing. Otherwise it emits one result for each collection system, in
    their order: a [Success] when the collections file lists its stem, a
    [Failure] "Collection not referenced" when it does not; after them it
    emits, when the collections file lists entries that no system matches,
    one single [Failure] for the collections file, whose reason names all
    those entries. The stems of the collection systems are taken to differ
    from each other, and the lines of the collections file to be in
    ASCII. *)
Theorem check_no_missing_collections_results w :
  (forall systems, system_collections w = inr systems -> NoDup (stem <$> systems)) ->
  (forall lines,
     text_lines w collections_file = inr lines -> forallb ascii_text lines = true) ->
  yielded (check_no_missing_collections_body w)
  = match system_collections w, text_lines w collections_file with
    | inr systems, inr lines =>
        let listed := read_collections lines in
        let extra := listed ∖ list_to_set (stem <$> systems) in
        ((fun system =>
            if decide (stem system ∈ listed) then ResSuccess (mkSuccess system)
            else ResFailure (mkFailure system "Collection not referenced")) <$> systems)
          ++ (if decide (extra = ∅) then []
              else [ResFailure
                      (mkFailure collections_file
                         ("Collections file has extra entries: "
                          +:+ Py.join ", " (set_iter w extra)))])
    | _, _ => []
    end.
Proof.
  intros Hnodup _.
  unfold check_no_missing_collections_body, system_collections in *.
  rewrite silent_then by (apply silent_fold_in, silent_add_collection).
  destruct (value (fold_in (_iter_files "metadata") [] add_collection w))
    as [e|systems] eqn:Hsys; [done|].
  rewrite call_then.
  destruct (text_lines w collections_file) as [e|lines]; [done|].
  rewrite bind_yielded.
  destruct (match_system_fold systems (read_collections lines) w (Hnodup systems eq_refl))
    as (Hy & Hv & Hw).
  rewrite Hy, Hv, Hw. cbv zeta. f_equal.
  destruct (decide (read_collections lines ∖ list_to_set (stem <$> systems) = ∅));
    reflexivity.
Qed.

(** ** Results and subjects *)

Lemma results_on_app p l1 l2 :
  results_on p (l1 ++ l2) = results_on p l1 ++ results_on p l2.
Proof. unfold results_on. apply filter_app. Qed.

Lemma results_on_none p l :
  (forall r, r ∈ l -> subject r ≠ p) -> results_on p l = [].
Proof.
  intros H. apply elem_of_nil_inv. intros r Hr.
  apply list_elem_of_filter in Hr as [Hs Hr]. by apply (H r Hr).
Qed.

Lemma results_on_all p l :
  Forall (fun r => subject r = p) l -> results_on p l = l.
Proof.
  induction 1 as [|r l Hr Hl IH]; [done|].
  unfold results_on. rewrite filter_cons, decide_True by done.
  fold (results_on p l). by rewrite IH.
Qed.

Lemma results_on_length p l : length (results_on p l) <= length l.
Proof. apply length_filter. Qed.

Lemma silent_steady {A} (m : Gen A) : silent m -> steady m.
Proof. intros H w. apply H. Qed.

Lemma steady_ret {A} (a : A) : steady (mret a).
Proof. by intros w. Qed.

Lemma steady_yield r : steady (yield_ r).
Proof. by intros w. Qed.

Lemma steady_bind {A B} (m : Gen A) (f : A -> Gen B) :
  steady m -> (forall a, steady (f a)) -> steady (m ≫= f).
Proof.
  intros Hm Hf w. rewrite bind_world_after, Hm.
  destruct (value (m w)); [done|]. apply Hf.
Qed.

Lemma steady_fold_each {X S} (body : S -> X -> Gen S) l :
  (forall acc x, steady (body acc x)) -> forall acc, steady (fold_each l acc body).
Proof.
  intros Hbody. induction l as [|x l IH]; intros acc; simpl.
  - apply steady_ret.
  - apply steady_bind; [apply Hbody|]. intros a. apply IH.
Qed.

Lemma steady_for_each {X} (body : X -> Gen unit) l :
  (forall x, steady (body x)) -> steady (for_each l body).
Proof.
  intros Hbody. induction l as [|x l IH]; simpl.
  - apply steady_ret.
  - apply steady_bind; [apply Hbody|]. intros _. apply IH.
Qed.

Lemma steady_for_in {X} (it : World -> Drained X) (body : X -> Gen unit) :
  (forall x, steady (body x)) -> steady (for_in it body).
Proof.
  intros Hbody. unfold for_in.
  apply steady_bind; [apply silent_steady, silent_ask|]. intros d.
  apply steady_bind; [by apply steady_for_each|]. intros _.
  apply silent_steady, silent_stop_of.
Qed.

Lemma steady_fold_in {X S} (it : World -> Drained X) (body : S -> X -> Gen S) acc :
  (forall acc x, steady (body acc x)) -> steady (fold_in it acc body).
Proof.
  intros Hbody. unfold fold_in.
  apply steady_bind; [apply silent_steady, silent_ask|]. intros d.
  apply steady_bind; [by apply steady_fold_each|]. intros a.
  apply silent_steady, silent_stop_of.
Qed.

Lemma fold_each_cons_yielded {X S} (x : X) l (acc : S) body w :
  yielded (fold_each (x :: l) acc body w)
  = yielded (body acc x w)
      ++ match value (body acc x w) with
         | inl _ => []
         | inr acc' => yielded (fold_each l acc' body (world_after (body acc x w)))
         end.
Proof. simpl. by rewrite bind_yielded. Qed.

Lemma fold_in_yielded {X S} (it : World -> Drained X) (acc : S) body w :
  yielded (fold_in it acc body w) = yielded (fold_each (it w).1 acc body w).
Proof.
  unfold fold_in. rewrite ask_then, bind_yielded.
  destruct (value (fold_each (it w).1 acc body w)) as [e|a]; simpl; [by rewrite app_nil_r|].
  destruct (silent_stop_of (it w).2 a (world_after (fold_each (it w).1 acc body w)))
    as [-> _].
  by rewrite app_nil_r.
Qed.

(** The results about [p] of a loop whose body, at the item [x], yields
    results of the group [key x] only: over items of different groups, they
    are the results about [p] of one turn of the loop, or none. So what
    holds of the results about [p] of every turn, and of no result, holds of
    those of the loop. [Inv] is what the worlds of the loop have in common. *)
Section loops.
Context {X S K : Type} `{EqDecision K} (Inv : World -> Prop) (group : Path -> K) (key : X -> K).
Context (Ok : list Result -> Prop) (p : Path).
Context (body : S -> X -> Gen S).
Hypothesis Ok_nil : Ok [].
Hypothesis body_inv : forall acc x w, Inv w -> Inv (world_after (body acc x w)).
Hypothesis body_group : forall acc x w r,
  Inv w -> r ∈ yielded (body acc x w) -> group (subject r) = key x.
Hypothesis body_ok : forall acc x w, Inv w -> Ok (results_on p (yielded (body acc x w))).

Lemma fold_each_groups l : forall acc w r,
  Inv w -> r ∈ yielded (fold_each l acc body w) -> group (subject r) ∈ key <$> l.
Proof.
  induction l as [|x l IH]; intros acc w r Hw Hr.
  - by apply elem_of_nil in Hr.
  - rewrite fold_each_cons_yielded in Hr. rewrite fmap_cons.
    apply elem_of_app in Hr as [Hr|Hr].
    + rewrite (body_group _ _ _ _ Hw Hr). apply list_elem_of_here.
    + apply list_elem_of_further.
      destruct (value (body acc x w)) as [e|acc']; [by apply elem_of_nil in Hr|].
      eapply IH; [|exact Hr]. by apply body_inv.
Qed.

Lemma fold_each_on l :
  NoDup (key <$> l) ->
  forall acc w, Inv w -> Ok (results_on p (yielded (fold_each l acc body w))).
Proof.
  induction l as [|x l IH]; intros Hnodup acc w Hw.
  - exact Ok_nil.
  - rewrite fmap_cons in Hnodup. apply NoDup_cons in Hnodup as [Hx Hnodup].
    rewrite fold_each_cons_yielded, results_on_app.
    destruct (decide (group p = key x)) as [Hp|Hp].
    + rewrite (results_on_none p (match value (body acc x w) with
                                  | inl _ => [] | inr _ => _ end)).
      * rewrite app_nil_r. by apply body_ok.
      * intros r Hr Heq. apply Hx. rewrite <- Hp, <- Heq.
        destruct (value (body acc x w)) as [e|acc']; [by apply elem_of_nil in Hr|].
        eapply fold_each_groups; [|exact Hr]. by apply body_inv.
    + rewrite (results_on_none p (yielded (body acc x w))).
      * simpl. destruct (value (body acc x w)); [exact Ok_nil|].
        apply IH; [done|]. by apply body_inv.
      * intros r Hr Heq. apply Hp. rewrite <- Heq. by eapply body_group.
Qed.
End loops.

Lemma for_each_fold {X} (body : X -> Gen unit) l : forall w,
  for_each l body w = fold_each l tt (fun _ => body) w.
Proof.
  induction l as [|x l IH]; intros w; [done|]. simpl.
  unfold mbind, Gen_bind. destruct (value (body x w)) as [e|[]]; [done|].
  by rewrite IH.
Qed.

Lemma write_then {B} p data (k : unit -> Gen B) w :
  yielded ((write p data ≫= k) w)
  = match write_error w p data with
    | None => yielded (k tt (write_file p data w))
    | Some _ => []
    end.
Proof.
  rewrite bind_yielded. unfold write.
  by destruct (write_error w p data) as [[e c]|].
Qed.

Lemma for_each_groups {X K} `{EqDecision K} (Inv : World -> Prop)
      (group : Path -> K) (key : X -> K) (body : X -> Gen unit) l :
  (forall x w, Inv w -> Inv (world_after (body x w))) ->
  (forall x w r, Inv w -> r ∈ yielded (body x w) -> group (subject r) = key x) ->
  forall w r, Inv w -> r ∈ yielded (for_each l body w) -> group (subject r) ∈ key <$> l.
Proof.
  intros Hinv Hgroup w r Hw. rewrite for_each_fold.
  apply (fold_each_groups Inv group key (fun _ : unit => body)); auto.
Qed.

Lemma for_each_on {X K} `{EqDecision K} (Inv : World -> Prop)
      (group : Path -> K) (key : X -> K) (Ok : list Result -> Prop) p
      (body : X -> Gen unit) l :
  Ok [] ->
  (forall x w, Inv w -> Inv (world_after (body x w))) ->
  (forall x w r, Inv w -> r ∈ yielded (body x w) -> group (subject r) = key x) ->
  (forall x w, Inv w -> Ok (results_on p (yielded (body x w)))) ->
  NoDup (key <$> l) ->
  forall w, Inv w -> Ok (results_on p (yielded (for_each l body w))).
Proof.
  intros Hnil Hinv Hgroup Hok Hnodup w Hw. rewrite for_each_fold.
  apply (fold_each_on Inv group key Ok p (fun _ : unit => body)); auto.
Qed.

Lemma iter_nodes_elem w folder nodes p :
  p ∈ (iter_nodes w folder nodes).1 ->
  exists node, node ∈ nodes /\ p = inc folder (node_name node).
Proof.
  induction nodes as [|node nodes IH]; simpl; [by intros ?%elem_of_nil|].
  destruct (is_file node); simpl; [|by intros ?%elem_of_nil].
  destruct (Py.startswith (node_name node) "_"); simpl.
  - intros (n & Hn & ->)%IH. exists n. split; [by apply list_elem_of_further|done].
  - intros [->|Hp]%elem_of_cons.
    + exists node. split; [apply list_elem_of_here|done].
    + destruct (IH Hp) as (n & Hn & ->).
      exists n. split; [by apply list_elem_of_further|done].
Qed.

Lemma iter_nodes_NoDup w folder nodes :
  NoDup (node_name <$> nodes) -> NoDup (iter_nodes w folder nodes).1.
Proof.
  induction nodes as [|node nodes IH]; simpl; [constructor|].
  rewrite NoDup_cons. intros [Hnode Hnodup].
  destruct (is_file node); simpl; [|constructor].
  destruct (Py.startswith (node_name node) "_"); simpl; [by apply IH|].
  apply NoDup_cons. split; [|by apply IH].
  intros (n & Hn & Heq)%iter_nodes_elem. apply Hnode.
  injection Heq as ->. apply list_elem_of_fmap. by exists n.
Qed.

Lemma iter_files_NoDup w folder :
  listings_ok w -> NoDup (_iter_files folder w).1.
Proof.
  intros [Hdirs _]. unfold _iter_files.
  destruct (iterdir w folder) as [nodes|] eqn:Hdir; simpl; [|constructor].
  apply iter_nodes_NoDup. by eapply Hdirs.
Qed.

Lemma iter_files_parents w folder p :
  p ∈ (_iter_files folder w).1 -> parents p = ["_inc"; folder].
Proof.
  unfold _iter_files. destruct (iterdir w folder) as [nodes|]; simpl.
  - by intros (node & _ & ->)%iter_nodes_elem.
  - by intros ?%elem_of_nil.
Qed.


Lemma failures_then_one_subject p l r :
  failures_then_one p l -> r ∈ l -> subject r = p.
Proof.
  intros (fs & tl & -> & Hfs & _ & Htl) [Hr|Hr]%elem_of_app.
  - rewrite Forall_forall in Hfs. by apply Hfs.
  - rewrite Forall_forall in Htl. by apply Htl.
Qed.

Lemma failures_then_one_nil p : failures_then_one p [].
Proof. exists [], []. repeat split; [constructor|simpl; lia|constructor]. Qed.

Lemma failures_then_one_single p r : subject r = p -> failures_then_one p [r].
Proof.
  intros Hr. exists [], [r]. repeat split; [constructor|simpl; lia|by repeat constructor].
Qed.

Lemma failures_then_one_about p l :
  failures_then_one p l -> Forall (fun r => subject r = p) l.
Proof.
  intros (fs & tl & -> & Hfs & _ & Htl). apply Forall_app. split; [|done].
  eapply Forall_impl; [exact Hfs|]. by intros r [? _].
Qed.

Lemma failures_then_one_on p q l :
  failures_then_one q l -> failures_then_one p (results_on p l).
Proof.
  intros Hl. destruct (decide (p = q)) as [->|Hne].
  - by rewrite results_on_all by by apply failures_then_one_about.
  - rewrite results_on_none; [apply failures_then_one_nil|].
    intros r Hr Heq. apply Hne. rewrite <- Heq.
    by eapply failures_then_one_subject.
Qed.

Lemma single_nil f : single f [].
Proof. split; [simpl; lia|constructor]. Qed.

Lemma single_one f r : subject r = f -> single f [r].
Proof. intros Hr. split; [simpl; lia|by repeat constructor]. Qed.

Lemma single_on p f l : single f l -> length (results_on p l) <= 1.
Proof. intros [Hlen _]. pose proof (results_on_length p l). lia. Qed.

Lemma for_each_Forall {X} (P : Result -> Prop) (body : X -> Gen unit) l :
  (forall x w, Forall P (yielded (body x w))) ->
  forall w, Forall P (yielded (for_each l body w)).
Proof.
  intros Hbody. induction l as [|x l IH]; intros w; [constructor|].
  rewrite for_each_cons_yielded. apply Forall_app. split; [apply Hbody|].
  destruct (value (body x w)); [constructor|apply IH].
Qed.

Lemma fold_each_Forall {X S} (P : Result -> Prop) (body : S -> X -> Gen S) l :
  (forall acc x w, Forall P (yielded (body acc x w))) ->
  forall acc w, Forall P (yielded (fold_each l acc body w)).
Proof.
  intros Hbody. induction l as [|x l IH]; intros acc w; [constructor|].
  change (fold_each (x :: l) acc body)
    with (body acc x ≫= fun acc' => fold_each l acc' body).
  rewrite bind_yielded. apply Forall_app. split; [apply Hbody|].
  destruct (value (body acc x w)); [constructor|apply IH].
Qed.

(** *** [check_svg_formatting] *)

Lemma check_svg_file_single filepath w :
  single filepath (yielded (check_svg_file filepath w)).
Proof.
  unfold check_svg_file. rewrite call_then.
  destruct (content w filepath) as [e|svg_content]; [apply single_nil|].
  rewrite ask_then.
  destruct (fromstring w svg_content) as [e|tree]; [by apply single_one|].
  rewrite call_then.
  destruct (svg_formatted w tree) as [e|formatted]; [apply single_nil|].
  destruct (decide (formatted = svg_content)); [by apply single_one|].
  rewrite write_then. destruct (write_error w filepath formatted); [apply single_nil|].
  by apply single_one.
Qed.

(** *** [check_metadata_is_complete] *)

Lemma check_tag_results filepath variables t w :
  Forall (fun r => subject r = filepath /\ is_failure r = true)
         (yielded (check_tag filepath variables t w)).
Proof.
  unfold check_tag. destruct (find t variables) as [data|]; [|by repeat constructor].
  destruct (blank_text data); by repeat constructor.
Qed.

Lemma check_metadata_file_results filepath w :
  failures_then_one filepath (yielded (check_metadata_file filepath w)).
Proof.
  unfold check_metadata_file. rewrite call_then.
  destruct (etree_parse w filepath) as [e|tree]; [apply failures_then_one_nil|].
  destruct (find "variables" tree) as [variables|]; [|by apply failures_then_one_single].
  rewrite bind_yielded.
  exists (yielded (for_each tags (check_tag filepath variables) w)). eexists.
  split; [reflexivity|]. split.
  - apply for_each_Forall. intros t w'. apply check_tag_results.
  - destruct (value _); simpl; split; try lia; by repeat constructor.
Qed.

(** *** [check_all_variables_fully_translated] *)

Lemma remove_tag_results lang lang_tags t w :
  Forall (fun r => subject r = theme_lang /\ is_failure r = true)
         (yielded (remove_tag lang lang_tags t w)).
Proof. unfold remove_tag. destruct (decide _); by repeat constructor. Qed.

Lemma check_language_results required_tags var w :
  Forall (fun r => subject r = theme_lang /\ is_failure r = true)
         (yielded (check_language required_tags var w)).
Proof.
  unfold check_language. destruct (get "lang" var) as [l|]; [|constructor].
  rewrite ask_then.
  rewrite bind_yielded. apply Forall_app. split.
  - apply fold_each_Forall. intros; apply remove_tag_results.
  - destruct (value _) as [e|lang_tags]; [constructor|].
    destruct (decide (lang_tags = ∅)); [constructor|].
    rewrite ask_then. by repeat constructor.
Qed.

Lemma check_all_variables_fully_translated_results w :
  failures_then_one theme_lang (yielded (check_all_variables_fully_translated_body w)).
Proof.
  unfold check_all_variables_fully_translated_body.
  rewrite call_then.
  destruct (etree_parse w theme_lang) as [e|tree]; [apply failures_then_one_nil|].
  destruct (find "variables" tree) as [variables|]; [|apply failures_then_one_nil].
  rewrite bind_yielded.
  eexists. eexists. split; [reflexivity|]. split.
  - apply for_each_Forall. intros var w'. apply check_language_results.
  - destruct (value _); simpl; split; try lia; by repeat constructor.
Qed.

(** *** [check_no_missing_collections] *)

Lemma match_system_subjects systems : forall (listed : gset string) w,
  subject <$> yielded (fold_each systems listed match_system w) = systems.
Proof.
  induction systems as [|s systems IH]; intros listed w; [done|].
  change (fold_each (s :: systems) listed match_system)
    with (match_system listed s ≫= fun acc => fold_each systems acc match_system).
  rewrite bind_yielded.
  destruct (decide (stem s ∈ listed)) as [Hin|Hin].
  - rewrite (match_system_listed _ _ _ Hin). simpl. by rewrite IH.
  - rewrite (match_system_unlisted _ _ _ Hin). simpl. by rewrite IH.
Qed.

Lemma add_collection_value acc filepath w r :
  value (add_collection acc filepath w) = inr r -> r = acc \/ r = acc ++ [filepath].
Proof.
  unfold add_collection. rewrite bind_value. unfold call at 1. simpl.
  destruct (etree_parse w filepath) as [e|tree]; [done|].
  destruct (find "variables" tree) as [variables|]; [|done].
  destruct (find "systemHardwareType" variables) as [hardware|]; [|done].
  destruct (text hardware) as [t|]; [|intros [= <-]; by left].
  case_bool_decide; intros [= <-]; [by right|by left].
Qed.

Lemma fold_add_collection_sublist l : forall acc w r,
  value (fold_each l acc add_collection w) = inr r ->
  exists l', r = acc ++ l' /\ l' `sublist_of` l.
Proof.
  induction l as [|x l IH]; intros acc w r.
  - intros [= <-]. exists []. by rewrite app_nil_r.
  - change (fold_each (x :: l) acc add_collection)
      with (add_collection acc x ≫= fun acc' => fold_each l acc' add_collection).
    rewrite bind_value.
    destruct (value (add_collection acc x w)) as [e|acc'] eqn:Hadd; [done|].
    intros (l' & -> & Hsub)%IH.
    apply add_collection_value in Hadd as [->| ->].
    + exists l'. split; [done|]. by apply sublist_cons.
    + exists (x :: l'). split; [by rewrite <- app_assoc|]. by apply sublist_skip.
Qed.

Lemma system_collections_NoDup w systems :
  listings_ok w -> system_collections w = inr systems -> NoDup systems.
Proof.
  intros Hok. unfold system_collections, fold_in.
  rewrite bind_value. unfold ask at 1. simpl. rewrite bind_value.
  destruct (value (fold_each _ _ _ w)) as [e|acc] eqn:Hfold; [done|].
  apply fold_add_collection_sublist in Hfold as (l' & -> & Hsub).
  destruct ((_iter_files "metadata" w).2) as [e|]; simpl; [done|].
  intros [= <-]. simpl. eapply sublist_NoDup; [|exact Hsub].
  by apply iter_files_NoDup.
Qed.

Lemma system_collections_listed w systems :
  system_collections w = inr systems -> systems ⊆ (_iter_files "metadata" w).1.
Proof.
  unfold system_collections, fold_in.
  rewrite bind_value. unfold ask at 1. simpl. rewrite bind_value.
  destruct (value (fold_each _ _ _ w)) as [e|acc] eqn:Hfold; [done|].
  apply fold_add_collection_sublist in Hfold as (l' & -> & Hsub).
  destruct ((_iter_files "metadata" w).2) as [e|]; simpl; [done|].
  intros [= <-]. simpl. by apply sublist_subseteq.
Qed.

Lemma NoDup_results_on p l :
  NoDup (subject <$> l) -> length (results_on p l) <= 1.
Proof.
  induction l as [|r l IH]; [simpl; lia|].
  rewrite fmap_cons, NoDup_cons. intros [Hr Hnodup].
  unfold results_on. rewrite filter_cons.
  destruct (decide (subject r = p)) as [Hs|_]; [|by apply IH].
  fold (results_on p l). rewrite (results_on_none p l); [simpl; lia|].
  intros r' Hr' Heq. apply Hr. rewrite Hs, <- Heq.
  apply list_elem_of_fmap. by exists r'.
Qed.

Lemma check_no_missing_collections_yielded w :
  yielded (check_no_missing_collections_body w)
  = match system_collections w with
    | inl _ => []
    | inr systems =>
        match text_lines w collections_file with
        | inl _ => []
        | inr lines =>
            let run := fold_each systems (read_collections lines) match_system w in
            yielded run
              ++ match value run with
                 | inl _ => []
                 | inr rest =>
                     if decide (rest = ∅) then []
                     else [ResFailure
                             (mkFailure collections_file
                                ("Collections file has extra entries: "
                                 +:+ Py.join ", " (set_iter (world_after run) rest)))]
                 end
        end
    end.
Proof.
  unfold check_no_missing_collections_body, system_collections.
  rewrite silent_then by (apply silent_fold_in, silent_add_collection).
  destruct (value (fold_in _ _ _ w)) as [e|systems]; [done|].
  rewrite call_then.
  destruct (text_lines w collections_file) as [e|lines]; [done|].
  rewrite bind_yielded. simpl. f_equal.
  destruct (value _) as [e|rest]; [done|].
  destruct (decide (rest = ∅)); [done|]. by rewrite ask_then.
Qed.

Lemma check_no_missing_collections_once w p :
  listings_ok w ->
  length (results_on p (yielded (check_no_missing_collections_body w))) <= 1.
Proof.
  intros Hok. rewrite check_no_missing_collections_yielded.
  destruct (system_collections w) as [e|systems] eqn:Hsys; [simpl; lia|].
  destruct (text_lines w collections_file) as [e|lines]; [simpl; lia|].
  cbv zeta. rewrite results_on_app, length_app.
  set (run := fold_each systems (read_collections lines) match_system w).
  set (last := match value run with inl _ => [] | inr _ => _ end).
  assert (Hlast : length last <= 1 /\ Forall (fun r => subject r = collections_file) last).
  { unfold last. destruct (value run) as [e|rest]; [split; [simpl; lia|constructor]|].
    destruct (decide (rest = ∅)); [split; [simpl; lia|constructor]|].
    split; [simpl; lia|by repeat constructor]. }
  destruct Hlast as [Hlen Hlast].
  destruct (decide (p = collections_file)) as [->|Hne].
  - rewrite (results_on_none collections_file (yielded run)).
    + pose proof (results_on_length collections_file last). simpl. lia.
    + intros r Hr Heq.
      assert (subject r ∈ systems) as Hin.
      { unfold run in Hr. rewrite <- (match_system_subjects systems (read_collections lines) w).
        apply list_elem_of_fmap. by exists r. }
      apply (system_collections_listed _ _ Hsys), iter_files_parents in Hin.
      by rewrite Heq in Hin.
  - rewrite (results_on_none p last).
    + pose proof (NoDup_results_on p (yielded run)) as H. unfold run in H.
      rewrite match_system_subjects in H.
      specialize (H (system_collections_NoDup _ _ Hok Hsys)). fold run in H. simpl. lia.
    + intros r Hr Heq. apply Hne. rewrite <- Heq.
      rewrite Forall_forall in Hlast. by apply Hlast.
Qed.

(** ** The checks, file by file *)

(** A loop over files whose body yields, for each file, results about
    that file only. *)
Lemma files_loop_subjects (it : World -> Drained Path) (body : Path -> Gen unit) w r :
  (forall f w', Forall (fun r => subject r = f) (yielded (body f w'))) ->
  r ∈ yielded (for_in it body w) -> subject r ∈ (it w).1.
Proof.
  intros Hbody. rewrite for_in_yielded. intros Hr.
  rewrite <- (list_fmap_id (it w).1).
  apply (for_each_groups (fun _ => True) id id body _) with (w := w); auto.
  intros x w' r' _ Hr'. specialize (Hbody x w'). rewrite Forall_forall in Hbody.
  by apply Hbody.
Qed.

Lemma files_loop_on (Ok : list Result -> Prop) p (it : World -> Drained Path)
      (body : Path -> Gen unit) w :
  Ok [] ->
  (forall f w', Forall (fun r => subject r = f) (yielded (body f w'))) ->
  (forall f w', Ok (results_on p (yielded (body f w')))) ->
  NoDup (it w).1 ->
  Ok (results_on p (yielded (for_in it body w))).
Proof.
  intros Hnil Hbody Hok Hnodup. rewrite for_in_yielded.
  apply (for_each_on (fun _ => True) id id Ok p body); auto.
  - intros x w' r' _ Hr'. specialize (Hbody x w'). rewrite Forall_forall in Hbody.
    by apply Hbody.
  - by rewrite list_fmap_id.
Qed.

Lemma files_fold_on {S} (Ok : list Result -> Prop) p (it : World -> Drained Path)
      (acc : S) (body : S -> Path -> Gen S) w :
  Ok [] ->
  (forall a f w', Forall (fun r => subject r = f) (yielded (body a f w'))) ->
  (forall a f w', Ok (results_on p (yielded (body a f w')))) ->
  NoDup (it w).1 ->
  Ok (results_on p (yielded (fold_in it acc body w))).
Proof.
  intros Hnil Hbody Hok Hnodup. rewrite fold_in_yielded.
  apply (fold_each_on (fun _ => True) id id Ok p body); auto.
  - intros a x w' r' _ Hr'. specialize (Hbody a x w'). rewrite Forall_forall in Hbody.
    by apply Hbody.
  - by rewrite list_fmap_id.
Qed.

(** A loop over folders, with a loop over the files of the folder in it. *)
Lemma folders_loop_on {X} (Ok : list Result -> Prop) p (folders : list X)
      (folder_of : X -> string) (inner : X -> Path -> Gen unit) w :
  Ok [] ->
  listings_ok w ->
  NoDup (folder_of <$> folders) ->
  (forall x f, steady (inner x f)) ->
  (forall x f w', Forall (fun r => subject r = f) (yielded (inner x f w'))) ->
  (forall x f w', Ok (results_on p (yielded (inner x f w')))) ->
  Ok (results_on p
        (yielded (for_each folders
                    (fun x => for_in (_iter_files (folder_of x)) (inner x)) w))).
Proof.
  intros Hnil Hok Hnodup Hsteady Hinner Hone.
  apply (for_each_on (fun w' => w' = w) parents
                     (fun x => ["_inc"; folder_of x]) Ok p); [done| | | | |done].
  - intros x w' ->. by apply steady_for_in.
  - intros x w' r -> Hr. apply iter_files_parents with (w := w).
    by eapply files_loop_subjects.
  - intros x w' ->. apply files_loop_on; [done|done|done|]. by apply iter_files_NoDup.
  - rewrite (list_fmap_compose folder_of (fun d => ["_inc"; d])).
    apply NoDup_fmap_2; [|done]. by intros d1 d2 [= ->].
Qed.

Ltac single_result :=
  repeat first
    [ apply single_nil
    | (apply single_one; reflexivity)
    | rewrite call_then
    | rewrite ask_then
    | rewrite write_then
    | case_decide
    | case_match ].

Ltac steady_gen :=
  repeat first
    [ progress intros
    | apply steady_ret
    | apply steady_yield
    | apply steady_bind
    | apply silent_steady, silent_call
    | apply silent_steady, silent_ask
    | apply silent_steady, silent_raise
    | case_decide
    | case_match ].

Lemma check_vector_file_single filepath w :
  single filepath (yielded (check_vector_file filepath w)).
Proof. unfold check_vector_file. single_result. Qed.

Lemma check_xml_file_single filepath w :
  single filepath (yielded (check_xml_file filepath w)).
Proof. unfold check_xml_file. single_result. Qed.

Lemma check_raster_file_single f w :
  single f (yielded (check_raster_file f w)).
Proof. unfold check_raster_file. single_result. Qed.

Lemma check_raster_file_steady f : steady (check_raster_file f).
Proof. unfold check_raster_file. steady_gen. Qed.

Lemma check_system_single backgrounds controllers logos system w :
  single system (yielded (check_system backgrounds controllers logos system w)).
Proof. unfold check_system. single_result. Qed.

Lemma check_image_single systems f w :
  single f (yielded (check_image systems f w)).
Proof. unfold check_image. single_result. Qed.

Lemma check_image_steady systems f : steady (check_image systems f).
Proof. unfold check_image. steady_gen. Qed.

Lemma check_extension_single ext file w :
  single file (yielded (check_extension ext file w)).
Proof. unfold check_extension. single_result. Qed.

Lemma check_extension_steady ext file : steady (check_extension ext file).
Proof. unfold check_extension. steady_gen. Qed.

Lemma check_background_single hash_dict filepath w :
  single filepath (yielded (check_background hash_dict filepath w)).
Proof. unfold check_background. single_result. Qed.

Lemma check_overlay_single overlay_file w :
  single overlay_file (yielded (check_overlay overlay_file w)).
Proof. unfold check_overlay. single_result. Qed.

Lemma silent_stems folder_type : silent (stems folder_type).
Proof.
  unfold stems. apply silent_fold_in. intros acc file. apply silent_ret.
Qed.

Lemma remove_language_results filepath expected_langs var w :
  Forall (fun r => subject r = filepath /\ is_failure r = true)
         (yielded (remove_language filepath expected_langs var w)).
Proof.
  unfold remove_language. destruct (get "lang" var) as [l|]; [|constructor].
  destruct (decide _); by repeat constructor.
Qed.

Lemma check_translations_results required_langs filepath w :
  failures_then_one filepath (yielded (check_translations required_langs filepath w)).
Proof.
  unfold check_translations. rewrite call_then.
  destruct (etree_parse w filepath) as [e|tree]; [apply failures_then_one_nil|].
  rewrite bind_yielded.
  eexists. eexists. split; [reflexivity|]. split.
  - apply fold_each_Forall. intros. apply remove_language_results.
  - destruct (value _) as [e|expected_langs]; simpl; [split; [lia|constructor]|].
    destruct (decide (expected_langs = ∅)).
    + simpl. split; [lia|]. by repeat constructor.
    + rewrite ask_then. simpl. split; [lia|]. by repeat constructor.
Qed.

(** A loop over files whose body yields one result at most, about the
    file. *)
Lemma files_loop_once p (it : World -> Drained Path) (body : Path -> Gen unit) w :
  (forall f w', single f (yielded (body f w'))) ->
  NoDup (it w).1 ->
  length (results_on p (yielded (for_in it body w))) <= 1.
Proof.
  intros Hbody Hnodup.
  apply (files_loop_on (fun rs => length rs <= 1)); [simpl; lia| | |done].
  - intros f w'. apply Hbody.
  - intros f w'. eapply single_on, Hbody.
Qed.

Lemma folders_loop_once {X} p (folders : list X) (folder_of : X -> string)
      (inner : X -> Path -> Gen unit) w :
  listings_ok w ->
  NoDup (folder_of <$> folders) ->
  (forall x f, steady (inner x f)) ->
  (forall x f w', single f (yielded (inner x f w'))) ->
  length (results_on p
            (yielded (for_each folders
                        (fun x => for_in (_iter_files (folder_of x)) (inner x)) w)))
  <= 1.
Proof.
  intros Hok Hnodup Hsteady Hinner.
  apply (folders_loop_on (fun rs => length rs <= 1)); [simpl; lia|done|done|done| |].
  - intros x f w'. apply Hinner.
  - intros x f w'. eapply single_on, Hinner.
Qed.

(** A loop over files whose body yields failures about the file and then
    one more result about it at most. *)
Lemma files_loop_several p (it : World -> Drained Path) (body : Path -> Gen unit) w :
  (forall f w', failures_then_one f (yielded (body f w'))) ->
  NoDup (it w).1 ->
  failures_then_one p (results_on p (yielded (for_in it body w))).
Proof.
  intros Hbody Hnodup.
  apply (files_loop_on (failures_then_one p)); [apply failures_then_one_nil| | |done].
  - intros f w'. apply failures_then_one_about, Hbody.
  - intros f w'. eapply failures_then_one_on, Hbody.
Qed.

Lemma check_systems_are_complete_once w p :
  listings_ok w ->
  length (results_on p (yielded (check_systems_are_complete_body w))) <= 1.
Proof.
  intros Hok. unfold check_systems_are_complete_body.
  rewrite (silent_then _ _ _ (silent_stems _)).
  destruct (value (stems "backgrounds" w)) as [e|backgrounds]; [simpl; lia|].
  rewrite (silent_then _ _ _ (silent_stems _)).
  destruct (value (stems "controllers" w)) as [e|controllers]; [simpl; lia|].
  rewrite (silent_then _ _ _ (silent_stems _)).
  destruct (value (stems "logos" w)) as [e|logos]; [simpl; lia|].
  apply files_loop_once; [|by apply iter_files_NoDup].
  intros f w'. apply check_system_single.
Qed.

Lemma check_all_images_have_system_once w p :
  listings_ok w ->
  length (results_on p (yielded (check_all_images_have_system_body w))) <= 1.
Proof.
  intros Hok. unfold check_all_images_have_system_body.
  rewrite (silent_then _ _ _ (silent_stems _)).
  destruct (value (stems "metadata" w)) as [e|systems]; [simpl; lia|].
  apply (folders_loop_once _ _ id (fun _ => check_image systems)); [done| | |].
  - rewrite list_fmap_id. apply (bool_decide_unpack _). vm_compute. exact I.
  - intros _ f. apply check_image_steady.
  - intros _ f w'. apply check_image_single.
Qed.

Lemma check_duplicated_backgrounds_once w p :
  listings_ok w ->
  length (results_on p (yielded (check_duplicated_backgrounds_body w))) <= 1.
Proof.
  intros Hok. unfold check_duplicated_backgrounds_body. rewrite bind_yielded.
  replace (match value _ with inl _ => [] | inr _ => _ end) with (@nil Result)
    by (by destruct (value _)).
  rewrite app_nil_r.
  apply (files_fold_on (fun rs => length rs <= 1));
    [simpl; lia| | |by apply iter_files_NoDup].
  - intros a f w'. apply check_background_single.
  - intros a f w'. eapply single_on, check_background_single.
Qed.

Lemma check_all_systems_fully_translated_several w p :
  listings_ok w ->
  failures_then_one p (results_on p (yielded (check_all_systems_fully_translated_body w))).
Proof.
  intros Hok. unfold check_all_systems_fully_translated_body. rewrite call_then.
  destruct (etree_parse w theme_lang) as [e|tree]; [apply failures_then_one_nil|].
  destruct (decide (required_languages tree = ∅)).
  - eapply failures_then_one_on. by apply failures_then_one_single.
  - apply files_loop_several; [|by apply iter_files_NoDup].
    intros f w'. apply check_translations_results.
Qed.

(** ** One subject, several results *)


(** The same on [check_all_systems_fully_translated]: a metadata file whose
    only translation is in a language that the theme does not have gets a
    [Failure] for that language and one for the language it lacks. *)
Lemma translation_has_two_failures :
  yielded (check_all_systems_fully_translated_body translations_world)
  = [ResFailure (mkFailure (inc "metadata" "snes.xml") "Unexpected language: fr");
     ResFailure (mkFailure (inc "metadata" "snes.xml") "Missing translations: es")].
Proof. vm_compute. reflexivity. Qed.


(** ** Witnesses and evaluations on the sample themes *)


(** C8, as the specification has it, fails where the collections file has
    two entries that no system matches: both are named by one [Failure]. *)
Lemma extra_entries_share_one_failure :
  yielded (check_no_missing_collections_body collections_world)
  = [ResSuccess (mkSuccess (inc "metadata" "arcade.xml"));
     ResFailure (mkFailure (inc "metadata" "mine.xml") "Collection not referenced");
     ResFailure (mkFailure collections_file
                   "Collections file has extra entries: favorites, recent")]
  /\ read_collections collections_lines ∖ {["arcade"; "mine"]} = {["favorites"; "recent"]}
  /\ length (filter (fun r => subject r = collections_file /\ is_failure r = true)
                    (yielded (check_no_missing_collections_body collections_world)))
     ≠ size (read_collections collections_lines ∖ ({["arcade"; "mine"]} : gset string)).
Proof.
  split; [vm_compute; reflexivity|]. split; [vm_compute; reflexivity|].
  vm_compute. discriminate.
Qed.

Lemma check_no_missing_collections_results_witness :
  (forall systems,
     system_collections collections_world = inr systems -> NoDup (stem <$> systems))
  /\ (forall lines,
        text_lines collections_world collections_file = inr lines ->
        forallb ascii_text lines = true)
  /\ yielded (check_no_missing_collections_body collections_world)
     = [ResSuccess (mkSuccess (inc "metadata" "arcade.xml"));
        ResFailure (mkFailure (inc "metadata" "mine.xml") "Collection not referenced");
        ResFailure (mkFailure collections_file
                      "Collections file has extra entries: favorites, recent")].
Proof.
  assert (Hsys : system_collections collections_world
                 = inr [inc "metadata" "arcade.xml"; inc "metadata" "mine.xml"])
    by (vm_compute; reflexivity).
  assert (Hnodup : forall systems,
             system_collections collections_world = inr systems ->
             NoDup (stem <$> systems)).
  { intros systems. rewrite Hsys. intros [= <-].
    apply (bool_decide_unpack _). vm_compute. exact I. }
  assert (Hascii : forall lines,
             text_lines collections_world collections_file = inr lines ->
             forallb ascii_text lines = true).
  { intros lines [= <-]. reflexivity. }
  split; [exact Hnodup|]. split; [exact Hascii|].
  etransitivity;
    [exact (check_no_missing_collections_results collections_world Hnodup Hascii)|].
  vm_compute. reflexivity.
Defined.

(** The [else] clause of the loop over [tags] in [check_metadata_is_complete]
    runs after failures too: a file that lacks a tag has its [Failure] and a
    [Success]. *)
Lemma metadata_success_follows_failures :
  let results := yielded (check_metadata_is_complete_body collections_world) in
  ResFailure (mkFailure (inc "metadata" "snes.xml")
                        "Missing <systemName> tag in primary variables") ∈ results
  /\ ResSuccess (mkSuccess (inc "metadata" "snes.xml")) ∈ results.
Proof.
  split; apply (bool_decide_unpack _); vm_compute; exact I.
Qed.

(** The scenario of three checks, one that passes, one that fixes and one
    that fails: the suite returns [False] and counts two out of three. *)
Lemma suite_of_three :
  let suite := [yielding "Check A." [Obj (mkSuccess logo)] None;
                yielding "Check B." [Obj (mkFix logo "Rescaled SVG")] None;
                yielding "Check C." [Obj (mkFailure cover "Missing logo")] None] in
  (verify_theme_quality suite bare_world).1.2 = false
  /\ last (verify_theme_quality suite bare_world).1.1
     = Some (ConsolePrint
               (Text [Lit "[bold]Final result:[/] "; Lit "[red bold]FAILURE[/]";
                      Lit " ("; Lit "2"; Lit " out of "; Lit "3";
                      Lit " checks passed)."]))
  /\ (main suite bare_world).1.2 = 1.
Proof. repeat split; vm_compute; reflexivity. Qed.

(** On a base directory with nothing below it, each of the thirteen checks
    ends in ERROR and the process exits with status 1. *)
Lemma bare_theme_fails :
  returns checks bare_world = replicate 13 false /\ (main checks bare_world).1.2 = 1.
Proof. split; vm_compute; reflexivity. Qed.

(** ** [check_svg_formatting], run again *)

Lemma new_style_not_idempotent :
  new_style "fill:red ;" = "fill:red "
  /\ new_style (new_style "fill:red ;") = "fill:red".
Proof. split; vm_compute; reflexivity. Qed.

(** C9 on a file whose [style] is "fill:red ;": the first run rewrites the
    file with the style "fill:red " and yields a [Fix]; the second run, on
    the file as rewritten, rewrites it once more, with the style "fill:red",
    and yields a [Fix] again; only the third run yields a [Success]. *)
Theorem svg_second_run_fixes_again :
  let run1 := check_svg_formatting_body svg_world in
  let run2 := check_svg_formatting_body (world_after run1) in
  let run3 := check_svg_formatting_body (world_after run2) in
  yielded run1 = [ResFix (mkFix logo "Formatted SVG file")]
  /\ content (world_after run1) logo = inr (svg_document "fill:red ")
  /\ yielded run2 = [ResFix (mkFix logo "Formatted SVG file")]
  /\ content (world_after run2) logo = inr (svg_document "fill:red")
  /\ yielded run3 = [ResSuccess (mkSuccess logo)].
Proof. repeat split; vm_compute; reflexivity. Qed.

(** * Further properties *)

(** ** The runner *)

Lemma report_prints raised t : forallb is_print (report raised t).1 = true.
Proof.
  unfold report. destruct raised as [e|]; [done|].
  destruct (total t =? 0); [done|].
  destruct (negb (Py.truthy_list (fixes t)) && negb (Py.truthy_list (failures t)));
    [done|].
  destruct (negb (Py.truthy_list (failures t))); simpl.
  - apply forallb_forall. intros op Hop%list_elem_of_In%list_elem_of_fmap.
    by destruct Hop as (f & -> & _).
  - apply forallb_forall. intros op Hop%list_elem_of_In.
    apply elem_of_app in Hop as [Hop|Hop]; apply list_elem_of_fmap in Hop;
      by destruct Hop as (f & -> & _).
Qed.

Lemma report_true raised t :
  (report raised t).2 = true <-> raised = None /\ failures t = [] /\ total t ≠ 0.
Proof.
  unfold report. destruct raised as [e|]; [simpl; split; [done|by intros [? _]]|].
  destruct (total t =? 0) eqn:Htotal; simpl.
  - apply Nat.eqb_eq in Htotal. split; [done|]. by intros (_ & _ & ?).
  - apply Nat.eqb_neq in Htotal.
    destruct (fixes t) as [|f fs], (failures t) as [|g gs]; simpl;
      split; try done; by intros (_ & ? & _).
Qed.

(** X1: the runner returns [True] exactly when the call of the check gave an
    iterable that ended without exception and handed over no [Failure] and
    at least one [Success] or [Fix]. *)
Theorem run_check_true_iff check w :
  (_run_check check w).1.2 = true
  <-> exists items,
        (__call__ check w).1 = Returns (Iterable items None)
        /\ failures_of items = []
        /\ (successes_of items ≠ [] \/ fixes_of items ≠ []).
Proof.
  destruct (__call__ check w) as [inv w'] eqn:Hcall.
  rewrite (run_check_unfold _ _ _ _ Hcall). simpl. rewrite report_true.
  destruct inv as [e|[|items stop]]; simpl.
  - split; [by intros [? _]|by intros (items & ? & _)].
  - split; [by intros (_ & _ & ?)|by intros (items & ? & _)].
  - rewrite tally_fold. simpl. unfold total. simpl. split.
    + intros (-> & Hfail & Htotal). exists items. repeat split; [done|].
      rewrite Hfail in Htotal. simpl in Htotal.
      destruct (successes_of items); [right|by left].
      destruct (fixes_of items); [simpl in Htotal; lia|done].
    + intros (items' & [= <- <-] & Hfail & Hsome). repeat split; [done|].
      rewrite Hfail. simpl.
      destruct Hsome as [H|H]; [destruct (successes_of items)|destruct (fixes_of items)];
        simpl; try done; lia.
Qed.

(** X2: the status line that the live region shows and the value returned
    agree: the runner returns [True] below the PASS line and below the FIX
    line, [False] below the FAIL line and below the ERROR line. Below the
    PASS line nothing is printed; below the ERROR line one thing is: the
    traceback of the exception, or the message of the empty run. All that
    is printed after the live region is printed through the console. *)
Theorem run_check_status_agrees check w :
  let doc := Esc (__doc__ check) in
  exists line printed,
    (_run_check check w).1.1
    = [LiveStart (Spinner "dots" "blue" [Lit "[blue]"; doc; Lit "[/]"]);
       LiveUpdate (Text line);
       LiveStop]
        ++ printed
    /\ ((line = [Lit "[green][b]✔[/b] "; doc; Lit " [green bold]PASS.[/]"]
         /\ (_run_check check w).1.2 = true
         /\ printed = [])
        \/ (line = [Lit "[yellow][b]𝐢[/b] "; doc; Lit " [yellow bold]FIX.[/]"]
            /\ (_run_check check w).1.2 = true)
        \/ (line = [Lit "[red][b]✘[/b] "; doc; Lit " [red bold]FAIL.[/]"]
            /\ (_run_check check w).1.2 = false)
        \/ (line = [Lit "[red][b]✘[/b] "; doc; Lit " [red bold]ERROR.[/]"]
            /\ (_run_check check w).1.2 = false
            /\ ((exists e, printed = [ConsolePrint (Padding (Traceback e) (0, 4))])
                \/ printed
                   = [ConsolePrint
                        (Padding
                           (Text [Lit "➔ ";
                                  Lit "No files was checked, this must be an error."])
                           (0, 4))])))
    /\ forallb is_print printed = true.
Proof.
  destruct (__call__ check w) as [inv w'] eqn:Hcall.
  rewrite (run_check_unfold _ _ _ _ Hcall). cbn [fst snd].
  destruct (consume inv) as [t raised]. cbn [fst snd].
  exists (status_line (classify raised t) (Esc (__doc__ check))), (report raised t).1.
  split; [reflexivity|]. split; [|apply report_prints].
  unfold classify, report. destruct raised as [e|]; simpl.
  { do 3 right. repeat split. left. by exists e. }
  destruct (total t =? 0); simpl.
  { do 3 right. repeat split. by right. }
  destruct (fixes t) as [|f fs], (failures t) as [|g gs]; simpl.
  - left. by repeat split.
  - right. right. left. by split.
  - right. left. by split.
  - right. right. left. by split.
Qed.

Lemma successes_of_results items : successes_of (Obj <$> results_of items) = successes_of items.
Proof.
  unfold successes_of, results_of.
  induction items as [|[[s|f|f]|] items IH]; csimpl; [done|..]; by rewrite ?IH.
Qed.

Lemma fixes_of_results items : fixes_of (Obj <$> results_of items) = fixes_of items.
Proof.
  unfold fixes_of, results_of.
  induction items as [|[[s|f|f]|] items IH]; csimpl; [done|..]; by rewrite ?IH.
Qed.

Lemma failures_of_results items : failures_of (Obj <$> results_of items) = failures_of items.
Proof.
  unfold failures_of, results_of.
  induction items as [|[[s|f|f]|] items IH]; csimpl; [done|..]; by rewrite ?IH.
Qed.

(** X3: objects that are none of [Success], [Fix] and [Failure] are passed
    over: two checks with the same docstring, one handing over some items
    and the other the same items without the objects of other types, are
    reported alike. *)
Theorem run_check_ignores_foreign check check' w w' items stop :
  __doc__ check = __doc__ check' ->
  __call__ check w = (Returns (Iterable items stop), w') ->
  __call__ check' w = (Returns (Iterable (Obj <$> results_of items) stop), w') ->
  _run_check check w = _run_check check' w.
Proof.
  intros Hdoc Hcall Hcall'.
  rewrite (run_check_unfold _ _ _ _ Hcall), (run_check_unfold _ _ _ _ Hcall').
  rewrite !consume_iterable, successes_of_results, fixes_of_results, failures_of_results.
  unfold live_region. by rewrite Hdoc.
Qed.

Lemma run_check_ignores_foreign_witness :
  let items := [Foreign; Obj (mkSuccess logo); Foreign; Obj (mkFix cover "Rescaled SVG")] in
  let check := yielding "Check the logos." items None in
  let check' := yielding "Check the logos." (Obj <$> results_of items) None in
  __doc__ check = __doc__ check'
  /\ __call__ check bare_world = (Returns (Iterable items None), bare_world)
  /\ __call__ check' bare_world
     = (Returns (Iterable (Obj <$> results_of items) None), bare_world)
  /\ _run_check check bare_world = _run_check check' bare_world.
Proof.
  split; [reflexivity|]. split; [reflexivity|]. split; [reflexivity|].
  apply (run_check_ignores_foreign _ _ _ bare_world
           [Foreign; Obj (mkSuccess logo); Foreign; Obj (mkFix cover "Rescaled SVG")]
           None); reflexivity.
Defined.

(** ** The suite, continued *)

Lemma started_app ops ops' : started (ops ++ ops') = started ops ++ started ops'.
Proof. unfold started. apply omap_app. Qed.

Lemma started_prints ops : forallb is_print ops = true -> started ops = [].
Proof.
  induction ops as [|op ops IH]; [done|]. simpl.
  intros [Hop Hops]%andb_true_iff. destruct op; try done. by apply IH.
Qed.

Lemma started_run_check check w : started (_run_check check w).1.1 = [__doc__ check].
Proof.
  destruct (__call__ check w) as [inv w'] eqn:Hcall.
  rewrite (run_check_unfold _ _ _ _ Hcall). simpl.
  change (started (?a :: ?b :: ?c :: ?l)) with (__doc__ check :: started l).
  by rewrite started_prints by apply report_prints.
Qed.

Lemma started_console_of checks : forall w,
  started (console_of checks w) = __doc__ <$> checks.
Proof.
  induction checks as [|check rest IH]; intros w; [done|].
  simpl. by rewrite started_app, started_run_check, IH.
Qed.

Lemma world_past_verify checks w : (verify_theme_quality checks w).2 = world_past checks w.
Proof. by rewrite verify_theme_quality_unfold. Qed.

(** X4: a suite in two parts: [verify_theme_quality] returns [True] for the
    whole exactly when it does for the first part and, from the world that
    the first part leaves, for the second; and the whole leaves the world
    that the second part leaves from there. *)
Theorem verify_theme_quality_app pre post w :
  (verify_theme_quality (pre ++ post) w).1.2
  = (verify_theme_quality pre w).1.2
    && (verify_theme_quality post (verify_theme_quality pre w).2).1.2
  /\ (verify_theme_quality (pre ++ post) w).2
     = (verify_theme_quality post (verify_theme_quality pre w).2).2.
Proof.
  rewrite !world_past_verify, !verify_theme_quality_unfold. simpl.
  rewrite returns_app, world_past_app. split; [|done].
  apply eq_true_iff_eq. rewrite andb_true_iff, !bool_decide_eq_true.
  apply Forall_app.
Qed.

(** X5: every check of the suite is run once, in the order of the list,
    whatever the checks before it did: the live regions that the console
    shows are those of the checks, in that order. *)
Theorem verify_theme_quality_runs_each_check checks w :
  started (verify_theme_quality checks w).1.1 = __doc__ <$> checks.
Proof.
  rewrite verify_theme_quality_unfold. simpl.
  by rewrite started_app, started_console_of, app_nil_r.
Qed.

(** ** [_iter_files] *)

Lemma iter_nodes_listing w folder nodes :
  (iter_nodes w folder nodes).1
  = (fun node => inc folder (node_name node)) <$> List.filter visible (leading_files nodes)
  /\ ((iter_nodes w folder nodes).2 = None <-> Forall (fun node => is_file node = true) nodes).
Proof.
  induction nodes as [|node nodes [IHfiles IHstop]]; simpl.
  - split; [done|]. split; [constructor|done].
  - rewrite Forall_cons. destruct (is_file node); simpl.
    + unfold visible at 1. destruct (Py.startswith (node_name node) "_"); simpl.
      * split; [done|]. rewrite IHstop. split; [done|by intros [_ ?]].
      * rewrite IHfiles. split; [done|]. rewrite IHstop. split; [done|by intros [_ ?]].
    + split; [done|]. split; [done|by intros [? _]].
Qed.

(** X6: [_iter_files] gives the entries of the folder that come before its
    first entry that is not a file, without those whose name starts with an
    underscore, in the order of the listing, each as a path in the folder;
    and it ends without exception exactly when the folder exists and all its
    entries are files (an entry that is not a file raises even when its name
    starts with an underscore). *)
Theorem iter_files_listing w folder :
  (_iter_files folder w).1
  = match iterdir w folder with
    | None => []
    | Some nodes =>
        (fun node => inc folder (node_name node))
          <$> List.filter visible (leading_files nodes)
    end
  /\ ((_iter_files folder w).2 = None
      <-> exists nodes,
            iterdir w folder = Some nodes
            /\ Forall (fun node => is_file node = true) nodes).
Proof.
  unfold _iter_files. destruct (iterdir w folder) as [nodes|].
  - destruct (iter_nodes_listing w folder nodes) as [Hfiles Hstop].
    split; [done|]. rewrite Hstop. split.
    + intros H. by exists nodes.
    + by intros (nodes' & [= <-] & H).
  - simpl. split; [done|]. split; [done|by intros (nodes & ? & _)].
Qed.

(** ** The style of an SVG element *)

Lemma drop_while_head p l c : head (Py.drop_while p l) = Some c -> p c = false.
Proof.
  induction l as [|a l IH]; simpl; [done|].
  destruct (p a) eqn:Hp; [done|]. simpl. by intros [= <-].
Qed.

Lemma take_drop_while p l : Py.take_while p l ++ Py.drop_while p l = l.
Proof. induction l as [|a l IH]; simpl; [done|]. destruct (p a); simpl; by rewrite ?IH. Qed.

Lemma last_rev {A} (l : list A) : last (rev l) = head l.
Proof. rewrite rev_alt. apply last_reverse. Qed.

Lemma rstrip_chars_last p l c : last (Py.rstrip_chars p l) = Some c -> p c = false.
Proof.
  unfold Py.rstrip_chars. rewrite last_rev. apply drop_while_head.
Qed.

Lemma rstrip_chars_prefix p l : Py.rstrip_chars p l `prefix_of` l.
Proof.
  unfold Py.rstrip_chars. exists (rev (Py.take_while p (rev l))).
  rewrite <- rev_app_distr, take_drop_while. by rewrite rev_involutive.
Qed.

Lemma prefix_head {A} (l1 l2 : list A) c :
  l1 `prefix_of` l2 -> head l1 = Some c -> head l2 = Some c.
Proof. intros [k ->]. by destruct l1. Qed.

Lemma on_chars_chars f s :
  list_ascii_of_string (Py.on_chars f s) = f (list_ascii_of_string s).
Proof. unfold Py.on_chars. apply list_ascii_of_string_of_list_ascii. Qed.

Lemma new_style_last style_text :
  last (list_ascii_of_string (new_style style_text)) ≠ Some ";"%char.
Proof.
  unfold new_style, Py.rstrip, Py.strip. rewrite !on_chars_chars.
  intros H%rstrip_chars_last. done.
Qed.

(** X7: the style that [check_svg_formatting] sets never ends in a
    semicolon and never starts with white space. *)
Theorem new_style_shape style_text :
  last (list_ascii_of_string (new_style style_text)) ≠ Some ";"%char
  /\ forall c, head (list_ascii_of_string (new_style style_text)) = Some c ->
               Py.isspace c = false.
Proof.
  split; [apply new_style_last|].
  unfold new_style, Py.rstrip, Py.strip. rewrite !on_chars_chars. intros c Hc.
  apply (prefix_head _ _ _ (rstrip_chars_prefix _ _)) in Hc.
  apply (prefix_head _ _ _ (rstrip_chars_prefix _ _)) in Hc.
  by apply drop_while_head in Hc.
Qed.

Lemma prefix_strip_prefix p s :
  String.prefix p s = false ->
  strip_prefix (list_ascii_of_string p) (list_ascii_of_string s) = None.
Proof.
  revert s. induction p as [|a p IH]; intros s; [by destruct s|].
  destruct s as [|b s]; simpl; [done|].
  destruct (ascii_dec a b) as [->|Hne].
  - rewrite Ascii.eqb_refl. apply IH.
  - intros _. apply Ascii.eqb_neq in Hne. by rewrite Hne.
Qed.

Lemma sub_inkscape_css_plain s : forall fuel,
  Py.contains "-inkscape-" s = false ->
  sub_inkscape_css fuel (list_ascii_of_string s) = list_ascii_of_string s.
Proof.
  induction s as [|c s IH]; intros fuel Hs; simpl.
  - by destruct fuel.
  - destruct fuel as [|fuel]; [done|].
    simpl in Hs. apply orb_false_iff in Hs as [Hhere Hrest].
    change (sub_inkscape_css (S fuel) (c :: list_ascii_of_string s))
      with (match match_inkscape_css (c :: list_ascii_of_string s) with
            | Some after => sub_inkscape_css fuel after
            | None => c :: sub_inkscape_css fuel (list_ascii_of_string s)
            end).
    assert (Hm : match_inkscape_css (list_ascii_of_string (String c s)) = None).
    { unfold match_inkscape_css. by rewrite prefix_strip_prefix. }
    change (list_ascii_of_string (String c s)) with (c :: list_ascii_of_string s) in Hm.
    by rewrite Hm, IH.
Qed.

(** X8: a style in ASCII in which "-inkscape-" does not occur is left as it
    is by the substitution of [inkscape_css_re]: stripping it is all that is
    done. *)
Theorem new_style_plain style_text :
  ascii_text style_text = true ->
  Py.contains "-inkscape-" style_text = false ->
  inkscape_css_re_sub style_text = style_text
  /\ new_style style_text = Py.rstrip ";" (Py.strip style_text).
Proof.
  intros _ Hplain.
  assert (H : inkscape_css_re_sub style_text = style_text).
  { unfold inkscape_css_re_sub, Py.on_chars.
    rewrite sub_inkscape_css_plain by done. apply string_of_list_ascii_of_string. }
  split; [done|]. unfold new_style. by rewrite H.
Qed.

Lemma new_style_plain_witness :
  ascii_text "fill:red; stroke:none;" = true
  /\ Py.contains "-inkscape-" "fill:red; stroke:none;" = false
  /\ inkscape_css_re_sub "fill:red; stroke:none;" = "fill:red; stroke:none;"
  /\ new_style "fill:red; stroke:none;"
     = Py.rstrip ";" (Py.strip "fill:red; stroke:none;").
Proof.
  split; [reflexivity|]. split; [reflexivity|].
  apply (new_style_plain "fill:red; stroke:none;"); reflexivity.
Defined.

(** ** The tree of an SVG file *)

Lemma descendants_unfold t q a x cs :
  descendants (mkElement t q a x cs) = flat_map elements_of cs.
Proof. done. Qed.

Lemma remove_editor_elements_unfold t q a x cs :
  remove_editor_elements (mkElement t q a x cs)
  = mkElement t q a x
      (flat_map (fun c => if editor_element c then [] else [remove_editor_elements c]) cs).
Proof. done. Qed.

Lemma editor_element_removed el :
  editor_element (remove_editor_elements el) = editor_element el.
Proof. by destruct el. Qed.

Lemma remove_editor_elements_below el :
  Forall (fun d => editor_element d = false) (descendants (remove_editor_elements el)).
Proof.
  induction el as [t q a x cs IH] using Element_children_ind.
  rewrite remove_editor_elements_unfold, descendants_unfold.
  induction cs as [|c cs IHcs]; [constructor|].
  apply Forall_cons in IH as [IHc IH]. simpl.
  destruct (editor_element c) eqn:Hc; simpl; [by apply IHcs|].
  apply Forall_cons. split; [by rewrite editor_element_removed|].
  apply Forall_app. split; [done|by apply IHcs].
Qed.

Lemma remove_editor_elements_again el :
  remove_editor_elements (remove_editor_elements el) = remove_editor_elements el.
Proof.
  induction el as [t q a x cs IH] using Element_children_ind.
  rewrite !remove_editor_elements_unfold. f_equal.
  induction cs as [|c cs IHcs]; [done|].
  apply Forall_cons in IH as [IHc IH]. simpl.
  destruct (editor_element c) eqn:Hc; simpl; [by apply IHcs|].
  rewrite editor_element_removed, Hc. simpl. by rewrite IHc, IHcs.
Qed.

(** X9: after the first loop of [check_svg_formatting] no element below the
    root has a name that starts with [sodipodi:] or [inkscape:], and doing
    the loop on its result changes nothing more. *)
Theorem remove_editor_elements_clean el :
  Forall (fun d => editor_element d = false) (descendants (remove_editor_elements el))
  /\ remove_editor_elements (remove_editor_elements el) = remove_editor_elements el.
Proof. split; [apply remove_editor_elements_below|apply remove_editor_elements_again]. Qed.

Lemma remove_editor_attributes_unfold t q a x cs :
  remove_editor_attributes (mkElement t q a x cs)
  = mkElement t q (List.filter (fun kv => negb (editor_attribute kv.1)) a) x
      (List.map remove_editor_attributes cs).
Proof. done. Qed.

Lemma filter_clean (a : list (string * string)) :
  Forall (fun kv => editor_attribute kv.1 = false)
         (List.filter (fun kv => negb (editor_attribute kv.1)) a).
Proof.
  apply Forall_forall. intros kv Hkv%list_elem_of_In%filter_In.
  destruct Hkv as [_ Hkv]. by apply negb_true_iff in Hkv.
Qed.

Lemma filter_again {A} (p : A -> bool) l : List.filter p (List.filter p l) = List.filter p l.
Proof.
  induction l as [|x l IH]; [done|]. simpl.
  destruct (p x) eqn:Hp; simpl; by rewrite ?Hp, IH.
Qed.

Lemma remove_editor_attributes_all el :
  Forall (fun d => Forall (fun kv => editor_attribute kv.1 = false) (attrib d))
         (elements_of (remove_editor_attributes el)).
Proof.
  induction el as [t q a x cs IH] using Element_children_ind.
  rewrite remove_editor_attributes_unfold. unfold elements_of.
  apply Forall_cons. split; [apply filter_clean|].
  rewrite descendants_unfold.
  induction cs as [|c cs IHcs]; [constructor|].
  apply Forall_cons in IH as [IHc IH]. cbn [flat_map List.map].
  apply Forall_app. split; [exact IHc|by apply IHcs].
Qed.

Lemma remove_editor_attributes_again el :
  remove_editor_attributes (remove_editor_attributes el) = remove_editor_attributes el.
Proof.
  induction el as [t q a x cs IH] using Element_children_ind.
  rewrite !remove_editor_attributes_unfold, filter_again. f_equal.
  induction cs as [|c cs IHcs]; [done|].
  apply Forall_cons in IH as [IHc IH]. simpl. by rewrite IHc, IHcs.
Qed.

Lemma remove_editor_attributes_tags el :
  tag <$> elements_of (remove_editor_attributes el) = tag <$> elements_of el.
Proof.
  induction el as [t q a x cs IH] using Element_children_ind.
  rewrite remove_editor_attributes_unfold. unfold elements_of.
  rewrite !fmap_cons. f_equal. rewrite !descendants_unfold.
  induction cs as [|c cs IHcs]; [done|].
  apply Forall_cons in IH as [IHc IH]. cbn [flat_map List.map].
  rewrite !fmap_app. f_equal; [exact IHc|by apply IHcs].
Qed.

(** X10: after the second loop of [check_svg_formatting] no element of the
    tree, the root included, has an attribute whose key has "inkscape" or
    "sodipodi" in it; the elements are the same as before, in the same order;
    and doing the loop on its result changes nothing more. *)
Theorem remove_editor_attributes_clean el :
  Forall (fun d => Forall (fun kv => editor_attribute kv.1 = false) (attrib d))
         (elements_of (remove_editor_attributes el))
  /\ tag <$> elements_of (remove_editor_attributes el) = tag <$> elements_of el
  /\ remove_editor_attributes (remove_editor_attributes el) = remove_editor_attributes el.
Proof.
  split; [apply remove_editor_attributes_all|].
  split; [apply remove_editor_attributes_tags|apply remove_editor_attributes_again].
Qed.

Lemma restyle_unfold t q a x cs :
  restyle (mkElement t q a x cs) = mkElement t q (restyle_attrib a) x (List.map restyle cs).
Proof. done. Qed.

Lemma attrib_restyle el : attrib (restyle el) = restyle_attrib (attrib el).
Proof. by destruct el. Qed.

Lemma elements_of_restyle el : elements_of (restyle el) = restyle <$> elements_of el.
Proof.
  induction el as [t q a x cs IH] using Element_children_ind.
  rewrite restyle_unfold. unfold elements_of at 1 2. rewrite fmap_cons. f_equal.
  rewrite !descendants_unfold.
  induction cs as [|c cs IHcs]; [done|].
  apply Forall_cons in IH as [IHc IH]. cbn [flat_map List.map].
  rewrite fmap_app. f_equal; [exact IHc|by apply IHcs].
Qed.

Lemma find_key_None key (a : list (string * string)) :
  key ∉ a.*1 -> List.find (fun kv => String.eqb kv.1 key) a = None.
Proof.
  induction a as [|[k v] a IH]; [done|]. simpl.
  intros Hkey%not_elem_of_cons. destruct Hkey as [Hne Hkey].
  destruct (String.eqb_spec k key) as [->|_]; [done|]. by apply IH.
Qed.

Lemma restyle_attrib_style a :
  NoDup a.*1 ->
  snd <$> List.find (fun kv => String.eqb kv.1 "style") (restyle_attrib a)
  = match snd <$> List.find (fun kv => String.eqb kv.1 "style") a with
    | Some v => if Py.truthy_str (new_style v) then Some (new_style v) else None
    | None => None
    end.
Proof.
  induction a as [|[k v] a IH]; [done|].
  rewrite fmap_cons. intros [Hk Hnodup]%NoDup_cons.
  cbn [restyle_attrib List.find fst].
  destruct (String.eqb k "style") eqn:Hstyle.
  - apply String.eqb_eq in Hstyle as ->.
    destruct (Py.truthy_str (new_style v)) eqn:Htruthy.
    + cbn [List.find fst]. rewrite String.eqb_refl. simpl. by rewrite Htruthy.
    + rewrite find_key_None by done. simpl. by rewrite Htruthy.
  - cbn [List.find fst]. rewrite Hstyle. by apply IH.
Qed.

Lemma restyle_attrib_other key a :
  key ≠ "style" ->
  snd <$> List.find (fun kv => String.eqb kv.1 key) (restyle_attrib a)
  = snd <$> List.find (fun kv => String.eqb kv.1 key) a.
Proof.
  intros Hkey. induction a as [|[k v] a IH]; [done|].
  cbn [restyle_attrib List.find fst].
  destruct (String.eqb k "style") eqn:Hstyle.
  - apply String.eqb_eq in Hstyle as ->.
    assert (Hne : String.eqb "style" key = false) by (by apply String.eqb_neq).
    rewrite Hne. destruct (Py.truthy_str (new_style v)); [|done].
    cbn [List.find fst]. by rewrite Hne.
  - cbn [List.find fst]. destruct (String.eqb k key); [done|]. exact IH.
Qed.

Lemma truthy_str_nonempty s : Py.truthy_str s = true -> s ≠ "".
Proof. by destruct s. Qed.

(** X11: after the third loop of [check_svg_formatting], on a tree whose
    elements have each attribute once, the [style] of an element, where it
    has one, is not empty and does not end in a semicolon; the other
    attributes have the value they had. *)
Theorem restyle_styles el :
  Forall (fun d => NoDup (attrib d).*1) (elements_of el) ->
  Forall (fun d => forall v, get "style" d = Some v ->
                             v ≠ "" /\ last (list_ascii_of_string v) ≠ Some ";"%char)
         (elements_of (restyle el))
  /\ forall key, key ≠ "style" -> get key (restyle el) = get key el.
Proof.
  intros Hnodup. split.
  - rewrite elements_of_restyle. apply Forall_fmap.
    eapply Forall_impl; [exact Hnodup|]. intros d Hd v. simpl.
    unfold get. rewrite attrib_restyle, restyle_attrib_style by done.
    destruct (snd <$> List.find _ (attrib d)) as [v0|]; [|done].
    destruct (Py.truthy_str (new_style v0)) eqn:Htruthy; [|done].
    intros [= <-]. split; [by apply truthy_str_nonempty|apply new_style_last].
  - intros key Hkey. unfold get. rewrite attrib_restyle. by apply restyle_attrib_other.
Qed.

Lemma restyle_styles_witness :
  let el := mkElement "{http://www.w3.org/2000/svg}svg" "svg" [("width", "600")] None
              [mkElement "{http://www.w3.org/2000/svg}path" "path"
                 [("d", "M0 0"); ("style", "fill:red ;")] None [];
               mkElement "{http://www.w3.org/2000/svg}g" "g" [("style", " ; ")] None []] in
  Forall (fun d => NoDup (attrib d).*1) (elements_of el)
  /\ Forall (fun d => forall v, get "style" d = Some v ->
                                v ≠ "" /\ last (list_ascii_of_string v) ≠ Some ";"%char)
            (elements_of (restyle el))
  /\ forall key, key ≠ "style" -> get key (restyle el) = get key el.
Proof.
  assert (H : Forall (fun d => NoDup (attrib d).*1)
                (elements_of
                   (mkElement "{http://www.w3.org/2000/svg}svg" "svg" [("width", "600")] None
                      [mkElement "{http://www.w3.org/2000/svg}path" "path"
                         [("d", "M0 0"); ("style", "fill:red ;")] None [];
                       mkElement "{http://www.w3.org/2000/svg}g" "g" [("style", " ; ")]
                         None []]))).
  { apply (bool_decide_unpack _). vm_compute. exact I. }
  split; [exact H|]. exact (restyle_styles _ H).
Defined.

(** ** What the checks write *)

Lemma steady_raise {A} e : steady (@raise A e).
Proof. by intros w. Qed.

Lemma steady_call {A} (f : World -> Exception + A) : steady (call f).
Proof. by intros w. Qed.

Lemma steady_ask {A} (f : World -> A) : steady (ask f).
Proof. by intros w. Qed.

Ltac steady_all :=
  repeat first
    [ progress intros
    | apply steady_ret
    | apply steady_yield
    | apply steady_raise
    | apply steady_call
    | apply steady_ask
    | apply steady_for_in
    | apply steady_fold_in
    | apply steady_for_each
    | apply steady_fold_each
    | apply steady_bind
    | case_decide
    | case_match ].

Lemma reading_bodies_steady : Forall steady reading_bodies.
Proof.
  unfold reading_bodies. repeat apply Forall_cons_2; [..|constructor].
  - unfold check_raster_image_dimensions_body, check_raster_file. steady_all.
  - unfold check_systems_are_complete_body, stems, check_system. steady_all.
  - unfold check_all_images_have_system_body, stems, check_image. steady_all.
  - unfold check_file_extensions_body, check_extension. steady_all.
  - unfold check_metadata_is_complete_body, check_metadata_file, check_tag. steady_all.
  - unfold check_all_variables_fully_translated_body, check_language, remove_tag.
    steady_all.
  - unfold check_all_systems_fully_translated_body, check_translations, remove_language.
    steady_all.
  - unfold check_no_missing_collections_body, add_collection, match_system. steady_all.
  - unfold check_duplicated_backgrounds_body, check_background. steady_all.
  - unfold check_overlays_match_their_backgrounds_body, check_overlay. steady_all.
Qed.

(** X12: ten of the thirteen checks only read: whatever they find, they
    leave every file as it was. *)
Theorem reading_checks_write_nothing : Forall steady reading_bodies.
Proof. exact reading_bodies_steady. Qed.

Lemma steady_writes {A} (m : Gen A) : steady m -> writes_well m.
Proof.
  intros Hm. split; intros w; [by rewrite Hm|]. intros p. left. by rewrite Hm.
Qed.

Lemma bind_writes {A B} (m : Gen A) (f : A -> Gen B) :
  writes_well m -> (forall a, writes_well (f a)) -> writes_well (m ≫= f).
Proof.
  intros [Hsame Hm] Hf. split.
  - intros w. rewrite bind_world_after.
    destruct (value (m w)) as [e|a]; [apply Hsame|].
    destruct (Hf a) as [Hsame' _]. by rewrite Hsame', Hsame.
  - intros w p. rewrite bind_world_after, bind_yielded, bind_value.
    destruct (value (m w)) as [e|a] eqn:Hvalue.
    + destruct (Hm w p) as [?|[[reason ?]|(e' & data & c & Hw & He')]].
      * by left.
      * right. left. exists reason. apply elem_of_app. by left.
      * right. right. exists e', data, c. split; [done|]. congruence.
    + destruct (Hf a) as [_ Hfa].
      destruct (Hfa (world_after (m w)) p)
        as [Hkept|[[reason Hfix]|(e' & data & c & Hw & He')]].
      * destruct (Hm w p) as [Hm'|[[reason Hfix]|(e' & data & c & Hw & He')]].
        -- left. congruence.
        -- right. left. exists reason. apply elem_of_app. by left.
        -- congruence.
      * right. left. exists reason. apply elem_of_app. by right.
      * right. right. exists e', data, c. split; [|done]. by rewrite <- Hsame.
Qed.

Lemma for_each_writes {X} (body : X -> Gen unit) l :
  (forall x, writes_well (body x)) -> writes_well (for_each l body).
Proof.
  intros Hbody. induction l as [|x l IH]; simpl.
  - apply steady_writes, steady_ret.
  - apply bind_writes; [apply Hbody|]. intros _. apply IH.
Qed.

Lemma for_in_writes {X} (it : World -> Drained X) (body : X -> Gen unit) :
  (forall x, writes_well (body x)) -> writes_well (for_in it body).
Proof.
  intros Hbody. unfold for_in.
  apply bind_writes; [apply steady_writes, steady_ask|]. intros d.
  apply bind_writes; [by apply for_each_writes|]. intros _.
  apply steady_writes, silent_steady, silent_stop_of.
Qed.

Lemma write_and_fix filepath data reason :
  writes_well (write filepath data ;; yield_ (mkFix filepath reason)).
Proof.
  split.
  - intros w. unfold mbind, Gen_bind, write.
    by destruct (write_error w filepath data) as [[e c]|].
  - intros w p. unfold mbind, Gen_bind, write.
    destruct (write_error w filepath data) as [[e c]|] eqn:Hwrite;
      cbn [value yielded world_after].
    + destruct (decide (p = filepath)) as [->|Hne].
      * right. right. by exists e, data, c.
      * left. simpl. by rewrite decide_False.
    + destruct (decide (p = filepath)) as [->|Hne].
      * right. left. exists reason. apply list_elem_of_here.
      * left. simpl. by rewrite decide_False.
Qed.

Ltac writes_all :=
  repeat first
    [ progress intros
    | apply write_and_fix
    | apply steady_writes, steady_ret
    | apply steady_writes, steady_yield
    | apply steady_writes, steady_raise
    | apply steady_writes, steady_call
    | apply steady_writes, steady_ask
    | apply for_in_writes
    | apply bind_writes
    | case_decide
    | case_match ].

(** A write that raises: [check_svg_formatting] ends in the exception with
    no result, and the file is left empty. *)
Lemma failed_write_leaves_no_fix :
  let run := check_svg_formatting_body full_disk_world in
  yielded run = []
  /\ value run = inl no_space
  /\ content (world_after run) logo = inr "".
Proof. repeat split; vm_compute; reflexivity. Qed.

(** X13: no check changes a file without a [Fix] for it among its results,
    unless the write to the file raises ([open] has truncated the file by
    then): in that case the check ends in that exception. The checks that
    write are [check_vector_image_dimensions], [check_svg_formatting] and
    [check_xml_formatting]. *)
Theorem checks_fix_what_they_write : Forall fixes_what_it_writes check_bodies.
Proof.
  assert (Hwell : Forall writes_well check_bodies).
  { assert (Hread : Forall writes_well reading_bodies).
    { eapply Forall_impl; [apply reading_bodies_steady|].
      intros m. apply steady_writes. }
    unfold reading_bodies in Hread. rewrite !Forall_cons in Hread.
    unfold check_bodies. repeat apply Forall_cons_2; [..|constructor]; try tauto.
    - unfold check_vector_image_dimensions_body, check_vector_file. writes_all.
    - unfold check_svg_formatting_body, check_svg_file. writes_all.
    - unfold check_xml_formatting_body, check_xml_file. writes_all. }
  eapply Forall_impl; [exact Hwell|]. by intros m [_ ?].
Qed.

(** ** One result for each file *)

Lemma for_each_one_result (body : Path -> Gen unit) l :
  one_result_each body ->
  forall w,
    subject <$> yielded (for_each l body w) `prefix_of` l
    /\ (value (for_each l body w) = inr tt -> subject <$> yielded (for_each l body w) = l).
Proof.
  intros Hbody. induction l as [|x l IH]; intros w.
  - split; [done|]. done.
  - rewrite for_each_cons_yielded.
    change (for_each (x :: l) body) with (body x ≫= fun _ => for_each l body).
    rewrite bind_value.
    destruct (Hbody x w) as [[Hy [e He]]|(r & Hy & Hr & Hv)]; rewrite Hy.
    + rewrite He. split; [apply prefix_nil|done].
    + rewrite Hv. cbn [app]. rewrite fmap_cons, Hr.
      destruct (IH (world_after (body x w))) as [Hprefix Hall].
      split; [by apply prefix_cons|]. intros Hok. by rewrite Hall.
Qed.

Lemma for_in_one_result (it : World -> Drained Path) (body : Path -> Gen unit) w :
  one_result_each body ->
  subject <$> yielded (for_in it body w) `prefix_of` (it w).1
  /\ (value (for_in it body w) = inr tt ->
      subject <$> yielded (for_in it body w) = (it w).1).
Proof.
  intros Hbody. rewrite for_in_yielded.
  destruct (for_each_one_result body (it w).1 Hbody w) as [Hprefix Hall].
  split; [done|]. intros Hok. apply Hall.
  unfold for_in in Hok. rewrite bind_value in Hok. simpl in Hok.
  rewrite bind_value in Hok.
  by destruct (value (for_each (it w).1 body w)) as [e|[]].
Qed.

Ltac one_each :=
  intros x w;
  unfold mbind, Gen_bind, mret, Gen_ret, call, ask, write, yield_, raise; simpl;
  repeat (case_match; simpl in *; simplify_eq);
  first [ left; split; [reflexivity|eexists; reflexivity]
        | right; eexists; split; [reflexivity|split; reflexivity] ].

Lemma check_svg_file_one : one_result_each check_svg_file.
Proof. unfold check_svg_file. one_each. Qed.

Lemma check_xml_file_one : one_result_each check_xml_file.
Proof. unfold check_xml_file. one_each. Qed.

Lemma check_vector_file_one : one_result_each check_vector_file.
Proof. unfold check_vector_file. one_each. Qed.

Lemma check_overlay_one : one_result_each check_overlay.
Proof. unfold check_overlay. one_each. Qed.

(** X14: [check_vector_image_dimensions], [check_svg_formatting],
    [check_xml_formatting] and [check_overlays_match_their_backgrounds] give
    one result for each file, in the order in which the files are found:
    the subjects of the results are the first files found, and all the files
    found when the check ends without exception. *)
Theorem file_loops_one_result_each w :
  Forall (fun loop =>
            subject <$> yielded (loop.2 w) `prefix_of` (loop.1 w).1
            /\ (value (loop.2 w) = inr tt -> subject <$> yielded (loop.2 w) = (loop.1 w).1))
         file_loops.
Proof.
  unfold file_loops. repeat apply Forall_cons_2; [..|constructor]; cbn [fst snd].
  - apply for_in_one_result, check_vector_file_one.
  - apply for_in_one_result, check_svg_file_one.
  - apply for_in_one_result, check_xml_file_one.
  - apply for_in_one_result, check_overlay_one.
Qed.

(** ** When a check succeeds *)

Lemma failures_of_obj l :
  failures_of (Obj <$> l) = [] <-> Forall (fun r => is_failure r = false) l.
Proof.
  unfold failures_of. induction l as [|r l IH]; csimpl; [by split|].
  rewrite Forall_cons. destruct r as [s|f|f]; simpl; rewrite <- ?IH; split; try done;
    try (by intros [_ ?]). by intros [? _].
Qed.

Lemma total_obj l :
  total (mkTally (successes_of (Obj <$> l)) (fixes_of (Obj <$> l)) (failures_of (Obj <$> l)))
  = length l.
Proof.
  unfold total, successes_of, fixes_of, failures_of. simpl.
  induction l as [|r l IH]; csimpl; [done|].
  destruct r as [s|f|f]; simpl in *; lia.
Qed.

Lemma run_generator_true doc body w :
  (_run_check (generator doc body) w).1.2 = true
  <-> clean body w /\ yielded (body w) ≠ [].
Proof.
  assert (Hcall : __call__ (generator doc body) w
                  = (Returns (Iterable (Obj <$> yielded (body w))
                                (match value (body w) with
                                 | inl e => Some e
                                 | inr _ => None
                                 end)),
                     world_after (body w))) by reflexivity.
  rewrite (run_check_unfold _ _ _ _ Hcall), consume_iterable. cbn [fst snd].
  rewrite report_true. cbn [failures]. rewrite failures_of_obj, total_obj.
  unfold clean. destruct (value (body w)) as [e|[]]; split.
  - by intros [? _].
  - by intros [[? _] _].
  - intros (_ & Hfail & Hlen). repeat split; [done|]. by destruct (yielded (body w)).
  - intros [[_ Hfail] Hne]. repeat split; [done|]. by destruct (yielded (body w)).
Qed.

Lemma for_each_steady_value {X} (body : X -> Gen unit) l w :
  (forall x, steady (body x)) ->
  value (for_each l body w) = inr tt <-> Forall (fun x => value (body x w) = inr tt) l.
Proof.
  intros Hsteady. induction l as [|x l IH]; [by split|].
  change (for_each (x :: l) body) with (body x ≫= fun _ => for_each l body).
  rewrite bind_value, Forall_cons, Hsteady.
  destruct (value (body x w)) as [e|[]]; [split; [done|by intros [? _]]|].
  rewrite IH. split; [done|by intros [_ ?]].
Qed.

Lemma for_each_steady_yielded {X} (body : X -> Gen unit) l w :
  (forall x, steady (body x)) ->
  value (for_each l body w) = inr tt ->
  yielded (for_each l body w) = flat_map (fun x => yielded (body x w)) l.
Proof.
  intros Hsteady. induction l as [|x l IH]; [done|].
  rewrite for_each_cons_yielded.
  change (for_each (x :: l) body) with (body x ≫= fun _ => for_each l body).
  rewrite bind_value, Hsteady.
  destruct (value (body x w)) as [e|[]]; [done|]. intros Hok. simpl. by rewrite IH.
Qed.

Lemma clean_for_each {X} (body : X -> Gen unit) l w :
  (forall x, steady (body x)) ->
  clean (for_each l body) w <-> Forall (fun x => clean (body x) w) l.
Proof.
  intros Hsteady. unfold clean. rewrite Forall_and, <- for_each_steady_value by done.
  split; intros [Hok Hfail]; (split; [done|]).
  - rewrite for_each_steady_yielded in Hfail by done.
    apply Forall_forall. intros x Hx. apply Forall_forall. intros r Hr.
    rewrite Forall_forall in Hfail. apply Hfail, list_elem_of_In, in_flat_map.
    exists x. by rewrite <- !list_elem_of_In.
  - rewrite for_each_steady_yielded by done.
    apply Forall_forall. intros r Hr%list_elem_of_In%in_flat_map.
    destruct Hr as (x & Hx%list_elem_of_In & Hr%list_elem_of_In).
    rewrite Forall_forall in Hfail. specialize (Hfail x Hx).
    rewrite Forall_forall in Hfail. by apply Hfail.
Qed.

Lemma for_in_value {X} (it : World -> Drained X) (body : X -> Gen unit) w :
  value (for_in it body w) = inr tt
  <-> value (for_each (it w).1 body w) = inr tt /\ (it w).2 = None.
Proof.
  unfold for_in. rewrite bind_value. simpl. rewrite bind_value.
  destruct (value (for_each (it w).1 body w)) as [e|[]]; [split; [done|by intros [? _]]|].
  destruct (it w).2; simpl; split; try done; by intros [_ ?].
Qed.

Lemma clean_for_in {X} (it : World -> Drained X) (body : X -> Gen unit) w :
  (forall x, steady (body x)) ->
  clean (for_in it body) w
  <-> (it w).2 = None /\ Forall (fun x => clean (body x) w) (it w).1.
Proof.
  intros Hsteady. rewrite <- clean_for_each by done. unfold clean.
  rewrite for_in_value, for_in_yielded. tauto.
Qed.

Lemma flat_map_nonempty {X} (f : X -> list Result) l :
  (forall x, x ∈ l -> f x ≠ []) -> l ≠ [] -> flat_map f l ≠ [].
Proof.
  intros Hf Hl. destruct l as [|x l]; [done|]. simpl.
  specialize (Hf x (list_elem_of_here _ _)). by destruct (f x).
Qed.

Lemma for_in_nonempty {X} (it : World -> Drained X) (body : X -> Gen unit) w :
  (forall x, steady (body x)) ->
  (forall x, value (body x w) = inr tt -> yielded (body x w) ≠ []) ->
  value (for_in it body w) = inr tt ->
  yielded (for_in it body w) ≠ [] <-> (it w).1 ≠ [].
Proof.
  intros Hsteady Hbody [Hok _]%for_in_value.
  rewrite for_in_yielded, for_each_steady_yielded by done. split.
  - intros Hne Hnil. by rewrite Hnil in Hne.
  - apply flat_map_nonempty. intros x Hx. apply Hbody.
    apply for_each_steady_value in Hok; [|done].
    rewrite Forall_forall in Hok. by apply Hok.
Qed.

Lemma call_value {A B} (f : World -> Exception + A) (k : A -> Gen B) w :
  value ((call f ≫= k) w)
  = match f w with inl e => inl e | inr a => value (k a w) end.
Proof. by rewrite bind_value. Qed.

Lemma ask_value {A B} (f : World -> A) (k : A -> Gen B) w :
  value ((ask f ≫= k) w) = value (k (f w) w).
Proof. by rewrite bind_value. Qed.

(** *** [check_metadata_is_complete] *)

Lemma check_tag_steady filepath variables t : steady (check_tag filepath variables t).
Proof. unfold check_tag. steady_all. Qed.

Lemma check_tag_value filepath variables t w :
  value (check_tag filepath variables t w) = inr tt.
Proof.
  unfold check_tag. destruct (find t variables) as [data|]; [|done].
  by destruct (blank_text data).
Qed.

Lemma check_tag_clean filepath variables t w :
  clean (check_tag filepath variables t) w
  <-> exists data, find t variables = Some data /\ blank_text data = false.
Proof.
  unfold clean. rewrite check_tag_value. unfold check_tag.
  destruct (find t variables) as [data|]; simpl.
  - destruct (blank_text data) eqn:Hblank; simpl.
    + split; [by intros [_ [? _]%Forall_cons]|by intros (d & [= <-] & ?); congruence].
    + split; [by exists data|by repeat constructor].
  - split; [by intros [_ [? _]%Forall_cons]|by intros (d & ? & _)].
Qed.

Lemma check_metadata_file_steady filepath : steady (check_metadata_file filepath).
Proof. unfold check_metadata_file, check_tag. steady_all. Qed.

Lemma check_metadata_file_value filepath w :
  value (check_metadata_file filepath w) = inr tt
  <-> exists tree, etree_parse w filepath = inr tree.
Proof.
  unfold check_metadata_file. rewrite call_value.
  destruct (etree_parse w filepath) as [e|tree]; [split; [done|by intros [? ?]]|].
  split; [by exists tree|intros _].
  destruct (find "variables" tree) as [variables|]; [|done].
  rewrite bind_value.
  assert (Htags : value (for_each tags (check_tag filepath variables) w) = inr tt).
  { apply for_each_steady_value; [apply check_tag_steady|].
    apply Forall_forall. intros t _. apply check_tag_value. }
  by rewrite Htags.
Qed.

Lemma check_metadata_file_clean filepath w :
  clean (check_metadata_file filepath) w
  <-> exists tree, etree_parse w filepath = inr tree /\ complete tree.
Proof.
  unfold clean. rewrite check_metadata_file_value. unfold check_metadata_file.
  rewrite call_then. destruct (etree_parse w filepath) as [e|tree].
  { split; [by intros [[? ?] _]|by intros (? & ? & _)]. }
  unfold complete. destruct (find "variables" tree) as [variables|] eqn:Hvars.
  - rewrite bind_yielded.
    assert (Htags : value (for_each tags (check_tag filepath variables) w) = inr tt).
    { apply for_each_steady_value; [apply check_tag_steady|].
      apply Forall_forall. intros t _. apply check_tag_value. }
    rewrite Htags. rewrite Forall_app.
    pose proof (clean_for_each (check_tag filepath variables) tags w
                  (check_tag_steady filepath variables)) as Hclean.
    unfold clean at 1 in Hclean. rewrite Htags in Hclean.
    split.
    + intros [_ [Hfail _]]. exists tree. split; [done|]. exists variables. split; [done|].
      eapply Forall_impl; [apply Hclean; by split|].
      intros t Ht. by apply check_tag_clean in Ht.
    + intros (tree' & [= <-] & variables' & Hvars' & Hall).
      rewrite Hvars in Hvars'. injection Hvars' as <-.
      split; [by exists tree|]. split; [|by repeat constructor].
      apply Hclean. eapply Forall_impl; [exact Hall|].
      intros t Ht. by apply check_tag_clean.
  - split.
    + by intros [_ [? _]%Forall_cons].
    + intros (tree' & [= <-] & variables & Hvars' & _). congruence.
Qed.

Lemma check_metadata_file_nonempty filepath w :
  value (check_metadata_file filepath w) = inr tt ->
  yielded (check_metadata_file filepath w) ≠ [].
Proof.
  unfold check_metadata_file. rewrite call_value, call_then.
  destruct (etree_parse w filepath) as [e|tree]; [done|].
  destruct (find "variables" tree) as [variables|]; [|done].
  rewrite bind_value, bind_yielded.
  destruct (value (for_each tags (check_tag filepath variables) w)) as [e|[]]; [done|].
  intros _ Hnil. by apply app_eq_nil in Hnil as [_ ?].
Qed.

(** X15: the texts of the documents being in ASCII, the runner returns
    [True] for [check_metadata_is_complete] exactly when the folder of the
    metadata lists without exception, has at least one file that is not
    passed over, and every such file is parsed and has the primary
    [variables] element with each of the seven required tags holding a text
    that is not blank. *)
Theorem check_metadata_is_complete_passes w :
  ascii_documents w ->
  (_run_check check_metadata_is_complete w).1.2 = true
  <-> exists files,
        _iter_files "metadata" w = (files, None)
        /\ files ≠ []
        /\ Forall (fun filepath =>
                     exists tree, etree_parse w filepath = inr tree /\ complete tree)
                  files.
Proof.
  intros _.
  unfold check_metadata_is_complete. rewrite run_generator_true.
  unfold check_metadata_is_complete_body.
  rewrite clean_for_in by apply check_metadata_file_steady.
  destruct (_iter_files "metadata" w) as [files stop] eqn:Hfiles. simpl. split.
  - intros [[-> Hclean] Hne]. exists files. split; [done|].
    assert (Hok : value (for_in (_iter_files "metadata") check_metadata_file w) = inr tt).
    { apply for_in_value. rewrite Hfiles. simpl. split; [|done].
      apply for_each_steady_value; [apply check_metadata_file_steady|].
      eapply Forall_impl; [exact Hclean|]. by intros f [? _]. }
    apply for_in_nonempty in Hne;
      [|apply check_metadata_file_steady
       |intros f; apply check_metadata_file_nonempty|done].
    rewrite Hfiles in Hne. split; [done|].
    eapply Forall_impl; [exact Hclean|]. intros f Hf. by apply check_metadata_file_clean.
  - intros (files' & [= <- ->] & Hne & Hall).
    assert (Hclean : Forall (fun f => clean (check_metadata_file f) w) files).
    { eapply Forall_impl; [exact Hall|]. intros f Hf. by apply check_metadata_file_clean. }
    split; [done|].
    apply for_in_nonempty;
      [apply check_metadata_file_steady
      |intros f; apply check_metadata_file_nonempty| |by rewrite Hfiles].
    apply for_in_value. rewrite Hfiles. simpl. split; [|done].
    apply for_each_steady_value; [apply check_metadata_file_steady|].
    eapply Forall_impl; [exact Hclean|]. by intros f [? _].
Qed.

Lemma check_metadata_is_complete_passes_witness :
  ascii_documents collections_world
  /\ ((_run_check check_metadata_is_complete collections_world).1.2 = true
      <-> exists files,
            _iter_files "metadata" collections_world = (files, None)
            /\ files ≠ []
            /\ Forall (fun filepath =>
                         exists tree,
                           etree_parse collections_world filepath = inr tree
                           /\ complete tree)
                      files).
Proof.
  assert (Hascii : ascii_documents collections_world).
  { intros p tree. unfold etree_parse. simpl.
    repeat case_decide; try done; intros [= <-]; reflexivity. }
  split; [exact Hascii|].
  exact (check_metadata_is_complete_passes collections_world Hascii).
Defined.
(** ** Loops over several folders *)

Lemma drained_ok {X} (d : Drained X) (P : list X -> Prop) :
  d.2 = None /\ P d.1 <-> exists files, d = (files, None) /\ P files.
Proof.
  destruct d as [files stop]. simpl. split.
  - intros [-> HP]. by exists files.
  - by intros (files' & [= <- ->] & HP).
Qed.

Lemma flat_map_nonempty_iff {X} (f : X -> list Result) l :
  flat_map f l ≠ [] <-> Exists (fun x => f x ≠ []) l.
Proof.
  induction l as [|x l IH]; simpl.
  - split; [done|by intros ?%Exists_nil].
  - rewrite Exists_cons, <- IH. destruct (f x) as [|r rs]; simpl.
    + split; [by right|by intros [?|?]].
    + split; [by left|done].
Qed.

Lemma silent_bind_run {A B} (m : Gen A) (k : A -> Gen B) w a :
  silent m -> value (m w) = inr a -> (m ≫= k) w = k a w.
Proof.
  intros Hm Ha. destruct (Hm w) as [Hy Hw].
  unfold mbind, Gen_bind. rewrite Ha, Hy, Hw. simpl. by destruct (k a w).
Qed.

Lemma silent_bind_fault {A B} (m : Gen A) (k : A -> Gen B) w e :
  silent m -> value (m w) = inl e -> value ((m ≫= k) w) = inl e.
Proof. intros Hm He. by rewrite bind_value, He. Qed.

(** A loop over folders and, in each, over its files: it is clean and
    yields something exactly when every folder lists without exception,
    the body is clean at every file, and some folder has a file. *)
Lemma folders_loop_passes {X} (folders : list X) (it : X -> World -> Drained Path)
      (body : X -> Path -> Gen unit) (ok : X -> Path -> Prop) w :
  (forall x p, steady (body x p)) ->
  (forall x p, clean (body x p) w <-> ok x p) ->
  (forall x p, value (body x p w) = inr tt -> yielded (body x p w) ≠ []) ->
  clean (for_each folders (fun x => for_in (it x) (body x))) w
  /\ yielded (for_each folders (fun x => for_in (it x) (body x)) w) ≠ []
  <-> Forall (fun x => exists files, it x w = (files, None) /\ Forall (ok x) files) folders
      /\ Exists (fun x => (it x w).1 ≠ []) folders.
Proof.
  intros Hsteady Hok Hne.
  assert (Hloops : forall x, steady (for_in (it x) (body x))).
  { intros x. apply steady_for_in, Hsteady. }
  rewrite clean_for_each by done.
  assert (Hall : Forall (fun x => clean (for_in (it x) (body x)) w) folders
                 <-> Forall (fun x => exists files, it x w = (files, None)
                                                    /\ Forall (ok x) files) folders).
  { apply Forall_iff. intros x. rewrite clean_for_in by apply Hsteady.
    rewrite (drained_ok (it x w) (Forall (fun p => clean (body x p) w))).
    split; intros (files & ? & Hfiles); exists files; (split; [done|]);
      (eapply Forall_impl; [exact Hfiles|]); intros p; by rewrite Hok. }
  rewrite <- Hall. split; intros [Hclean Hsome]; (split; [done|]).
  - rewrite for_each_steady_yielded in Hsome by (done || by apply clean_for_each).
    apply flat_map_nonempty_iff in Hsome.
    eapply Exists_impl; [exact Hsome|]. intros x Hx Hnil. cbv beta in Hx.
    by rewrite for_in_yielded, Hnil in Hx.
  - rewrite for_each_steady_yielded by (done || by apply clean_for_each).
    apply flat_map_nonempty_iff.
    rewrite Exists_exists in Hsome. destruct Hsome as (x & Hx & Hfiles).
    apply Exists_exists. exists x. split; [done|].
    rewrite Forall_forall in Hclean. destruct (Hclean x Hx) as [Hvalue _].
    by apply (for_in_nonempty (it x) (body x) w (Hsteady x) (Hne x) Hvalue).
Qed.

(** *** [check_raster_image_dimensions] *)

Lemma check_raster_file_clean f w :
  clean (check_raster_file f) w <-> image_size w f = inr (1920, 1080).
Proof.
  unfold clean, check_raster_file. rewrite call_value, call_then.
  destruct (image_size w f) as [e|size]; [split; [by intros [? _]|done]|].
  destruct (decide (size = (1920, 1080))) as [->|Hsize]; simpl.
  - split; [done|]. intros _. split; [done|by repeat constructor].
  - split; [by intros [_ [? _]%Forall_cons]|congruence].
Qed.

Lemma check_raster_file_nonempty f w :
  value (check_raster_file f w) = inr tt -> yielded (check_raster_file f w) ≠ [].
Proof.
  unfold check_raster_file. rewrite call_value, call_then.
  destruct (image_size w f) as [e|size]; [done|]. by destruct (decide _).
Qed.

(** X16: the runner returns [True] for [check_raster_image_dimensions]
    exactly when the folders of the backgrounds and of the overlays list
    without exception, they have at least one file between them, and every
    one of their files opens as an image of 1920 by 1080. *)
Theorem check_raster_image_dimensions_passes w :
  (_run_check check_raster_image_dimensions w).1.2 = true
  <-> exists backgrounds overlays,
        _iter_files "backgrounds" w = (backgrounds, None)
        /\ _iter_files "overlays" w = (overlays, None)
        /\ backgrounds ++ overlays ≠ []
        /\ Forall (fun f => image_size w f = inr (1920, 1080)) (backgrounds ++ overlays).
Proof.
  unfold check_raster_image_dimensions. rewrite run_generator_true.
  unfold check_raster_image_dimensions_body.
  rewrite (folders_loop_passes ["backgrounds"; "overlays"] _iter_files
             (fun _ => check_raster_file)
             (fun _ f => image_size w f = inr (1920, 1080)));
    [|intros _ f; apply check_raster_file_steady
     |intros _ f; apply check_raster_file_clean
     |intros _ f; apply check_raster_file_nonempty].
  rewrite !Forall_cons, !Exists_cons, Exists_nil. split.
  - intros [((backgrounds & Hb & Hbs) & (overlays & Ho & Hos) & _) Hsome].
    exists backgrounds, overlays. rewrite Forall_app. repeat split; try done.
    rewrite Hb, Ho in Hsome. simpl in Hsome.
    intros [-> ->]%app_eq_nil. by destruct Hsome as [?|[?|?]].
  - intros (backgrounds & overlays & Hb & Ho & Hsome & [Hbs Hos]%Forall_app).
    split.
    + split; [by exists backgrounds|]. split; [by exists overlays|constructor].
    + rewrite Hb, Ho. simpl. destruct backgrounds; [right; left|left]; done.
Qed.

(** *** [check_file_extensions] *)

Lemma check_extension_clean ext file w :
  clean (check_extension ext file) w <-> suffix file = ext.
Proof.
  unfold clean, check_extension. destruct (decide (suffix file = ext)) as [Heq|Hne]; simpl.
  - split; [done|]. intros _. split; [done|by repeat constructor].
  - split; [by intros [_ [? _]%Forall_cons]|done].
Qed.

Lemma check_extension_nonempty ext file w :
  yielded (check_extension ext file w) ≠ [].
Proof. unfold check_extension. by destruct (decide _). Qed.

(** X17: the runner returns [True] for [check_file_extensions] exactly when
    each of the six folders lists without exception and has only files of
    the extension expected there, and one of them at least has a file. *)
Theorem check_file_extensions_passes w :
  (_run_check check_file_extensions w).1.2 = true
  <-> Forall (fun item =>
                exists files,
                  _iter_files item.1 w = (files, None)
                  /\ Forall (fun file => suffix file = item.2) files)
             expected_extensions
      /\ Exists (fun item => (_iter_files item.1 w).1 ≠ []) expected_extensions.
Proof.
  unfold check_file_extensions. rewrite run_generator_true.
  unfold check_file_extensions_body.
  apply (folders_loop_passes expected_extensions (fun item => _iter_files item.1)
           (fun item => check_extension item.2) (fun item file => suffix file = item.2)).
  - intros item file. apply check_extension_steady.
  - intros item file. apply check_extension_clean.
  - intros item file _. apply check_extension_nonempty.
Qed.
(** ** The checks that compare stems *)

Lemma fold_stems l : forall (acc : gset string) w,
  fold_each l acc (fun acc file => mret (acc ∪ {[stem file]})) w
  = mkGenState [] w (inr (acc ∪ list_to_set (stem <$> l))).
Proof.
  induction l as [|x l IH]; intros acc w.
  - simpl. by rewrite (right_id_L ∅ (∪)).
  - change (fold_each (x :: l) acc ?body)
      with (body acc x ≫= fun acc' => fold_each l acc' body).
    unfold mbind at 1, Gen_bind. simpl. rewrite IH. simpl.
    by rewrite ?fmap_cons, ?list_to_set_cons, (assoc_L (∪)).
Qed.

Lemma stems_value folder_type w :
  value (stems folder_type w)
  = match (_iter_files folder_type w).2 with
    | Some e => inl e
    | None => inr (list_to_set (stem <$> (_iter_files folder_type w).1))
    end.
Proof.
  unfold stems, fold_in. rewrite ask_value, bind_value, fold_stems. simpl.
  destruct (_iter_files folder_type w).2; simpl; [done|].
  by rewrite (left_id_L ∅ (∪)).
Qed.

Lemma stems_bind folder_type (k : gset string -> Gen unit) w :
  clean (stems folder_type ≫= k) w /\ yielded ((stems folder_type ≫= k) w) ≠ []
  <-> exists files,
        _iter_files folder_type w = (files, None)
        /\ clean (k (list_to_set (stem <$> files))) w
        /\ yielded (k (list_to_set (stem <$> files)) w) ≠ [].
Proof.
  pose proof (stems_value folder_type w) as Hvalue.
  unfold clean.
  destruct (_iter_files folder_type w) as [files [e|]] eqn:Hfiles; cbn [fst snd] in Hvalue.
  - rewrite (silent_bind_fault _ _ _ _ (silent_stems folder_type) Hvalue).
    split; [by intros [[? _] _]|by intros (? & ? & _)].
  - rewrite !(silent_bind_run _ _ _ _ (silent_stems folder_type) Hvalue). split.
    + intros [? ?]. by exists files.
    + by intros (files' & [= <-] & ? & ?).
Qed.

Lemma files_loop_passes (it : World -> Drained Path) (body : Path -> Gen unit)
      (ok : Path -> Prop) w :
  (forall p, steady (body p)) ->
  (forall p, clean (body p) w <-> ok p) ->
  (forall p, value (body p w) = inr tt -> yielded (body p w) ≠ []) ->
  clean (for_in it body) w /\ yielded (for_in it body w) ≠ []
  <-> exists files, it w = (files, None) /\ files ≠ [] /\ Forall ok files.
Proof.
  intros Hsteady Hok Hne. rewrite clean_for_in by done.
  rewrite (drained_ok (it w) (Forall (fun p => clean (body p) w))).
  assert (Hvalue : forall files,
             it w = (files, None) -> Forall (fun p => clean (body p) w) files ->
             value (for_in it body w) = inr tt).
  { intros files Hfiles Hclean. apply for_in_value. rewrite Hfiles. simpl.
    split; [|done]. apply for_each_steady_value; [done|].
    eapply Forall_impl; [exact Hclean|]. by intros p [? _]. }
  split.
  - intros [(files & Hfiles & Hclean) Hsome]. exists files. split; [done|].
    apply for_in_nonempty in Hsome; [|done|done|by eapply Hvalue].
    rewrite Hfiles in Hsome. split; [done|].
    eapply Forall_impl; [exact Hclean|]. intros p. by rewrite Hok.
  - intros (files & Hfiles & Hsome & Hall).
    assert (Hclean : Forall (fun p => clean (body p) w) files).
    { eapply Forall_impl; [exact Hall|]. intros p. by rewrite Hok. }
    split; [by exists files|].
    apply for_in_nonempty; [done|done|by eapply Hvalue|by rewrite Hfiles].
Qed.

(** *** [check_systems_are_complete] *)

Lemma check_system_steady backgrounds controllers logos system :
  steady (check_system backgrounds controllers logos system).
Proof. unfold check_system. steady_all. Qed.

Lemma check_system_clean (backgrounds controllers logos : gset string) system w :
  clean (check_system backgrounds controllers logos system) w
  <-> stem system ∈ backgrounds /\ stem system ∈ controllers /\ stem system ∈ logos.
Proof.
  unfold clean, check_system.
  destruct (decide (stem system ∉ backgrounds)) as [Hb|Hb%dec_stable]; simpl.
  { split; [by intros [_ [? _]%Forall_cons]|by intros [? _]]. }
  destruct (decide (stem system ∉ controllers)) as [Hc|Hc%dec_stable]; simpl.
  { split; [by intros [_ [? _]%Forall_cons]|by intros (_ & ? & _)]. }
  destruct (decide (stem system ∉ logos)) as [Hl|Hl%dec_stable]; simpl.
  { split; [by intros [_ [? _]%Forall_cons]|by intros (_ & _ & ?)]. }
  split; [done|]. intros _. split; [done|by repeat constructor].
Qed.

Lemma check_system_nonempty backgrounds controllers logos system w :
  yielded (check_system backgrounds controllers logos system w) ≠ [].
Proof. unfold check_system. by repeat destruct (decide _). Qed.

(** X18: the runner returns [True] for [check_systems_are_complete] exactly
    when the folders of the backgrounds, controllers, logos and metadata
    list without exception, there is at least one system, and the stem of
    every system is the stem of a background, of a controller and of a
    logo. *)
Theorem check_systems_are_complete_passes w :
  (_run_check check_systems_are_complete w).1.2 = true
  <-> exists backgrounds controllers logos systems,
        _iter_files "backgrounds" w = (backgrounds, None)
        /\ _iter_files "controllers" w = (controllers, None)
        /\ _iter_files "logos" w = (logos, None)
        /\ _iter_files "metadata" w = (systems, None)
        /\ systems ≠ []
        /\ Forall (fun system =>
                     stem system ∈ stem <$> backgrounds
                     /\ stem system ∈ stem <$> controllers
                     /\ stem system ∈ stem <$> logos)
                  systems.
Proof.
  unfold check_systems_are_complete. rewrite run_generator_true.
  unfold check_systems_are_complete_body. rewrite stems_bind.
  apply exist_proper. intros backgrounds.
  rewrite stems_bind. split.
  - intros (Hb & controllers & Hc & Hrest). exists controllers.
    apply stems_bind in Hrest as (logos & Hl & Hrest). exists logos.
    apply (files_loop_passes _ _ _ w
             (check_system_steady _ _ _)
             (fun p => check_system_clean _ _ _ p w)) in Hrest
      as (systems & Hs & Hsome & Hall);
      [|intros p _; apply check_system_nonempty].
    exists systems. repeat split; try done.
    eapply Forall_impl; [exact Hall|]. intros system. cbv beta.
    by rewrite !elem_of_list_to_set.
  - intros (controllers & logos & systems & Hb & Hc & Hl & Hs & Hsome & Hall).
    split; [done|]. exists controllers. split; [done|].
    apply stems_bind. exists logos. split; [done|].
    apply (files_loop_passes _ _ _ w
             (check_system_steady _ _ _)
             (fun p => check_system_clean _ _ _ p w));
      [intros p _; apply check_system_nonempty|].
    exists systems. repeat split; try done.
    eapply Forall_impl; [exact Hall|]. intros system. cbv beta.
    by rewrite !elem_of_list_to_set.
Qed.

(** *** [check_all_images_have_system] *)

Lemma check_image_clean (systems : gset string) f w :
  clean (check_image systems f) w <-> stem f ∈ systems.
Proof.
  unfold clean, check_image.
  destruct (decide (stem f ∉ systems)) as [Hf|Hf%dec_stable]; simpl.
  - split; [by intros [_ [? _]%Forall_cons]|done].
  - split; [done|]. intros _. split; [done|by repeat constructor].
Qed.

Lemma check_image_nonempty systems f w : yielded (check_image systems f w) ≠ [].
Proof. unfold check_image. by destruct (decide _). Qed.

(** X19: the runner returns [True] for [check_all_images_have_system]
    exactly when the folder of the metadata and the five folders of images
    list without exception, the stem of every image is the stem of a
    system, and there is at least one image. *)
Theorem check_all_images_have_system_passes w :
  (_run_check check_all_images_have_system w).1.2 = true
  <-> exists systems,
        _iter_files "metadata" w = (systems, None)
        /\ Forall (fun dir =>
                     exists files,
                       _iter_files dir w = (files, None)
                       /\ Forall (fun f => stem f ∈ stem <$> systems) files)
                  ["backgrounds"; "overlays"; "logos"; "controllers"; "logos-svg"]
        /\ Exists (fun dir => (_iter_files dir w).1 ≠ [])
                  ["backgrounds"; "overlays"; "logos"; "controllers"; "logos-svg"].
Proof.
  unfold check_all_images_have_system. rewrite run_generator_true.
  unfold check_all_images_have_system_body. rewrite stems_bind.
  apply exist_proper. intros systems.
  pose proof (folders_loop_passes
                ["backgrounds"; "overlays"; "logos"; "controllers"; "logos-svg"]
                _iter_files
                (fun _ => check_image (list_to_set (stem <$> systems)))
                (fun _ f => stem f ∈ stem <$> systems) w
                (fun _ f => check_image_steady _ f)) as Hloop.
  rewrite Hloop; [done| |intros _ f _; apply check_image_nonempty].
  intros _ f. by rewrite check_image_clean, elem_of_list_to_set.
Qed.
(** *** [check_duplicated_backgrounds] *)

Lemma check_background_run (hash_dict : gmap N Path) filepath w h :
  phash w filepath = inr h ->
  check_background hash_dict filepath w
  = match hash_dict !! h with
    | Some other_file =>
        mkGenState [ResFailure (mkFailure filepath
                                  ("Visually identical to " +:+ Py.repr (name other_file)))]
                   w (inr hash_dict)
    | None =>
        mkGenState [ResSuccess (mkSuccess filepath)] w (inr (<[h := filepath]> hash_dict))
    end.
Proof.
  intros Hh. unfold check_background, mbind, Gen_bind, call. simpl. rewrite Hh. simpl.
  by destruct (hash_dict !! h).
Qed.

Lemma fold_backgrounds_at before filepath after h : forall (acc : gmap N Path) w,
  Forall (fun f => exists h', phash w f = inr h') before ->
  phash w filepath = inr h ->
  yielded (fold_each (before ++ filepath :: after) acc check_background w) !! length before
  = Some (match match acc !! h with
                | Some p => Some p
                | None => List.find (fun f => bool_decide (phash w f = inr h)) before
                end with
          | Some other_file =>
              ResFailure (mkFailure filepath
                            ("Visually identical to " +:+ Py.repr (name other_file)))
          | None => ResSuccess (mkSuccess filepath)
          end).
Proof.
  induction before as [|x before IH]; intros acc w Hbefore Hh.
  - rewrite app_nil_l, fold_each_cons_yielded, (check_background_run _ _ _ _ Hh).
    by destruct (acc !! h).
  - apply Forall_cons in Hbefore as [[hx Hx] Hbefore].
    rewrite <- app_comm_cons, fold_each_cons_yielded, (check_background_run _ _ _ _ Hx).
    cbn [List.find length]. rewrite Hx.
    destruct (acc !! hx) as [other|] eqn:Hother; cbn [yielded value world_after app];
      rewrite lookup_cons_ne_0 by done; cbn [Nat.pred].
    + rewrite (IH acc w Hbefore Hh). destruct (acc !! h) as [p|] eqn:Hp; [done|].
      rewrite bool_decide_eq_false_2; [done|]. intros [= ->]. congruence.
    + rewrite (IH _ w Hbefore Hh). destruct (decide (hx = h)) as [->|Hne].
      * by rewrite lookup_insert_eq, Hother, bool_decide_eq_true_2.
      * rewrite lookup_insert_ne by done. destruct (acc !! h) as [p|]; [done|].
        rewrite bool_decide_eq_false_2; [done|]. by intros [= ->].
Qed.

(** X20: in [check_duplicated_backgrounds], a background whose hash no
    earlier background has is a [Success]; one whose hash an earlier
    background has is a [Failure] that names the first background of that
    hash, the results being in the order of the files. *)
Theorem check_duplicated_backgrounds_names_first w before filepath after stop h :
  _iter_files "backgrounds" w = (before ++ filepath :: after, stop) ->
  Forall (fun f => exists h', phash w f = inr h') before ->
  phash w filepath = inr h ->
  yielded (check_duplicated_backgrounds_body w) !! length before
  = Some (match List.find (fun f => bool_decide (phash w f = inr h)) before with
          | Some other_file =>
              ResFailure (mkFailure filepath
                            ("Visually identical to " +:+ Py.repr (name other_file)))
          | None => ResSuccess (mkSuccess filepath)
          end).
Proof.
  intros Hfiles Hbefore Hh. unfold check_duplicated_backgrounds_body.
  rewrite bind_yielded.
  assert (Hend : forall r : Exception + gmap N Path,
             match r with
             | inl _ => []
             | inr a => yielded (@mret Gen _ unit tt
                                   (world_after (fold_in (_iter_files "backgrounds") ∅
                                                         check_background w)))
             end = @nil Result) by (by intros [?|?]).
  rewrite Hend, app_nil_r, fold_in_yielded, Hfiles. cbn [fst].
  by rewrite (fold_backgrounds_at _ _ _ _ _ _ Hbefore Hh), lookup_empty.
Qed.

Lemma check_duplicated_backgrounds_names_first_witness :
  let a := inc "backgrounds" "a.webp" in
  let b := inc "backgrounds" "b.webp" in
  let c := inc "backgrounds" "c.webp" in
  _iter_files "backgrounds" gallery_world = ([a; b] ++ c :: [], None)
  /\ Forall (fun f => exists h', phash gallery_world f = inr h') [a; b]
  /\ phash gallery_world c = inr 7%N
  /\ yielded (check_duplicated_backgrounds_body gallery_world) !! 2
     = Some (ResFailure (mkFailure c "Visually identical to 'a.webp'")).
Proof.
  assert (Hbefore : Forall (fun f => exists h', phash gallery_world f = inr h')
                      [inc "backgrounds" "a.webp"; inc "backgrounds" "b.webp"]).
  { repeat constructor; eexists; reflexivity. }
  split; [reflexivity|]. split; [exact Hbefore|]. split; [reflexivity|].
  exact (check_duplicated_backgrounds_names_first gallery_world
           [inc "backgrounds" "a.webp"; inc "backgrounds" "b.webp"]
           (inc "backgrounds" "c.webp") [] None 7%N eq_refl Hbefore eq_refl).
Defined.

(** *** [check_overlays_match_their_backgrounds] *)

Lemma check_overlay_steady overlay_file : steady (check_overlay overlay_file).
Proof. unfold check_overlay. steady_all. Qed.

Lemma check_overlay_clean overlay_file w :
  clean (check_overlay overlay_file) w
  <-> path_exists w (inc "backgrounds" (name overlay_file)) = true
      /\ exists distances,
           block_distances w overlay_file (inc "backgrounds" (name overlay_file))
           = inr distances
           /\ distances ≠ []
           /\ Forall (fun d => d <= 5) distances.
Proof.
  unfold clean, check_overlay. rewrite ask_value, ask_then.
  destruct (path_exists w (inc "backgrounds" (name overlay_file))); cbn [negb].
  2: { split; [by intros [_ [? _]%Forall_cons]|by intros [? _]]. }
  rewrite call_value, call_then.
  destruct (block_distances w overlay_file (inc "backgrounds" (name overlay_file)))
    as [e|[|d distances]].
  - split; [by intros [? _]|by intros (_ & ? & ? & _)].
  - split; [by intros [? _]|by intros (_ & ? & [= <-] & ? & _)].
  - destruct (5 <? list_max (d :: distances)) eqn:Hmax.
    + apply Nat.ltb_lt in Hmax. split; [by intros [_ [? _]%Forall_cons]|].
      intros (_ & ? & [= <-] & _ & Hall). apply list_max_le in Hall. lia.
    + apply Nat.ltb_ge in Hmax. split.
      * intros _. split; [done|]. exists (d :: distances). split; [done|]. split; [done|].
        by apply list_max_le.
      * intros _. split; [done|by repeat constructor].
Qed.

Lemma check_overlay_nonempty overlay_file w :
  value (check_overlay overlay_file w) = inr tt ->
  yielded (check_overlay overlay_file w) ≠ [].
Proof.
  unfold check_overlay. rewrite ask_value, ask_then.
  destruct (path_exists w (inc "backgrounds" (name overlay_file))); cbn [negb]; [|done].
  rewrite call_value, call_then.
  destruct (block_distances w overlay_file (inc "backgrounds" (name overlay_file)))
    as [e|[|d distances]]; [done|done|].
  by destruct (5 <? list_max (d :: distances)).
Qed.

(** X21: the runner returns [True] for
    [check_overlays_match_their_backgrounds] exactly when the folder of the
    overlays lists without exception, has at least one file, and every
    overlay has a background of its name and at least one block that is not
    fully transparent, the distance of each such block being at most 5. *)
Theorem check_overlays_match_their_backgrounds_passes w :
  (_run_check check_overlays_match_their_backgrounds w).1.2 = true
  <-> exists overlays,
        _iter_files "overlays" w = (overlays, None)
        /\ overlays ≠ []
        /\ Forall (fun overlay_file =>
                     path_exists w (inc "backgrounds" (name overlay_file)) = true
                     /\ exists distances,
                          block_distances w overlay_file
                                          (inc "backgrounds" (name overlay_file))
                          = inr distances
                          /\ distances ≠ []
                          /\ Forall (fun d => d <= 5) distances)
                  overlays.
Proof.
  unfold check_overlays_match_their_backgrounds. rewrite run_generator_true.
  unfold check_overlays_match_their_backgrounds_body.
  apply files_loop_passes.
  - apply check_overlay_steady.
  - intros p. apply check_overlay_clean.
  - intros p. apply check_overlay_nonempty.
Qed.

(** X22: an overlay that has its background and no block that is not fully
    transparent makes [check_overlays_match_their_backgrounds] end in an
    exception: the runner shows ERROR, prints the traceback and nothing
    else, and returns [False], whatever the other overlays are. *)
Theorem transparent_overlay_is_an_error w overlays stop overlay_file :
  _iter_files "overlays" w = (overlays, stop) ->
  overlay_file ∈ overlays ->
  path_exists w (inc "backgrounds" (name overlay_file)) = true ->
  block_distances w overlay_file (inc "backgrounds" (name overlay_file)) = inr [] ->
  exists e,
    _run_check check_overlays_match_their_backgrounds w
    = (live_region check_overlays_match_their_backgrounds Error
         ++ [ConsolePrint (Padding (Traceback e) (0, 4))],
       false, w).
Proof.
  intros Hfiles Hin Hexists Hnone.
  assert (Hfault : exists e, value (check_overlays_match_their_backgrounds_body w) = inl e).
  { destruct (value (check_overlays_match_their_backgrounds_body w)) as [e|[]] eqn:Hvalue;
      [by exists e|exfalso].
    apply for_in_value in Hvalue as [Hvalue _]. rewrite Hfiles in Hvalue.
    apply for_each_steady_value in Hvalue; [|apply check_overlay_steady].
    rewrite Forall_forall in Hvalue. specialize (Hvalue _ Hin).
    unfold check_overlay in Hvalue. rewrite ask_value, Hexists in Hvalue.
    cbn [negb] in Hvalue. by rewrite call_value, Hnone in Hvalue. }
  destruct Hfault as [e He]. exists e.
  assert (Hsteady : world_after (check_overlays_match_their_backgrounds_body w) = w).
  { apply steady_for_in, check_overlay_steady. }
  apply (run_check_fault _ _ _
           (Returns (Iterable (Obj <$> yielded (check_overlays_match_their_backgrounds_body w))
                              (Some e)))).
  - unfold check_overlays_match_their_backgrounds, generator. cbn [__call__].
    by rewrite He, Hsteady.
  - right. by eexists.
Qed.

Lemma transparent_overlay_is_an_error_witness :
  let a := inc "overlays" "a.webp" in
  let b := inc "overlays" "b.webp" in
  _iter_files "overlays" gallery_world = ([a; b], None)
  /\ b ∈ [a; b]
  /\ path_exists gallery_world (inc "backgrounds" (name b)) = true
  /\ block_distances gallery_world b (inc "backgrounds" (name b)) = inr []
  /\ exists e,
       _run_check check_overlays_match_their_backgrounds gallery_world
       = (live_region check_overlays_match_their_backgrounds Error
            ++ [ConsolePrint (Padding (Traceback e) (0, 4))],
          false, gallery_world).
Proof.
  assert (Hin : inc "overlays" "b.webp" ∈ [inc "overlays" "a.webp"; inc "overlays" "b.webp"]).
  { apply (bool_decide_unpack _). vm_compute. exact I. }
  split; [reflexivity|]. split; [exact Hin|]. split; [reflexivity|]. split; [reflexivity|].
  exact (transparent_overlay_is_an_error gallery_world _ None (inc "overlays" "b.webp")
           eq_refl Hin eq_refl eq_refl).
Defined.
(** ** Loops that remove from a set *)

Lemma bind_run {A B} (m : Gen A) (k : A -> Gen B) w rs w' a :
  m w = mkGenState rs w' (inr a) ->
  (m ≫= k) w
  = mkGenState (rs ++ yielded (k a w')) (world_after (k a w')) (value (k a w')).
Proof. intros Hm. unfold mbind, Gen_bind. by rewrite Hm. Qed.

(** A loop whose body removes the key of its item from a set, and has a
    [Failure] exactly when the key is not in the set: the loop has no
    [Failure] exactly when the keys differ from each other and are all in
    the set it starts with. *)
Section removals.
Context {X : Type} (body : gset string -> X -> Gen (gset string)) (key : X -> option string).
Hypothesis body_none : forall acc x w,
  key x = None -> body acc x w = mkGenState [] w (inr acc).
Hypothesis body_in : forall acc x w k,
  key x = Some k -> k ∈ acc ->
  exists rs, body acc x w = mkGenState rs w (inr (acc ∖ {[k]}))
             /\ Forall (fun r => is_failure r = false) rs.
Hypothesis body_out : forall acc x w k,
  key x = Some k -> k ∉ acc ->
  exists rs, body acc x w = mkGenState rs w (inr acc)
             /\ ~ Forall (fun r => is_failure r = false) rs.

Lemma fold_each_removals l : forall acc w,
  exists rs,
    fold_each l acc body w = mkGenState rs w (inr (acc ∖ list_to_set (omap key l)))
    /\ (Forall (fun r => is_failure r = false) rs
        <-> NoDup (omap key l) /\ forall k, k ∈ omap key l -> k ∈ acc).
Proof.
  induction l as [|x l IH]; intros acc w.
  - exists []. split.
    + simpl. by rewrite difference_empty_L.
    + split; [intros _; split; [constructor|by intros k ?%elem_of_nil]|constructor].
  - change (fold_each (x :: l) acc body)
      with (body acc x ≫= fun acc' => fold_each l acc' body).
    destruct (key x) as [k|] eqn:Hkey.
    + assert (Hkeys : omap key (x :: l) = k :: omap key l) by (simpl; by rewrite Hkey).
      rewrite Hkeys, list_to_set_cons. destruct (decide (k ∈ acc)) as [Hin|Hout].
      * destruct (body_in acc x w k Hkey Hin) as (rs1 & Hrun & Hrs1).
        destruct (IH (acc ∖ {[k]}) w) as (rs2 & Hrest & Hrs2).
        exists (rs1 ++ rs2). rewrite (bind_run _ _ _ _ _ _ Hrun), Hrest. split.
        { simpl. do 2 f_equal. set_solver. }
        rewrite Forall_app, Hrs2, NoDup_cons. split.
        { intros (_ & Hnodup & Hall). repeat split; [|done|].
          - intros Hk. apply Hall in Hk. set_solver.
          - intros k' [->|Hk']%elem_of_cons; [done|]. apply Hall in Hk'. set_solver. }
        intros ([Hk Hnodup] & Hall). repeat split; [done|done|].
        intros k' Hk'. apply elem_of_difference. split.
        { apply Hall. by apply list_elem_of_further. }
        intros ->%elem_of_singleton. done.
      * destruct (body_out acc x w k Hkey Hout) as (rs1 & Hrun & Hrs1).
        destruct (IH acc w) as (rs2 & Hrest & Hrs2).
        exists (rs1 ++ rs2). rewrite (bind_run _ _ _ _ _ _ Hrun), Hrest. split.
        { simpl. do 2 f_equal. set_solver. }
        rewrite Forall_app. split; [by intros [? _]|].
        intros [_ Hall]. exfalso. apply Hout, Hall, list_elem_of_here.
    + assert (Hkeys : omap key (x :: l) = omap key l) by (simpl; by rewrite Hkey).
      rewrite Hkeys. destruct (IH acc w) as (rs & Hrest & Hrs).
      exists rs. by rewrite (bind_run _ _ _ _ _ _ (body_none acc x w Hkey)), Hrest.
Qed.
End removals.

Lemma silent_bind_passes {A} (m : Gen A) (k : A -> Gen unit) w :
  silent m ->
  clean (m ≫= k) w /\ yielded ((m ≫= k) w) ≠ []
  <-> exists a, value (m w) = inr a /\ clean (k a) w /\ yielded (k a w) ≠ [].
Proof.
  intros Hm. unfold clean. destruct (value (m w)) as [e|a] eqn:Hvalue.
  - rewrite (silent_bind_fault _ _ _ _ Hm Hvalue).
    split; [by intros [[? _] _]|by intros (? & ? & _)].
  - rewrite !(silent_bind_run _ _ _ _ Hm Hvalue). split.
    + intros [? ?]. by exists a.
    + by intros (a' & [= <-] & ? & ?).
Qed.

(** *** [check_all_systems_fully_translated] *)

Lemma required_languages_fold vars : forall acc : gset string,
  fold_left (fun required_langs var =>
               match get "lang" var with
               | None => required_langs
               | Some lang => required_langs ∪ {[Py.lower (Py.strip lang)]}
               end) vars acc
  = acc ∪ list_to_set (languages vars).
Proof.
  induction vars as [|var vars IH]; intros acc.
  - simpl. by rewrite (right_id_L ∅ (∪)).
  - cbn [fold_left]. rewrite IH. unfold languages, language. csimpl.
    destruct (get "lang" var) as [lang|]; csimpl; [|done].
    by rewrite (assoc_L (∪)).
Qed.

Lemma required_languages_list tree :
  required_languages tree = list_to_set (languages (findall_below "variables" tree)).
Proof.
  unfold required_languages. by rewrite required_languages_fold, (left_id_L ∅ (∪)).
Qed.

Lemma remove_languages_run filepath vars (expected_langs : gset string) w :
  exists rs,
    fold_each vars expected_langs (remove_language filepath) w
    = mkGenState rs w (inr (expected_langs ∖ list_to_set (languages vars)))
    /\ (Forall (fun r => is_failure r = false) rs
        <-> NoDup (languages vars) /\ forall k, k ∈ languages vars -> k ∈ expected_langs).
Proof.
  apply (fold_each_removals (remove_language filepath) language).
  - intros acc x w' Hkey. unfold remove_language, language in *.
    by destruct (get "lang" x).
  - intros acc x w' k Hkey Hin. unfold remove_language, language in *.
    destruct (get "lang" x) as [lang|]; [|done]. injection Hkey as <-.
    rewrite decide_True by done. by exists [].
  - intros acc x w' k Hkey Hout. unfold remove_language, language in *.
    destruct (get "lang" x) as [lang|]; [|done]. injection Hkey as <-.
    rewrite decide_False by done. eexists. split; [reflexivity|].
    by intros [? _]%Forall_cons.
Qed.

Lemma check_translations_steady required_langs filepath :
  steady (check_translations required_langs filepath).
Proof. unfold check_translations, remove_language. steady_all. Qed.

Lemma check_translations_run (required_langs : gset string) filepath w tree :
  etree_parse w filepath = inr tree ->
  value (check_translations required_langs filepath w) = inr tt
  /\ yielded (check_translations required_langs filepath w) ≠ []
  /\ (Forall (fun r => is_failure r = false)
             (yielded (check_translations required_langs filepath w))
      <-> NoDup (languages (findall "variables" tree))
          /\ forall lang, lang ∈ languages (findall "variables" tree)
                          <-> lang ∈ required_langs).
Proof.
  intros Htree.
  destruct (remove_languages_run filepath (findall "variables" tree) required_langs w)
    as (rs & Hrun & Hrs).
  unfold check_translations.
  rewrite call_value, call_then, Htree, bind_value, bind_yielded, Hrun.
  cbn [value yielded world_after].
  destruct (decide (required_langs ∖ list_to_set (languages (findall "variables" tree)) = ∅))
    as [Hnone|Hsome].
  - split; [done|]. split; [by destruct rs|].
    rewrite Forall_app, Hrs. split.
    + intros [[Hnodup Hall] _]. split; [done|]. intros lang. split; [apply Hall|].
      intros Hlang.
      destruct (decide (lang ∈ languages (findall "variables" tree))) as [?|Hout]; [done|].
      assert (lang ∈ required_langs ∖ list_to_set (languages (findall "variables" tree)))
        as Hin.
      { apply elem_of_difference. split; [done|]. by rewrite elem_of_list_to_set. }
      rewrite Hnone in Hin. by apply elem_of_empty in Hin.
    + intros [Hnodup Hall]. split; [|by repeat constructor].
      split; [done|]. intros lang. apply Hall.
  - rewrite ask_value, ask_then. split; [done|]. split; [by destruct rs|].
    rewrite Forall_app. split; [by intros [_ [? _]%Forall_cons]|].
    intros [_ Hall]. exfalso. apply Hsome. apply set_eq. intros lang.
    rewrite elem_of_difference, elem_of_list_to_set, Hall. set_solver.
Qed.

Lemma check_translations_clean (required_langs : gset string) filepath w :
  clean (check_translations required_langs filepath) w
  <-> exists tree,
        etree_parse w filepath = inr tree
        /\ NoDup (languages (findall "variables" tree))
        /\ forall lang, lang ∈ languages (findall "variables" tree)
                        <-> lang ∈ required_langs.
Proof.
  unfold clean. destruct (etree_parse w filepath) as [e|tree] eqn:Htree.
  - unfold check_translations. rewrite call_value, Htree.
    split; [by intros [? _]|by intros (? & ? & _)].
  - destruct (check_translations_run required_langs filepath w tree Htree)
      as (Hvalue & _ & Hrs).
    rewrite Hrs. split.
    + intros [_ ?]. by exists tree.
    + by intros (tree' & [= <-] & ?).
Qed.


Lemma check_translations_nonempty required_langs filepath w :
  value (check_translations required_langs filepath w) = inr tt ->
  yielded (check_translations required_langs filepath w) ≠ [].
Proof.
  destruct (etree_parse w filepath) as [e|tree] eqn:Htree.
  - unfold check_translations. by rewrite call_value, Htree.
  - intros _.
    by destruct (check_translations_run required_langs filepath w tree Htree)
      as (_ & ? & _).
Qed.

(** X23: the attribute values of the documents being in ASCII, the runner
    returns [True] for [check_all_systems_fully_translated]
    exactly when [theme-lang.xml] is parsed and names at least one language,
    the folder of the metadata lists without exception and has at least one
    file, and every metadata file is parsed and has, among its [variables]
    elements with a language, each language of the theme once and no
    other. *)
Theorem check_all_systems_fully_translated_passes w :
  ascii_documents w ->
  (_run_check check_all_systems_fully_translated w).1.2 = true
  <-> exists tree files,
        etree_parse w theme_lang = inr tree
        /\ languages (findall_below "variables" tree) ≠ []
        /\ _iter_files "metadata" w = (files, None)
        /\ files ≠ []
        /\ Forall (fun filepath =>
                     exists metadata,
                       etree_parse w filepath = inr metadata
                       /\ NoDup (languages (findall "variables" metadata))
                       /\ forall lang,
                            lang ∈ languages (findall "variables" metadata)
                            <-> lang ∈ languages (findall_below "variables" tree))
                  files.
Proof.
  intros _.
  unfold check_all_systems_fully_translated. rewrite run_generator_true.
  unfold check_all_systems_fully_translated_body.
  rewrite silent_bind_passes by apply silent_call.
  change (value (call (fun w => etree_parse w theme_lang) w))
    with (etree_parse w theme_lang).
  apply exist_proper. intros tree.
  assert (Hempty : required_languages tree = ∅
                   <-> languages (findall_below "variables" tree) = []).
  { rewrite required_languages_list. split.
    - intros Hnone. destruct (languages _) as [|lang langs]; [done|].
      assert (lang ∈ (∅ : gset string)) as Hin by (rewrite <- Hnone; set_solver).
      by apply elem_of_empty in Hin.
    - by intros ->. }
  destruct (decide (required_languages tree = ∅)) as [Hnone|Hsome].
  { split; [by intros (_ & [_ [? _]%Forall_cons] & _)|].
    intros (files & _ & Hlangs & _). by apply Hempty in Hnone. }
  rewrite (files_loop_passes (_iter_files "metadata")
             (check_translations (required_languages tree))
             (fun filepath =>
                exists metadata,
                  etree_parse w filepath = inr metadata
                  /\ NoDup (languages (findall "variables" metadata))
                  /\ forall lang,
                       lang ∈ languages (findall "variables" metadata)
                       <-> lang ∈ languages (findall_below "variables" tree)) w
             (check_translations_steady _)).
  - split.
    + intros (Htree & files & Hfiles & Hsome' & Hall). exists files.
      repeat split; try done. by rewrite <- Hempty.
    + intros (files & Htree & _ & Hfiles & Hsome' & Hall). split; [done|]. by exists files.
  - intros filepath. rewrite check_translations_clean.
    apply exist_proper. intros metadata. rewrite required_languages_list.
    by setoid_rewrite elem_of_list_to_set.
  - intros filepath. apply check_translations_nonempty.
Qed.

Lemma check_all_systems_fully_translated_passes_witness :
  ascii_documents translations_world
  /\ ((_run_check check_all_systems_fully_translated translations_world).1.2 = true
      <-> exists tree files,
            etree_parse translations_world theme_lang = inr tree
            /\ languages (findall_below "variables" tree) ≠ []
            /\ _iter_files "metadata" translations_world = (files, None)
            /\ files ≠ []
            /\ Forall (fun filepath =>
                         exists metadata,
                           etree_parse translations_world filepath = inr metadata
                           /\ NoDup (languages (findall "variables" metadata))
                           /\ forall lang,
                                lang ∈ languages (findall "variables" metadata)
                                <-> lang ∈ languages (findall_below "variables" tree))
                      files).
Proof.
  assert (Hascii : ascii_documents translations_world).
  { intros p tree. unfold etree_parse. simpl.
    repeat case_decide; try done; intros [= <-]; reflexivity. }
  split; [exact Hascii|].
  exact (check_all_systems_fully_translated_passes translations_world Hascii).
Defined.
(** *** [check_all_variables_fully_translated] *)

Lemma omap_Some_id {A} (l : list A) : omap Some l = l.
Proof. induction l as [|x l IH]; csimpl; [done|]. by rewrite IH. Qed.

Lemma remove_tags_run lang order (lang_tags : gset string) w :
  exists rs,
    fold_each order lang_tags (remove_tag lang) w
    = mkGenState rs w (inr (lang_tags ∖ list_to_set order))
    /\ (Forall (fun r => is_failure r = false) rs
        <-> NoDup order /\ forall t, t ∈ order -> t ∈ lang_tags).
Proof.
  pose proof (fold_each_removals (remove_tag lang) Some) as Hfold.
  setoid_rewrite omap_Some_id in Hfold. apply Hfold.
  - done.
  - intros acc t w' k [= <-] Hin. unfold remove_tag.
    rewrite decide_True by done. by exists [].
  - intros acc t w' k [= <-] Hout. unfold remove_tag.
    rewrite decide_False by done. eexists. split; [reflexivity|].
    by intros [? _]%Forall_cons.
Qed.

Lemma check_language_steady required_tags var : steady (check_language required_tags var).
Proof. unfold check_language, remove_tag. steady_all. Qed.

Lemma check_language_value required_tags var w :
  value (check_language required_tags var w) = inr tt.
Proof.
  unfold check_language. destruct (get "lang" var) as [l|]; [|done].
  rewrite ask_value, bind_value.
  destruct (remove_tags_run (Py.lower (Py.strip l)) (set_iter w required_tags)
                            (get_child_tags var) w) as (rs & -> & _).
  cbn [value world_after]. destruct (decide _); [done|]. by rewrite ask_value.
Qed.

Lemma check_language_clean (required_tags : gset string) var w :
  sets_ok w ->
  clean (check_language required_tags var) w
  <-> (is_Some (get "lang" var) -> get_child_tags var = required_tags).
Proof.
  intros Hsets. unfold clean. rewrite check_language_value. unfold check_language.
  destruct (get "lang" var) as [l|].
  2: { split; [by intros _ [? ?]|]. intros _. split; [done|constructor]. }
  rewrite ask_then, bind_yielded.
  destruct (remove_tags_run (Py.lower (Py.strip l)) (set_iter w required_tags)
                            (get_child_tags var) w) as (rs & -> & Hrs).
  cbn [value yielded world_after]. rewrite Forall_app, Hrs.
  destruct (Hsets required_tags) as [Hnodup Helem].
  assert (Hleft : get_child_tags var ∖ list_to_set (set_iter w required_tags) = ∅
                  <-> get_child_tags var ⊆ required_tags).
  { split.
    - intros Hnone t Ht. destruct (decide (t ∈ required_tags)) as [?|Hout]; [done|].
      exfalso. apply (not_elem_of_empty (C := gset string) t). rewrite <- Hnone.
      apply elem_of_difference. split; [done|].
      rewrite elem_of_list_to_set. by rewrite Helem.
    - intros Hsub. apply set_eq. intros t. split; [|by intros ?%elem_of_empty].
      intros [Ht Hout]%elem_of_difference. exfalso. apply Hout.
      rewrite elem_of_list_to_set. by apply Helem, Hsub. }
  destruct (decide (get_child_tags var ∖ list_to_set (set_iter w required_tags) = ∅))
    as [Hnone|Hsome].
  - split.
    + intros (_ & (_ & Hall) & _) _. apply set_eq. intros t. split.
      * apply Hleft, Hnone.
      * intros Ht. by apply Hall, Helem.
    + intros Heq. split; [done|]. split; [|constructor]. split; [done|].
      intros t Ht%Helem. rewrite Heq; [done|by eexists].
  - rewrite ask_then. split.
    + by intros (_ & _ & [? _]%Forall_cons).
    + intros Heq. exfalso. apply Hsome, Hleft. rewrite Heq; [done|by eexists].
Qed.

(** X24: sets being iterated member by member, the runner returns [True]
    for [check_all_variables_fully_translated] exactly when [theme-lang.xml]
    is parsed, has the primary [variables] element, and every [variables]
    element with a language has children of the same tags as the primary
    one. *)
Theorem check_all_variables_fully_translated_passes w :
  sets_ok w ->
  (_run_check check_all_variables_fully_translated w).1.2 = true
  <-> exists tree variables,
        etree_parse w theme_lang = inr tree
        /\ find "variables" tree = Some variables
        /\ Forall (fun var =>
                     is_Some (get "lang" var)
                     -> get_child_tags var = get_child_tags variables)
                  (findall_below "variables" tree).
Proof.
  intros Hsets.
  unfold check_all_variables_fully_translated. rewrite run_generator_true.
  unfold check_all_variables_fully_translated_body.
  rewrite silent_bind_passes by apply silent_call.
  change (value (call (fun w => etree_parse w theme_lang) w))
    with (etree_parse w theme_lang).
  apply exist_proper. intros tree.
  destruct (find "variables" tree) as [variables|].
  2: { split; [by intros (_ & [? _] & _)|by intros (? & _ & ? & _)]. }
  pose proof (clean_for_each (check_language (get_child_tags variables))
                (findall_below "variables" tree) w
                (check_language_steady _)) as Hloop.
  assert (Hvalue : value (for_each (findall_below "variables" tree)
                            (check_language (get_child_tags variables)) w) = inr tt).
  { apply for_each_steady_value; [apply check_language_steady|].
    apply Forall_forall. intros var _. apply check_language_value. }
  unfold clean in *. rewrite bind_value, bind_yielded, Hvalue in *.
  cbn [value yielded]. rewrite Forall_app.
  assert (Hall : Forall (fun r => is_failure r = false)
                   (yielded (for_each (findall_below "variables" tree)
                               (check_language (get_child_tags variables)) w))
                 <-> Forall (fun var =>
                               is_Some (get "lang" var)
                               -> get_child_tags var = get_child_tags variables)
                            (findall_below "variables" tree)).
  { split.
    - intros Hrs. eapply Forall_impl; [apply Hloop; by split|].
      intros var Hvar. by apply (check_language_clean _ var w Hsets).
    - intros Hvars. apply Hloop. eapply Forall_impl; [exact Hvars|].
      intros var Hvar. by apply (check_language_clean _ var w Hsets). }
  rewrite Hall. split.
  - intros (Htree & (_ & Hvars & _) & _). by exists variables.
  - intros (variables' & Htree & [= <-] & Hvars). split; [done|]. split.
    + split; [done|]. split; [done|by repeat constructor].
    + intros [_ ?]%app_eq_nil. done.
Qed.

Lemma check_all_variables_fully_translated_passes_witness :
  sets_ok theme_world
  /\ ((_run_check check_all_variables_fully_translated theme_world).1.2 = true
      <-> exists tree variables,
            etree_parse theme_world theme_lang = inr tree
            /\ find "variables" tree = Some variables
            /\ Forall (fun var =>
                         is_Some (get "lang" var)
                         -> get_child_tags var = get_child_tags variables)
                      (findall_below "variables" tree)).
Proof.
  assert (Hsets : sets_ok theme_world).
  { intros s. simpl. split; [apply NoDup_elements|]. intros x. apply elem_of_elements. }
  split; [exact Hsets|].
  exact (check_all_variables_fully_translated_passes theme_world Hsets).
Defined.

(** *** [check_no_missing_collections], continued *)

Lemma read_collections_fold lines : forall (acc : gset string) x,
  x ∈ fold_left
        (fun theme_collections line =>
           if Py.startswith line "#" || negb (Py.truthy_str (Py.strip line))
           then theme_collections
           else theme_collections ∪ {[Py.strip line]})
        lines acc
  <-> x ∈ acc
      \/ exists line,
           line ∈ lines
           /\ Py.startswith line "#" = false
           /\ Py.strip line ≠ ""
           /\ x = Py.strip line.
Proof.
  induction lines as [|line lines IH]; intros acc x.
  - simpl. split; [by left|]. intros [?|(line & ?%elem_of_nil & _)]; done.
  - cbn [fold_left]. rewrite IH.
    assert (Hblank : Py.truthy_str (Py.strip line) = true <-> Py.strip line ≠ "").
    { by destruct (Py.strip line). }
    split.
    + intros [Hacc|(line' & Hin & Hrest)].
      * destruct (Py.startswith line "#") eqn:Hhash; simpl in Hacc; [by left|].
        destruct (Py.truthy_str (Py.strip line)) eqn:Htruthy; simpl in Hacc; [|by left].
        apply elem_of_union in Hacc as [?|Hx]; [by left|].
        apply elem_of_singleton in Hx as ->.
        right. exists line. repeat split; [apply list_elem_of_here|done|by apply Hblank].
      * right. exists line'. split; [by apply list_elem_of_further|done].
    + intros [Hacc|(line' & [->|Hin]%elem_of_cons & Hhash & Hsome & ->)].
      * left. destruct (_ || _); [done|]. apply elem_of_union. by left.
      * left. rewrite Hhash. apply Hblank in Hsome. rewrite Hsome. simpl.
        apply elem_of_union. right. by apply elem_of_singleton.
      * right. by exists line'.
Qed.

(** X25: the lines of [collections.info] being in ASCII, an entry is read
    from it exactly when it is a line, stripped, that does not start with
    [#] and is not blank. The test for [#] is on the line as it is read: a
    [#] after blanks does not make a comment. *)
Theorem read_collections_elem lines x :
  forallb ascii_text lines = true ->
  x ∈ read_collections lines
  <-> exists line,
        line ∈ lines
        /\ Py.startswith line "#" = false
        /\ Py.strip line ≠ ""
        /\ x = Py.strip line.
Proof.
  intros _. unfold read_collections. rewrite read_collections_fold. split.
  - by intros [?%elem_of_empty|?].
  - by right.
Qed.

Lemma read_collections_elem_witness :
  forallb ascii_text collections_lines = true
  /\ ("arcade" ∈ read_collections collections_lines
      <-> exists line,
            line ∈ collections_lines
            /\ Py.startswith line "#" = false
            /\ Py.strip line ≠ ""
            /\ "arcade" = Py.strip line).
Proof.
  split; [reflexivity|].
  apply (read_collections_elem collections_lines "arcade"). reflexivity.
Defined.

Lemma match_systems_run systems (listed : gset string) w :
  exists rs,
    fold_each systems listed match_system w
    = mkGenState rs w (inr (listed ∖ list_to_set (stem <$> systems)))
    /\ (Forall (fun r => is_failure r = false) rs
        <-> NoDup (stem <$> systems) /\ forall k, k ∈ stem <$> systems -> k ∈ listed).
Proof.
  pose proof (fold_each_removals match_system (fun system => Some (stem system))) as Hfold.
  assert (Hkeys : forall l : list Path, omap (fun system => Some (stem system)) l = stem <$> l).
  { induction l as [|s l IH]; csimpl; [done|]. by rewrite IH. }
  setoid_rewrite Hkeys in Hfold. apply Hfold.
  - done.
  - intros acc s w' k [= <-] Hin. rewrite (match_system_listed _ _ _ Hin).
    eexists. split; [reflexivity|]. by repeat constructor.
  - intros acc s w' k [= <-] Hout. rewrite (match_system_unlisted _ _ _ Hout).
    eexists. split; [reflexivity|]. by intros [? _]%Forall_cons.
Qed.

Lemma match_systems_length systems : forall (listed : gset string) w,
  length (yielded (fold_each systems listed match_system w)) = length systems.
Proof.
  induction systems as [|s systems IH]; intros listed w; [done|].
  rewrite fold_each_cons_yielded. destruct (decide (stem s ∈ listed)) as [Hin|Hout].
  - rewrite (match_system_listed _ _ _ Hin). cbn [yielded value world_after].
    rewrite length_app, IH. done.
  - rewrite (match_system_unlisted _ _ _ Hout). cbn [yielded value world_after].
    rewrite length_app, IH. done.
Qed.

(** X26: the lines of [collections.info] being in ASCII, the runner returns
    [True] for [check_no_missing_collections] exactly when the first loop ends without exception, the collections
    file is read, there is at least one collection system, the stems of the
    collection systems differ from each other, and they are the entries of
    the collections file. A theme with no collection system and no entry
    does not pass. *)
Theorem check_no_missing_collections_passes w :
  (forall lines,
     text_lines w collections_file = inr lines -> forallb ascii_text lines = true) ->
  (_run_check check_no_missing_collections w).1.2 = true
  <-> exists systems lines,
        system_collections w = inr systems
        /\ text_lines w collections_file = inr lines
        /\ systems ≠ []
        /\ NoDup (stem <$> systems)
        /\ forall x, x ∈ stem <$> systems <-> x ∈ read_collections lines.
Proof.
  intros _.
  unfold check_no_missing_collections. rewrite run_generator_true.
  unfold check_no_missing_collections_body, system_collections.
  rewrite silent_bind_passes by apply silent_fold_in, silent_add_collection.
  apply exist_proper. intros systems.
  rewrite silent_bind_passes by apply silent_call.
  change (value (call (fun w => text_lines w collections_file) w))
    with (text_lines w collections_file).
  split.
  - intros (Hsystems & lines & Hlines & Hclean & Hsome). exists lines.
    split; [done|]. split; [done|]. revert Hclean Hsome. unfold clean.
    rewrite bind_value, bind_yielded.
    pose proof (match_systems_length systems (read_collections lines) w) as Hlen.
    destruct (match_systems_run systems (read_collections lines) w) as (rs & Hrun & Hrs).
    rewrite Hrun in *. cbn [value yielded world_after] in *.
    destruct (decide (read_collections lines ∖ list_to_set (stem <$> systems) = ∅))
      as [Hnone|Hextra].
    + rewrite app_nil_r. intros [_ [Hnodup Hall]%Hrs] Hne.
      split; [by destruct systems, rs|]. split; [done|].
      intros x. split; [apply Hall|]. intros Hx.
      destruct (decide (x ∈ stem <$> systems)) as [?|Hout]; [done|].
      exfalso. apply (not_elem_of_empty (C := gset string) x). rewrite <- Hnone.
      apply elem_of_difference. split; [done|]. by rewrite elem_of_list_to_set.
    + rewrite ask_value, ask_then, Forall_app.
      by intros [_ [_ [? _]%Forall_cons]].
  - intros (lines & Hsystems & Hlines & Hne & Hnodup & Hsame).
    split; [done|]. exists lines. split; [done|]. unfold clean.
    rewrite bind_value, bind_yielded.
    pose proof (match_systems_length systems (read_collections lines) w) as Hlen.
    destruct (match_systems_run systems (read_collections lines) w) as (rs & Hrun & Hrs).
    rewrite Hrun in *. cbn [value yielded world_after] in *.
    rewrite decide_True.
    + rewrite app_nil_r. split; [split; [done|]|by destruct systems, rs].
      apply Hrs. split; [done|]. intros k. apply Hsame.
    + apply set_eq. intros x. rewrite elem_of_difference, elem_of_list_to_set, Hsame.
      split; [by intros [? ?]|by intros ?%elem_of_empty].
Qed.

Lemma check_no_missing_collections_passes_witness :
  (forall lines,
     text_lines collections_world collections_file = inr lines ->
     forallb ascii_text lines = true)
  /\ ((_run_check check_no_missing_collections collections_world).1.2 = true
      <-> exists systems lines,
            system_collections collections_world = inr systems
            /\ text_lines collections_world collections_file = inr lines
            /\ systems ≠ []
            /\ NoDup (stem <$> systems)
            /\ forall x, x ∈ stem <$> systems <-> x ∈ read_collections lines).
Proof.
  assert (Hascii : forall lines,
             text_lines collections_world collections_file = inr lines ->
             forallb ascii_text lines = true).
  { intros lines [= <-]. reflexivity. }
  split; [exact Hascii|].
  exact (check_no_missing_collections_passes collections_world Hascii).
Defined.
